(** * RANK2-AUTO: the batch upload orchestrator, embedded and verified

    The development follows the TypeScript sources:
    - [src/utils/dataProcessor.ts]  : [parseCSV], [chunkArray];
    - [src/services/automationMock.ts] : the simulated phase executor
      ([simulateLogin], [simulateNavigation], [simulateUploadBatch]);
    - [src/App.tsx] : [runAutomation], [handleStop], [handleReset];
    - the older copy of the application shell and of the mock executor
      that the repository still carries (module [Legacy]);
    - [src/utils/dataProcessor.ts] : [parseGoogleSheetUrl] and
      [constructCsvExportUrl]; [src/App.tsx] : [handleFetchSheet] and the
      listeners that [App] installs under Electron;
    - the Electron main process ([electron/main.js]), to which
      [runAutomation] hands the job over when [window.electronAPI] is
      present: the handlers of [start-job] and [stop-job]. The browser it
      drives through Playwright and the network are outside the program;
      what they answer is a parameter of the embedding.

    Conventions of the embedding.
    - JavaScript numbers that the program uses as counters, sizes and
      indices are integers; they are modelled by [Z] (array indices and
      loop counters that the code keeps non-negative by [nat]).
    - JavaScript strings are modelled by [string] (8-bit characters); the
      case mapping and the white space class are the ASCII ones.
    - JavaScript objects used as records of CSV cells are finite maps
      [gmap string JSValue].
    - Loops whose termination depends on the data carry a fuel argument
      and answer [None] when the fuel is used up. *)

From Stdlib Require Import ZArith Lia Ascii.
From Stdlib Require String.
From stdpp Require Import base option list strings gmap fin_maps pretty.

Local Open Scope Z_scope.

(** ** JavaScript string primitives used by the sources *)

Module JS.

(** [String.prototype.trim] strips white space and line terminators; on
    8-bit characters these are TAB, LF, VT, FF, CR and SPACE. *)
Definition isWhiteSpace (c : ascii) : bool := Ascii.is_space c.

Fixpoint trimStart (s : string) : string :=
  match s with
  | EmptyString => EmptyString
  | String c s' => if isWhiteSpace c then trimStart s' else s
  end.

Definition trimEnd (s : string) : string :=
  String.rev (trimStart (String.rev s)).

Definition trim (s : string) : string := trimEnd (trimStart s).

(** [s.split(sep)] for a one-character separator. The result is never
    empty: splitting the empty string yields one empty field. *)
Fixpoint split (sep : ascii) (s : string) : list string :=
  match s with
  | EmptyString => [EmptyString]
  | String c s' =>
      if Ascii.eqb c sep then EmptyString :: split sep s'
      else match split sep s' with
           | [] => [String c EmptyString]
           | w :: ws => String c w :: ws
           end
  end.

(** [s.includes(sub)] *)
Fixpoint includes (s sub : string) : bool :=
  String.prefix sub s ||
  match s with
  | EmptyString => false
  | String _ s' => includes s' sub
  end.

Definition lowerChar (c : ascii) : ascii :=
  let n := nat_of_ascii c in
  if ((65 <=? n) && (n <=? 90))%nat then ascii_of_nat (n + 32) else c.

(** [s.toLowerCase()] *)
Fixpoint toLowerCase (s : string) : string :=
  match s with
  | EmptyString => EmptyString
  | String c s' => String (lowerChar c) (toLowerCase s')
  end.

(** ToBoolean on a string: only the empty string is falsy. *)
Definition truthy (s : string) : bool :=
  match s with EmptyString => false | _ => true end.

(** Template-literal rendering of an integer, [`${n}`]. *)
Definition show (n : Z) : string := pretty n.

(** [a.slice(start, end)] for integer arguments: a negative index counts
    from the end, both indices are clamped to the array. *)
Definition relIndex (len k : Z) : Z :=
  if k <? 0 then Z.max (len + k) 0 else Z.min k len.

Definition slice {T} (a : list T) (start stop : Z) : list T :=
  let len := Z.of_nat (length a) in
  let k := relIndex len start in
  let final := relIndex len stop in
  take (Z.to_nat (final - k)) (drop (Z.to_nat k) a).

(** [a.some(p)] *)
Definition some {T} (p : T → bool) (a : list T) : bool := existsb p a.

End JS.

(** ** [src/utils/dataProcessor.ts]: [chunkArray] *)

(** The [for (let i = 0; i < array.length; i += size)] loop. One unit of
    fuel is spent on each evaluation of the loop test. *)
Fixpoint chunkLoop {T} (fuel : nat) (array : list T) (size : Z)
    (i : Z) (result : list (list T)) : option (list (list T)) :=
  match fuel with
  | O => None
  | S fuel' =>
      if i <? Z.of_nat (length array)
      then chunkLoop fuel' array size (i + size)
             (result ++ [JS.slice array i (i + size)])
      else Some result
  end.

Definition chunkArray {T} (fuel : nat) (array : list T) (size : Z)
    : option (list (list T)) :=
  chunkLoop fuel array size 0 [].

(** The ceiling of [n / d] for a positive divisor. *)
Definition ceilDiv (n d : Z) : Z := (n + d - 1) / d.

(** The error taxonomy of the specification, and the two ways a JavaScript
    call can complete. Nothing in [chunkArray] throws, so its completion,
    when it has one, is always normal. *)
Inductive SpecError :=
  | InvalidConfiguration | PreconditionNotMet | LoginFailed
  | BatchFailed | Cancelled.

Inductive Completion (A : Type) :=
  | Normal (v : A)
  | Throw (e : SpecError).
Arguments Normal {A} v.
Arguments Throw {A} e.

Definition chunkArrayCompletion {T} (fuel : nat) (array : list T) (size : Z)
    : option (Completion (list (list T))) :=
  Normal <$> chunkArray fuel array size.

(** ** [types.ts] *)

Module JobStatus.
Inductive t := IDLE | RUNNING | COMPLETED | FAILED | PAUSED.
#[global] Instance eq_dec : EqDecision t.
Proof. solve_decision. Defined.
End JobStatus.

Module LogLevel.
Inductive t := INFO | SUCCESS | WARNING | ERROR | SYSTEM.
#[global] Instance eq_dec : EqDecision t.
Proof. solve_decision. Defined.
End LogLevel.

(** [SimulationScenario], a union of string literals. *)
Module Scenario.
Inductive t := SUCCESS | ERROR_VPN | ERROR_AUTH | ERROR_UPLOAD.
#[global] Instance eq_dec : EqDecision t.
Proof. solve_decision. Defined.
End Scenario.

Module TargetEnv.
Inductive t := PROD | STAGING.
End TargetEnv.

(** [LogEntry]. The [id] (drawn from [Math.random]) and the [timestamp]
    (the wall clock) of an entry are not modelled: no decision of the
    program reads them. *)
Record LogEntry := {
  level : LogLevel.t;
  message : string;
  step : string;
  hasScreenshot : bool;
}.

Record AutomationConfig := {
  username : string;
  batchSize : Z;
  targetEnv : TargetEnv.t;
  simulationScenario : Scenario.t;
}.

Record JobStats := {
  totalRecords : Z;
  processedRecords : Z;
  successCount : Z;
  errorCount : Z;
  batchesTotal : Z;
  batchesCompleted : Z;
}.

(** ** JavaScript numbers as the CSV reader sees them

    [parseCSV] hands every cell to the built-in [Number] and tests the
    result with [isNaN]; later it tests the [id] cell for truthiness.
    The built-ins belong to the JavaScript runtime, so the reader is
    stated over any implementation of them. *)
Class JSNumberOps := {
  JSNum : Type;
  Number : string → JSNum;
  isNaN : JSNum → bool;
  numToBoolean : JSNum → bool;
}.

(** A runtime instance for evaluation: decimal digit strings denote
    their value and everything else is [NaN], represented by [None].
    JavaScript's [Number] agrees with it on the strings of digits and on
    the non-numeric words the examples below use. *)
Fixpoint digitsValue (acc : Z) (s : string) : option Z :=
  match s with
  | EmptyString => Some acc
  | String c s' =>
      match Ascii.is_nat c with
      | Some d => digitsValue (10 * acc + Z.of_nat d) s'
      | None => None
      end
  end.

Definition digitsNumber (s : string) : option Z :=
  match s with
  | EmptyString => Some 0
  | _ => digitsValue 0 s
  end.

#[global] Instance digitsOps : JSNumberOps := {|
  JSNum := option Z;
  Number := digitsNumber;
  isNaN := λ n, match n with None => true | Some _ => false end;
  numToBoolean := λ n, match n with Some z => negb (z =? 0) | None => false end;
|}.

Section Model.
Context {ops : JSNumberOps}.

(** The values a CSV cell can hold in a [CatalogItem]. *)
Inductive JSValue :=
  | VUndefined
  | VString (s : string)
  | VNumber (n : JSNum).

(** [CatalogItem] is an open record ([[key: string]: any]); a finite map
    from column names to values. Property order is not modelled. *)
Abbreviation CatalogItem := (gmap string JSValue).

(** ToBoolean, as used by [item.id || ...]. *)
Definition toBoolean (v : JSValue) : bool :=
  match v with
  | VUndefined => false
  | VString s => JS.truthy s
  | VNumber n => numToBoolean n
  end.

(** ** [src/utils/dataProcessor.ts]: [parseCSV] *)

(** The body of the [headers.forEach] callback: the value stored under a
    header, from [currentLine[index]?.trim()]. *)
Definition cellValue (cell : option string) : JSValue :=
  match JS.trim <$> cell with
  | None => VUndefined
  | Some value =>
      if negb (isNaN (Number value)) && negb (String.eqb value EmptyString)
      then VNumber (Number value)
      else VString value
  end.

Definition fillItem (headers currentLine : list string) : CatalogItem :=
  foldl (λ (item : CatalogItem) '(index, header),
           <[header := cellValue (currentLine !! index)]> item)
        ∅ (imap pair headers).

(** [(`row-${i}`)] *)
Definition rowId (i : nat) : JSValue :=
  VString ("row-" +:+ JS.show (Z.of_nat i)).

(** [item.id = item.id || `row-${i}`] *)
Definition ensureId (item : CatalogItem) (i : nat) : CatalogItem :=
  let id :=
    match item !! "id" with
    | Some v => if toBoolean v then v else rowId i
    | None => rowId i
    end in
  <["id" := id]> item.

(** The [for (let i = 1; i < lines.length; i++)] loop; [n] counts the
    iterations that remain, [lines.length - i]. *)
Fixpoint parseRows (headers lines : list string) (n i : nat)
    (data : list CatalogItem) : list CatalogItem :=
  match n with
  | O => data
  | S n' =>
      let currentLine := JS.split "," (lines !!! i) in
      if decide (length currentLine ≠ length headers)
      then parseRows headers lines n' (S i) data
      else parseRows headers lines n' (S i)
             (data ++ [ensureId (fillItem headers currentLine) i])
  end.

Definition parseCSV (csvText : string) : list CatalogItem :=
  let lines := JS.split "010" (JS.trim csvText) in
  if (length lines <? 2)%nat then []
  else
    let headers := JS.trim <$> JS.split "," (lines !!! 0%nat) in
    parseRows headers lines (length lines - 1) 1 [].

End Model.

Abbreviation CatalogItem := (gmap string JSValue).

(** ** The component state and the effects of a run

    [status], [logs] and [stats] are the React state cells of [App];
    [stopRef] is the mutable box [useRef(false)]. *)
Record AppState := {
  status : JobStatus.t;
  logs : list LogEntry;
  stats : JobStats;
  stopRef : bool;
}.

(** The three capabilities of the phase executor; an upload is recorded
    with its 1-based batch identifier and its record count. *)
Inductive Capability :=
  | CapLogin
  | CapNavigate
  | CapUpload (batchId recordCount : Z).

(** The suspension windows of a run: the awaited capability calls and the
    two-second pause after batch [i] (0-based). [handleStop] can only run
    while the orchestrator is suspended in one of them. *)
Inductive Phase :=
  | InLogin
  | InNavigation
  | InUpload (i : nat)
  | InWait (i : nat).

(** What the run cannot decide by itself. *)
Record Env := {
  electronAPI : bool;            (* is [window.electronAPI] defined *)
  stopDuring : Phase → bool;     (* does the user press Stop in this window *)
  randomFailure : Z → bool;      (* [Math.random() < 0.01] in the upload of a batch *)
}.

Section Runtime.
Context {ops : JSNumberOps}.

(** Every observable action of [runAutomation], in program order. *)
Inductive Effect :=
  | Alert (msg : string)
  | SetLogs (l : list LogEntry)
  | AddLog (e : LogEntry)
  | SetStatus (s : JobStatus.t)
  | SetStats (f : JobStats → JobStats)
  | SetStopRef (b : bool)
  | Invoke (c : Capability)
  | StartJob (config : AutomationConfig) (password : string)
             (data : list CatalogItem).

Definition applyEffect (s : AppState) (e : Effect) : AppState :=
  match e with
  | Alert _ | Invoke _ | StartJob _ _ _ => s
  | SetLogs l =>
      {| status := status s; logs := l; stats := stats s; stopRef := stopRef s |}
  | AddLog entry =>
      {| status := status s; logs := logs s ++ [entry]; stats := stats s;
         stopRef := stopRef s |}
  | SetStatus st =>
      {| status := st; logs := logs s; stats := stats s; stopRef := stopRef s |}
  | SetStats f =>
      {| status := status s; logs := logs s; stats := f (stats s);
         stopRef := stopRef s |}
  | SetStopRef b =>
      {| status := status s; logs := logs s; stats := stats s; stopRef := b |}
  end.

Definition replay (s : AppState) (t : list Effect) : AppState :=
  foldl applyEffect s t.

(** A computation reads the state it starts in and answers with a value
    and the effects it performed, or with [None] when it does not
    return. The state seen by a continuation is the replay of the
    effects performed so far. *)
Definition M (A : Type) : Type := AppState → option (A * list Effect).

Definition ret {A} (a : A) : M A := λ _, Some (a, []).

Definition bind {A B} (m : M A) (k : A → M B) : M B := λ s,
  match m s with
  | None => None
  | Some (a, t1) =>
      match k a (replay s t1) with
      | None => None
      | Some (b, t2) => Some (b, t1 ++ t2)
      end
  end.

Definition emit (e : Effect) : M unit := λ _, Some (tt, [e]).

Definition readStopRef : M bool := λ s, Some (stopRef s, []).

Definition fromFuel {A} (o : option A) : M A := λ _,
  match o with
  | None => None
  | Some a => Some (a, [])
  end.

End Runtime.

Notation "x <- m ;; k" := (bind m (λ x, k))
  (at level 100, m at next level, k at level 200, only parsing,
   right associativity).
Notation "m ;; k" := (bind m (λ _, k))
  (at level 100, k at level 200, only parsing, right associativity).

(** ** [src/services/automationMock.ts]: the simulated phase executor *)

Section Executor.
Context {ops : JSNumberOps}.
Variable env : Env.

(** [addLog] of [App], the callback every phase receives. *)
Definition addLog (msg : string) (lvl : LogLevel.t) (tag : string)
    (shot : bool) : M unit :=
  emit (AddLog {| level := lvl; message := msg; step := tag;
                  hasScreenshot := shot |}).

(** [await delay(ms)]: the passing of time has no effect of its own (so
    the random part of a delay is left out). What can happen while the
    orchestrator is suspended, a press of Stop, is accounted for once per
    awaited call, in [awaiting] below: the flag is only read between the
    calls. *)
Definition delay (ms : Z) : M unit := ret tt.

(** The double-quote character, for the one message that has it. *)
Definition dq : string := String "034" EmptyString.

Definition isInvalidPassword (password : string) : bool :=
  (Z.of_nat (String.length password) <? 4) ||
  JS.some (λ s, JS.includes (JS.toLowerCase password) s)
          ["wrong"; "error"; "fail"; "invalid"].

Definition simulateLogin (user password : string) (scenario : Scenario.t)
    : M bool :=
  addLog "Navigating to https://withpassion.decathlon.net/rank2/control/login"
         LogLevel.INFO "LOGIN" false ;;
  delay 800 ;;
  if decide (scenario = Scenario.ERROR_VPN) then
    addLog "Network Error: Host unreachable." LogLevel.ERROR "NET" false ;;
    delay 300 ;;
    addLog "CRITICAL: Corporate VPN connection not detected. Please connect to GlobalProtect and retry."
           LogLevel.ERROR "SYS" false ;;
    ret false
  else
    addLog ("Checking credentials for user: " +:+ user)
           LogLevel.INFO "AUTH" false ;;
    delay 1200 ;;
    if bool_decide (scenario = Scenario.ERROR_AUTH)
       || JS.includes user "error" || isInvalidPassword password
    then
      addLog "Authentication failed: Invalid credentials or Account Locked."
             LogLevel.ERROR "AUTH" true ;;
      addLog ("(Simulation Tip: Avoid using passwords containing " +:+ dq
              +:+ "wrong" +:+ dq +:+ " or " +:+ dq +:+ "error" +:+ dq
              +:+ " for the Happy Path)")
             LogLevel.SYSTEM "AUTH" false ;;
      ret false
    else
      addLog "Login successful. Dashboard loaded." LogLevel.SUCCESS "AUTH" true ;;
      ret true.

Definition simulateNavigation : M unit :=
  addLog "Accessing Main Dashboard..." LogLevel.INFO "NAV" false ;;
  delay 600 ;;
  addLog "Clicking 'Rank 2' tab" LogLevel.INFO "NAV" false ;;
  delay 500 ;;
  addLog "Clicking 'Catalog' sub-menu" LogLevel.INFO "NAV" false ;;
  delay 800 ;;
  addLog "Catalog Control Panel loaded. Ready for input." LogLevel.SUCCESS "NAV" false.

Definition batchTag (batchId : Z) : string := "BATCH-" +:+ JS.show batchId.

Definition simulateUploadBatch (batchId recordCount : Z)
    (scenario : Scenario.t) : M bool :=
  addLog ("Preparing Batch #" +:+ JS.show batchId +:+ " ("
          +:+ JS.show recordCount +:+ " records)...")
         LogLevel.INFO (batchTag batchId) false ;;
  delay 400 ;;
  addLog "Converting JSON to .xlsx format for upload"
         LogLevel.SYSTEM (batchTag batchId) false ;;
  delay 600 ;;
  addLog "Locating 'Choose File' input field..."
         LogLevel.SYSTEM (batchTag batchId) false ;;
  delay 300 ;;
  addLog ("Selecting file: batch_" +:+ JS.show batchId +:+ ".xlsx")
         LogLevel.INFO (batchTag batchId) false ;;
  delay 500 ;;
  addLog "Clicking 'UPDATE' button to initiate upload..."
         LogLevel.INFO (batchTag batchId) false ;;
  delay 800 ;;
  if bool_decide (scenario = Scenario.ERROR_UPLOAD) || randomFailure env batchId
  then
    addLog ("Server responded with 500 Internal Error on Batch #"
            +:+ JS.show batchId)
           LogLevel.ERROR (batchTag batchId) false ;;
    addLog ("Retrying Batch #" +:+ JS.show batchId +:+ " (Attempt 1/3)...")
           LogLevel.WARNING (batchTag batchId) false ;;
    delay 1000 ;;
    addLog "Retry failed. Skipping batch to maintain workflow stability."
           LogLevel.ERROR (batchTag batchId) false ;;
    ret false
  else
    addLog ("Batch #" +:+ JS.show batchId
            +:+ " upload confirmed. Status: Pending Processing")
           LogLevel.SUCCESS (batchTag batchId) false ;;
    ret true.

(** ** [src/App.tsx]: the orchestrator *)

(** [constants.ts] *)
Definition URLS_LOGIN : string :=
  "https://withpassion.decathlon.net/rank2/control/login".

Definition DEFAULT_BATCH_SIZE : Z := 500.

(** [handleStop], on the simulation branch. *)
Definition handleStop : M unit := emit (SetStopRef true).

(** An awaited call: the capability is invoked, runs to its end, and the
    user may have pressed Stop before the orchestrator resumes. *)
Definition awaiting {A} (ph : Phase) (m : M A) : M A :=
  r <- m ;;
  (if stopDuring env ph then handleStop else ret tt) ;;
  ret r.

Definition call {A} (c : Capability) (ph : Phase) (m : M A) : M A :=
  emit (Invoke c) ;; awaiting ph m.

(** [Math.ceil(n / d)] on integers, for [d] other than zero. (For
    [d = 0] JavaScript computes [Infinity], which [Z] cannot hold; the
    statements below that meet this expression assume [0 < d].) *)
Definition mathCeilDiv (n d : Z) : Z := - ((- n) / d).

Definition initialStats (total nbatches : Z) : JobStats :=
  {| totalRecords := total; processedRecords := 0; successCount := 0;
     errorCount := 0; batchesTotal := nbatches; batchesCompleted := 0 |}.

(** The updater passed to [setStats] after a batch. *)
Definition batchUpdate (processedTotal : Z) (i : nat) (batchLen : Z)
    (batchSuccess : bool) (prev : JobStats) : JobStats :=
  {| totalRecords := totalRecords prev;
     processedRecords := processedTotal;
     successCount :=
       if batchSuccess then successCount prev + batchLen else successCount prev;
     errorCount :=
       if negb batchSuccess then errorCount prev + batchLen else errorCount prev;
     batchesTotal := batchesTotal prev;
     batchesCompleted := Z.of_nat i + 1 |}.

(** The batch loop together with the two statements that follow it. [n]
    counts the iterations that remain, [batches.length - i]; a [return]
    inside the loop ends the whole function. *)
Fixpoint batchLoop (scenario : Scenario.t) (batches : list (list CatalogItem))
    (n i : nat) (processedTotal : Z) : M unit :=
  match n with
  | O =>
      addLog "All batches processed." LogLevel.SUCCESS "DONE" false ;;
      emit (SetStatus JobStatus.COMPLETED)
  | S n' =>
      stop <- readStopRef ;;
      if (stop : bool) then
        addLog "Job stopped by user." LogLevel.WARNING "STOP" false ;;
        emit (SetStatus JobStatus.PAUSED)
      else
        let batchLen := Z.of_nat (length (batches !!! i)) in
        batchSuccess <- call (CapUpload (Z.of_nat i + 1) batchLen)
                            (InUpload i)
                            (simulateUploadBatch (Z.of_nat i + 1) batchLen scenario) ;;
        let processedTotal' := processedTotal + batchLen in
        emit (SetStats (batchUpdate processedTotal' i batchLen batchSuccess)) ;;
        (if Z.of_nat i <? Z.of_nat (length batches) - 1 then
           addLog "Waiting 2s before next batch to ensure stability..."
                  LogLevel.SYSTEM "WAIT" false ;;
           awaiting (InWait i) (delay 2000)
         else ret tt) ;;
        batchLoop scenario batches n' (S i) processedTotal'
  end.

Definition runAutomation (fuel : nat) (config : AutomationConfig)
    (password rawData : string) : M unit :=
  if negb (JS.truthy (username config)) || negb (JS.truthy password) then
    emit (Alert "Please enter credentials first.")
  else if negb (JS.truthy (JS.trim rawData)) then
    emit (Alert "Please load or enter data to process.")
  else
    let parsedData := parseCSV rawData in
    if (length parsedData =? 0)%nat then
      emit (Alert "No valid data found.")
    else
      emit (SetLogs []) ;;
      emit (SetStatus JobStatus.RUNNING) ;;
      if electronAPI env then
        addLog "Handing over control to Electron Main Process..."
               LogLevel.SYSTEM "IPC" false ;;
        emit (SetStats (λ _,
          initialStats (Z.of_nat (length parsedData))
                       (mathCeilDiv (Z.of_nat (length parsedData))
                                    (batchSize config)))) ;;
        emit (StartJob config password parsedData)
      else
        emit (SetStopRef false) ;;
        addLog "Initializing Automation Agent v1.0 (Simulation Mode)..."
               LogLevel.SYSTEM "INIT" false ;;
        addLog ("Target URL: " +:+ URLS_LOGIN) LogLevel.INFO "INIT" false ;;
        batches <- fromFuel (chunkArray fuel parsedData (batchSize config)) ;;
        emit (SetStats (λ _,
          initialStats (Z.of_nat (length parsedData))
                       (Z.of_nat (length batches)))) ;;
        addLog ("Data parsed successfully. "
                +:+ JS.show (Z.of_nat (length parsedData)) +:+ " records found.")
               LogLevel.SUCCESS "DATA" false ;;
        addLog ("Split into " +:+ JS.show (Z.of_nat (length batches))
                +:+ " batch(es) of max " +:+ JS.show (batchSize config)
                +:+ " records.")
               LogLevel.INFO "DATA" false ;;
        stop <- readStopRef ;;
        if (stop : bool) then ret tt
        else
          loginSuccess <- call CapLogin InLogin
                              (simulateLogin (username config) password
                                             (simulationScenario config)) ;;
          if negb loginSuccess then emit (SetStatus JobStatus.FAILED)
          else
            stop <- readStopRef ;;
            if (stop : bool) then ret tt
            else
              call CapNavigate InNavigation simulateNavigation ;;
              batchLoop (simulationScenario config) batches
                        (length batches) 0 0.

(** [handleReset] *)
Definition handleReset : M unit :=
  emit (SetStatus JobStatus.IDLE) ;;
  emit (SetLogs []) ;;
  emit (SetStats (λ _, initialStats 0 0)).

End Executor.

(** ** The older copy of the shell and of the mock executor

    The repository also carries an earlier [App] component with its own
    [runAutomation], written against an earlier mock executor whose
    capabilities take neither the password nor a scenario. *)

Module Legacy.
Section LegacyExecutor.
Context {ops : JSNumberOps}.
Variable env : Env.

Record AutomationConfig := {
  username : string;
  batchSize : Z;
  targetEnv : TargetEnv.t;
}.

Definition simulateLogin (user : string) : M bool :=
  addLog "Navigating to https://withpassion.decathlon.net/rank2/control/login"
         LogLevel.INFO "LOGIN" false ;;
  delay 800 ;;
  addLog ("Checking credentials for user: " +:+ user)
         LogLevel.INFO "AUTH" false ;;
  delay 1200 ;;
  if JS.includes user "error" then
    addLog "Authentication failed: Invalid credentials"
           LogLevel.ERROR "AUTH" true ;;
    ret false
  else
    addLog "Login successful. Dashboard loaded." LogLevel.SUCCESS "AUTH" true ;;
    ret true.

Definition simulateUploadBatch (batchId recordCount : Z) : M bool :=
  addLog ("Preparing Batch #" +:+ JS.show batchId +:+ " ("
          +:+ JS.show recordCount +:+ " records)...")
         LogLevel.INFO (batchTag batchId) false ;;
  delay 400 ;;
  addLog "Converting JSON to .xlsx format for upload"
         LogLevel.SYSTEM (batchTag batchId) false ;;
  delay 600 ;;
  addLog "Locating 'Choose File' input field..."
         LogLevel.SYSTEM (batchTag batchId) false ;;
  delay 300 ;;
  addLog ("Selecting file: batch_" +:+ JS.show batchId +:+ ".xlsx")
         LogLevel.INFO (batchTag batchId) false ;;
  delay 500 ;;
  addLog "Clicking 'UPDATE' button to initiate upload..."
         LogLevel.INFO (batchTag batchId) false ;;
  delay 800 ;;
  if randomFailure env batchId then
    addLog ("Server responded with 500 Internal Error on Batch #"
            +:+ JS.show batchId)
           LogLevel.ERROR (batchTag batchId) false ;;
    ret false
  else
    addLog ("Batch #" +:+ JS.show batchId
            +:+ " upload confirmed. Status: Pending Processing")
           LogLevel.SUCCESS (batchTag batchId) false ;;
    ret true.

Fixpoint batchLoop (batches : list (list CatalogItem))
    (n i : nat) (processedTotal : Z) : M unit :=
  match n with
  | O =>
      addLog "All batches processed." LogLevel.SUCCESS "DONE" false ;;
      addLog "Generating Final Report..." LogLevel.INFO "DONE" false ;;
      emit (SetStatus JobStatus.COMPLETED)
  | S n' =>
      stop <- readStopRef ;;
      if (stop : bool) then
        addLog "Job stopped by user." LogLevel.WARNING "STOP" false ;;
        emit (SetStatus JobStatus.PAUSED)
      else
        let batchLen := Z.of_nat (length (batches !!! i)) in
        batchSuccess <- call env (CapUpload (Z.of_nat i + 1) batchLen)
                            (InUpload i)
                            (simulateUploadBatch (Z.of_nat i + 1) batchLen) ;;
        let processedTotal' := processedTotal + batchLen in
        emit (SetStats (batchUpdate processedTotal' i batchLen batchSuccess)) ;;
        (if Z.of_nat i <? Z.of_nat (length batches) - 1 then
           addLog "Waiting 2s before next batch to ensure stability..."
                  LogLevel.SYSTEM "WAIT" false ;;
           awaiting env (InWait i) (delay 2000)
         else ret tt) ;;
        batchLoop batches n' (S i) processedTotal'
  end.

Definition runAutomation (fuel : nat) (config : AutomationConfig)
    (password rawData : string) : M unit :=
  if negb (JS.truthy (username config)) || negb (JS.truthy password) then
    emit (Alert "Please enter credentials first.")
  else if negb (JS.truthy (JS.trim rawData)) then
    emit (Alert "Please load or enter data to process.")
  else
    emit (SetStatus JobStatus.RUNNING) ;;
    emit (SetLogs []) ;;
    emit (SetStopRef false) ;;
    addLog "Initializing Automation Agent v1.0..." LogLevel.SYSTEM "INIT" false ;;
    addLog ("Target URL: " +:+ URLS_LOGIN) LogLevel.INFO "INIT" false ;;
    let parsedData := parseCSV rawData in
    if (length parsedData =? 0)%nat then
      addLog "Failed to parse CSV data. Check format."
             LogLevel.ERROR "DATA" false ;;
      emit (SetStatus JobStatus.FAILED)
    else
      batches <- fromFuel (chunkArray fuel parsedData (batchSize config)) ;;
      emit (SetStats (λ _,
        initialStats (Z.of_nat (length parsedData))
                     (Z.of_nat (length batches)))) ;;
      addLog ("Data parsed successfully. "
              +:+ JS.show (Z.of_nat (length parsedData)) +:+ " records found.")
             LogLevel.SUCCESS "DATA" false ;;
      addLog ("Split into " +:+ JS.show (Z.of_nat (length batches))
              +:+ " batch(es) of max " +:+ JS.show (batchSize config)
              +:+ " records.")
             LogLevel.INFO "DATA" false ;;
      stop <- readStopRef ;;
      if (stop : bool) then ret tt
      else
        loginSuccess <- call env CapLogin InLogin
                             (simulateLogin (username config)) ;;
        if negb loginSuccess then emit (SetStatus JobStatus.FAILED)
        else
          stop <- readStopRef ;;
          if (stop : bool) then ret tt
          else
            call env CapNavigate InNavigation simulateNavigation ;;
            batchLoop batches (length batches) 0 0.

End LegacyExecutor.
End Legacy.

(** ** Vocabulary of the statements *)

Section Vocabulary.
Context {ops : JSNumberOps}.

(** [runs m s Q]: started in state [s], the computation [m] returns, and
    its value and effects satisfy [Q]. *)
Definition runs {A} (m : M A) (s : AppState)
    (Q : A → list Effect → Prop) : Prop :=
  ∃ a t, m s = Some (a, t) ∧ Q a t.

(** The capabilities invoked by a trace, in order. *)
Definition invocations (t : list Effect) : list Capability :=
  omap (λ e, match e with Invoke c => Some c | _ => None end) t.

(** The values given to [setStatus], in order. *)
Definition statusChanges (t : list Effect) : list JobStatus.t :=
  omap (λ e, match e with SetStatus st => Some st | _ => None end) t.

(** An effect that leaves [stats] alone. *)
Definition quiet (e : Effect) : bool :=
  match e with SetStats _ => false | _ => true end.

(** The position of the first [setStats] of a trace. *)
Fixpoint firstSetStats (t : list Effect) : option nat :=
  match t with
  | [] => None
  | e :: t' => if quiet e then S <$> firstSetStats t' else Some 0%nat
  end.

(** The number of records in a sequence of batches. *)
Definition recordsIn {T} (batches : list (list T)) : Z :=
  Z.of_nat (sum_list (length <$> batches)).

(** The invariants the specification puts on a [Stats] snapshot. *)
Definition StatsInv (st : JobStats) : Prop :=
  processedRecords st = successCount st + errorCount st
  ∧ processedRecords st <= totalRecords st
  ∧ batchesCompleted st <= batchesTotal st.

(** Every count of [a] is at most the count of [b]. *)
Definition statsLe (a b : JobStats) : Prop :=
  processedRecords a <= processedRecords b
  ∧ successCount a <= successCount b
  ∧ errorCount a <= errorCount b
  ∧ batchesCompleted a <= batchesCompleted b.

(** The discipline of the statistics along a trace that starts in [s]:
    the first [setStats] installs the initial values (totals set, counts
    zero), and between any two later points the snapshot satisfies the
    invariants and no count decreases. *)
Definition statsDiscipline (s : AppState) (t : list Effect) : Prop :=
  ∀ i0, firstSetStats t = Some i0 →
    (∃ total nbatches, 0 <= total ∧ 0 <= nbatches ∧
       stats (replay s (take (S i0) t)) = initialStats total nbatches)
    ∧ ∀ n m, (i0 < n)%nat → (n <= m)%nat → (m <= length t)%nat →
        StatsInv (stats (replay s (take n t)))
        ∧ statsLe (stats (replay s (take n t))) (stats (replay s (take m t))).

(** Is the stop flag set when the orchestrator reaches the top of the
    batch loop for the [k]-th time (0-based), given that it was clear
    when navigation started: Stop was pressed during navigation, or
    during the upload of, or the pause after, an earlier batch. *)
Fixpoint stoppedBefore (env : Env) (k : nat) : bool :=
  match k with
  | O => stopDuring env InNavigation
  | S j =>
      stoppedBefore env j || stopDuring env (InUpload j)
      || stopDuring env (InWait j)
  end.

(** Enough fuel for the chunking of the parsed records. *)
Definition enoughFuel (config : AutomationConfig) (rawData : string) : nat :=
  S (Z.to_nat (ceilDiv (Z.of_nat (length (parseCSV rawData)))
                       (batchSize config))).

(** What a press of the Stop button, if any, adds to the trace. *)
Definition stopPress (pressed : bool) : list Effect :=
  if pressed then [SetStopRef true] else [].

(** The entry logged when the loop finds the stop flag set. *)
Definition stopEntry : LogEntry :=
  {| level := LogLevel.WARNING; message := "Job stopped by user.";
     step := "STOP"; hasScreenshot := false |}.

(** The entries of Error severity. *)
Definition errorEntries (l : list LogEntry) : list LogEntry :=
  filter (λ e, level e = LogLevel.ERROR) l.

(** The entries a trace hands to [addLog], in order. *)
Definition entriesOf (t : list Effect) : list LogEntry :=
  omap (λ e, match e with AddLog x => Some x | _ => None end) t.

(** A trace that only appends to the log. *)
Definition logsOnly (t : list Effect) : bool :=
  forallb (λ e, match e with AddLog _ => true | _ => false end) t.

(** Every step of the trace keeps the invariants of the statistics and
    decreases no count. *)
Fixpoint stepsOk (s : AppState) (t : list Effect) : Prop :=
  match t with
  | [] => True
  | e :: t' =>
      StatsInv (stats (applyEffect s e))
      ∧ statsLe (stats s) (stats (applyEffect s e))
      ∧ stepsOk (applyEffect s e) t'
  end.

(** The statistics at the top of the batch loop, when [i] batches are
    done and the local counter [processedTotal] holds [pt]. *)
Definition LoopInv (batches : list (list CatalogItem)) (i : nat) (pt : Z)
    (st : JobStats) : Prop :=
  pt = recordsIn (take i batches)
  ∧ processedRecords st = pt
  ∧ successCount st + errorCount st = pt
  ∧ batchesCompleted st = Z.of_nat i
  ∧ totalRecords st = recordsIn batches
  ∧ batchesTotal st = Z.of_nat (length batches).

(** Where the batch loop ends: the index it has reached and whether it
    left through the stop check. [n] iterations remain, the loop is at
    index [i] and [stop] is the value of the flag. *)
Fixpoint loopExit (env : Env) (len n i : nat) (stop : bool) : nat * bool :=
  match n with
  | O => (i, false)
  | S n' =>
      if stop then (i, true)
      else loopExit env len n' (S i)
             (stopDuring env (InUpload i)
              || (Z.of_nat i <? Z.of_nat len - 1) && stopDuring env (InWait i))
  end.

(** The upload invocations for the batches [i, i + 1, ..., e - 1]. *)
Definition uploadCalls (batches : list (list CatalogItem)) (i e : nat)
    : list Capability :=
  (λ j, CapUpload (Z.of_nat j + 1) (Z.of_nat (length (batches !!! j))))
    <$> seq i (e - i).

(** What the batch loop does when it is entered in state [s] at index [i]
    with [n] iterations to go: every step keeps the statistics in order,
    the batches up to the exit index are uploaded in order, the status is
    set once, the final statistics count exactly the batches before the
    exit index, and a stop leaves through the warning. *)
Definition loopOutcome (env : Env) (batches : list (list CatalogItem))
    (n i : nat) (s : AppState) (t : list Effect) : Prop :=
  let exit := loopExit env (length batches) n i (stopRef s) in
  stepsOk s t
  ∧ invocations t = uploadCalls batches i exit.1
  ∧ statusChanges t
    = [if exit.2 then JobStatus.PAUSED else JobStatus.COMPLETED]
  ∧ LoopInv batches exit.1 (recordsIn (take exit.1 batches))
            (stats (replay s t))
  ∧ (i <= exit.1 <= length batches)%nat
  ∧ (if exit.2
     then ∃ t0, t = t0 ++ [AddLog stopEntry; SetStatus JobStatus.PAUSED]
     else exit.1 = length batches).

(** The trace of a simulated run from its first statement to the return
    of the login call: the log is cleared, the status set to Running, the
    stop flag cleared, the statistics initialised between two groups of
    log entries, and the login capability invoked. *)
Definition simulationHead (env : Env) (total nbatches : Z)
    (l1 l2 tlogin : list Effect) : list Effect :=
  [SetLogs []; SetStatus JobStatus.RUNNING; SetStopRef false] ++ l1
  ++ [SetStats (λ _, initialStats total nbatches)] ++ l2
  ++ [Invoke CapLogin] ++ tlogin ++ stopPress (stopDuring env InLogin).

(** The same trace extended to the return of the navigation call. *)
Definition simulationNav (env : Env) (total nbatches : Z)
    (l1 l2 tlogin tnav : list Effect) : list Effect :=
  simulationHead env total nbatches l1 l2 tlogin
  ++ [Invoke CapNavigate] ++ tnav ++ stopPress (stopDuring env InNavigation).

(** The three ways a simulated run that passed the precondition checks
    can go: login fails; login succeeds but Stop was pressed meanwhile;
    or navigation and the batch loop follow. *)
Definition simulationShape (env : Env) (config : AutomationConfig)
    (password : string) (total : Z) (batches : list (list CatalogItem))
    (s : AppState) (t : list Effect) : Prop :=
  ∃ l1 l2 tlogin ok,
    let head := simulationHead env total (Z.of_nat (length batches))
                               l1 l2 tlogin in
    logsOnly l1 = true ∧ logsOnly l2 = true
    ∧ errorEntries (entriesOf l1 ++ entriesOf l2) = []
    ∧ (∀ s', simulateLogin (username config) password
                           (simulationScenario config) s'
             = Some (ok, tlogin))
    ∧ ((ok = false ∧ t = head ++ [SetStatus JobStatus.FAILED])
       ∨ (ok = true ∧ stopDuring env InLogin = true ∧ t = head)
       ∨ (ok = true ∧ stopDuring env InLogin = false
          ∧ ∃ tnav tloop,
              let nav := simulationNav env total (Z.of_nat (length batches))
                                       l1 l2 tlogin tnav in
              logsOnly tnav = true
              ∧ t = nav ++ tloop
              ∧ loopOutcome env batches (length batches) 0
                            (replay s nav) tloop)).

End Vocabulary.

(** ** Sample inputs

    Concrete inputs on which the definitions are evaluated, with the
    [digitsOps] instance for the numeric built-ins. *)

Definition newline : string := String "010" EmptyString.

(** A header and three data rows; the second row has the id [0]. *)
Definition sampleCsv : string :=
  "id,name" +:+ newline +:+ "1,shoe" +:+ newline +:+ "0,hat"
  +:+ newline +:+ "3,sock".

(** A header and no data row. *)
Definition headerOnlyCsv : string := "id,name".

(** The browser, nobody presses Stop, no random upload failure. *)
Definition simEnv : Env :=
  {| electronAPI := false; stopDuring := λ _, false;
     randomFailure := λ _, false |}.

(** The same, with Stop pressed while the first batch is uploaded. *)
Definition stopInFirstUploadEnv : Env :=
  {| electronAPI := false;
     stopDuring := λ ph, match ph with InUpload O => true | _ => false end;
     randomFailure := λ _, false |}.

Definition sampleConfig (scenario : Scenario.t) : AutomationConfig :=
  {| username := "alice"; batchSize := 2; targetEnv := TargetEnv.PROD;
     simulationScenario := scenario |}.

Definition legacyConfig : Legacy.AutomationConfig :=
  {| Legacy.username := "alice"; Legacy.batchSize := 2;
     Legacy.targetEnv := TargetEnv.PROD |}.

Definition idleState : AppState :=
  {| status := JobStatus.IDLE; logs := []; stats := initialStats 0 0;
     stopRef := false |}.

(** ** [src/utils/dataProcessor.ts]: Google Sheet addresses *)

(** The character class [[a-zA-Z0-9-_]]: letters, digits, the hyphen and
    the underscore. *)
Definition isSheetIdChar (c : ascii) : bool :=
  let n := nat_of_ascii c in
  ((97 <=? n) && (n <=? 122) || (65 <=? n) && (n <=? 90)
   || (48 <=? n) && (n <=? 57) || (n =? 45) || (n =? 95))%nat.

(** The character class [[0-9]]. *)
Definition isDigitChar (c : ascii) : bool :=
  let n := nat_of_ascii c in ((48 <=? n) && (n <=? 57))%nat.

(** The character class [[#&?]]. *)
Definition isGidMark (c : ascii) : bool :=
  let n := nat_of_ascii c in ((n =? 35) || (n =? 38) || (n =? 63))%nat.

(** What a greedy [[class]*] consumes at the head of [s]: the longest
    prefix made of characters of the class. *)
Fixpoint spanClass (p : ascii → bool) (s : string) : string :=
  match s with
  | EmptyString => EmptyString
  | String c s' => if p c then String c (spanClass p s') else EmptyString
  end.

(** [s] without its prefix [pre], when it has that prefix. *)
Fixpoint stripPrefix (pre s : string) : option string :=
  match pre, s with
  | EmptyString, _ => Some s
  | String a pre', String b s' =>
      if Ascii.eqb a b then stripPrefix pre' s' else None
  | String _ _, EmptyString => None
  end.

(** A match of [lit([class]+)] that starts at the head of [s]; the answer
    is the capture group. The group is greedy and nothing follows it, so
    there is no backtracking. *)
Definition captureHere (lit : string) (p : ascii → bool) (s : string)
    : option string :=
  match stripPrefix lit s with
  | None => None
  | Some rest =>
      match spanClass p rest with
      | EmptyString => None
      | String c g => Some (String c g)
      end
  end.

(** [s.match(re)] for a pattern without the global flag: the leftmost
    position at which the pattern matches wins. *)
Fixpoint firstMatch (here : string → option string) (s : string)
    : option string :=
  match here s with
  | Some group => Some group
  | None =>
      match s with
      | EmptyString => None
      | String _ s' => firstMatch here s'
      end
  end.

(** [/\/d\/([a-zA-Z0-9-_]+)/] *)
Definition idPattern : string → option string :=
  captureHere "/d/" isSheetIdChar.

(** [/[#&?]gid=([0-9]+)/] *)
Definition gidPattern (s : string) : option string :=
  match s with
  | EmptyString => None
  | String c s' => if isGidMark c then captureHere "gid=" isDigitChar s' else None
  end.

(** The object [{ id, gid }]. *)
Module SheetDetails.
Record t := { id : string; gid : string }.
End SheetDetails.

(** [parseGoogleSheetUrl]. On a string argument nothing in the [try]
    block throws, so the [catch] branch is not reached. *)
Definition parseGoogleSheetUrl (url : string) : option SheetDetails.t :=
  let idMatch := firstMatch idPattern url in
  let gid :=
    match firstMatch gidPattern url with
    | Some g => g
    | None => "0"
    end in
  match idMatch with
  | Some id =>
      if JS.truthy id
      then Some {| SheetDetails.id := id; SheetDetails.gid := gid |}
      else None
  | None => None
  end.

(** [constructCsvExportUrl] *)
Definition constructCsvExportUrl (id gid : string) : string :=
  "https://docs.google.com/spreadsheets/d/" +:+ id
  +:+ "/export?format=csv&gid=" +:+ gid.

(** Every character of [s] is in the class. *)
Fixpoint allChars (p : ascii → bool) (s : string) : bool :=
  match s with
  | EmptyString => true
  | String c s' => p c && allChars p s'
  end.

(** The address the application starts with, in [sheetUrl]. *)
Definition initialSheetUrl : string :=
  "https://docs.google.com/spreadsheets/d/1oH41KmxSeEUuLyRT9LrFdWkdgvPS7P6Dk3AWF-b8Y40/edit?gid=0#gid=0".

(** ** The shape of a chunking *)

(** The shape of a batch sequence that [chunkArray] can produce for a
    given size: no batch is empty or larger than the size, and only the
    last one may be smaller. *)
Definition wellChunked {T} (size : Z) (batches : list (list T)) : Prop :=
  ∀ j batch, batches !! j = Some batch →
    (0 < length batch)%nat ∧ Z.of_nat (length batch) <= size
    ∧ ((S j < length batches)%nat → Z.of_nat (length batch) = size).

(** ** More vocabulary of the statements *)

Section MoreVocabulary.
Context {ops : JSNumberOps}.

(** A computation that looks at the state only through the stop flag. *)
Definition stateBlind {A} (m : M A) : Prop :=
  ∀ s1 s2, stopRef s1 = stopRef s2 → m s1 = m s2.

(** A computation all of whose effects satisfy [P]. *)
Definition emitsOnly {A} (P : Effect → bool) (m : M A) : Prop :=
  ∀ s a t, m s = Some (a, t) → forallb P t = true.

(** An effect that does not replace the log. *)
Definition keepsLog (e : Effect) : bool :=
  match e with SetLogs _ => false | _ => true end.

(** Is the stop flag found set at the top of one of the first [nb]
    iterations of the batch loop. *)
Definition stopSeen (env : Env) (nb : nat) : bool :=
  existsb (stoppedBefore env) (seq 0 nb).

(** The verdict of the simulated login on a configuration and a
    password. *)
Definition loginVerdict (config : AutomationConfig) (password : string)
    : bool :=
  negb (bool_decide (simulationScenario config = Scenario.ERROR_VPN))
  && negb (bool_decide (simulationScenario config = Scenario.ERROR_AUTH))
  && negb (JS.includes (username config) "error")
  && negb (isInvalidPassword password).

(** The status a simulated run ends with, from what is known before it
    starts: the verdict of the login and the moments at which Stop is
    pressed. *)
Definition finalStatus (env : Env) (config : AutomationConfig)
    (password : string) (nb : nat) : JobStatus.t :=
  if negb (loginVerdict config password) then JobStatus.FAILED
  else if stopDuring env InLogin then JobStatus.RUNNING
  else if stopSeen env nb then JobStatus.PAUSED
  else JobStatus.COMPLETED.

End MoreVocabulary.

(** The browser, with Stop pressed while the login is under way. *)
Definition stopInLoginEnv : Env :=
  {| electronAPI := false;
     stopDuring := λ ph, match ph with InLogin => true | _ => false end;
     randomFailure := λ _, false |}.

(** The browser, with Stop pressed while the second batch, the last of
    the sample, is uploaded. *)
Definition lateStopEnv : Env :=
  {| electronAPI := false;
     stopDuring := λ ph, match ph with InUpload 1 => true | _ => false end;
     randomFailure := λ _, false |}.

(** The state an earlier run that was stopped has left behind. *)
Definition staleState : AppState :=
  {| status := JobStatus.PAUSED; logs := [stopEntry];
     stats := initialStats 3 2; stopRef := true |}.

(** ** [src/App.tsx]: fetching the sheet *)

(** [constants.ts]: the demonstration data, a header line and four rows,
    each line ended by a line feed. *)
Definition DEMO_CSV_DATA : string :=
  "Article ID,Name,Price,Category,Status" +:+ newline
  +:+ "8345123,Running Shoes Ekiden,14.99,Running,Active" +:+ newline
  +:+ "8552100,Tennis Racket TR100,24.99,Tennis,Active" +:+ newline
  +:+ "8221001,Swimming Goggles,5.99,Water Sports,Pending" +:+ newline
  +:+ "8100234,Hiking Backpack 20L,19.99,Hiking,Active" +:+ newline.

(** The two values of [viewMode]. *)
Module ViewMode.
Inductive t := raw | table.
End ViewMode.

(** What [await fetch(exportUrl)] and the reading of the body come to:
    the request is rejected (no network, a cross-origin refusal), or a
    response arrives with its [ok] flag, its status code and its text
    ([None] when [response.text()] is rejected). *)
Inductive FetchOutcome :=
  | FetchRejected
  | FetchResponse (ok : bool) (code : Z) (body : option string).

(** Every observable action of [handleFetchSheet]. *)
Inductive FetchEffect :=
  | SetIsFetching (b : bool)
  | FetchLog (e : LogEntry)
  | Request (url : string)
  | SetRawData (text : string)
  | SetViewMode (m : ViewMode.t)
  | ConsoleError
  | SetTimeout (ms : Z).

(** [addLog(message, level, 'FETCH')] *)
Definition fetchLog (msg : string) (lvl : LogLevel.t) : FetchEffect :=
  FetchLog {| level := lvl; message := msg; step := "FETCH";
              hasScreenshot := false |}.

(** [handleFetchSheet]. The first component holds the effects of the
    handler itself, in program order; the second those of the callback
    it hands to [setTimeout], which runs a second later. [fetch] tells
    how the request for an address ends. *)
Definition handleFetchSheet (fetch : string → FetchOutcome)
    (sheetUrl : string) : list FetchEffect * list FetchEffect :=
  if negb (JS.truthy sheetUrl) then ([], [])
  else
    let resolving :=
      [SetIsFetching true;
       fetchLog ("Resolving Google Sheet: " +:+ sheetUrl) LogLevel.INFO] in
    match parseGoogleSheetUrl sheetUrl with
    | None =>
        (resolving
         ++ [fetchLog "Invalid Google Sheet URL format." LogLevel.ERROR;
             SetIsFetching false], [])
    | Some sheetDetails =>
        let exportUrl :=
          constructCsvExportUrl (SheetDetails.id sheetDetails)
                                (SheetDetails.gid sheetDetails) in
        let requesting :=
          resolving
          ++ [fetchLog ("Attempting to download CSV from: " +:+ exportUrl)
                       LogLevel.SYSTEM;
              Request exportUrl] in
        match fetch exportUrl with
        | FetchResponse true _ (Some text) =>
            (requesting
             ++ [SetRawData text;
                 fetchLog "Sheet data fetched successfully." LogLevel.SUCCESS;
                 SetViewMode ViewMode.table;
                 SetIsFetching false], [])
        | _ =>
            (requesting
             ++ [ConsoleError;
                 fetchLog "Could not direct fetch (CORS restriction). Loading simulation data for preview..."
                          LogLevel.WARNING;
                 SetTimeout 1000;
                 SetIsFetching false],
             [SetRawData DEMO_CSV_DATA;
              fetchLog "Loaded cached/demo data for testing purposes."
                       LogLevel.INFO;
              SetViewMode ViewMode.table])
        end
    end.

(** The addresses requested, the texts given to [setRawData], the values
    given to [setIsFetching] and the entries logged by a sequence of
    effects. *)
Definition requests (t : list FetchEffect) : list string :=
  omap (λ e, match e with Request url => Some url | _ => None end) t.

Definition rawDataSet (t : list FetchEffect) : list string :=
  omap (λ e, match e with SetRawData x => Some x | _ => None end) t.

Definition fetchingSet (t : list FetchEffect) : list bool :=
  omap (λ e, match e with SetIsFetching b => Some b | _ => None end) t.

Definition fetchEntries (t : list FetchEffect) : list LogEntry :=
  omap (λ e, match e with FetchLog x => Some x | _ => None end) t.

(** Did the request for the address bring the text of the sheet. *)
Definition fetched (o : FetchOutcome) : option string :=
  match o with
  | FetchResponse true _ (Some text) => Some text
  | _ => None
  end.

(** A server that answers every request with the text of a sheet, and
    one that refuses every request. *)
Definition sheetServer (text : string) : string → FetchOutcome :=
  λ _, FetchResponse true 200 (Some text).

Definition noServer : string → FetchOutcome := λ _, FetchRejected.

(** ** The Electron main process ([electron/main.js]) and the bridge

    Under Electron [runAutomation] sends the job over the [start-job]
    channel; the main process drives a browser through Playwright and
    reports over [job-log], [job-status] and [job-stats], which the
    listeners that [App] installed turn into state updates. The browser
    is outside the program: what the awaited Playwright calls do, and
    when the user presses Stop, is given by a [MainEnv]. *)

(** The stretches of awaited calls of the [start-job] handler: launching
    the browser and opening a page; loading the login page; filling and
    submitting the login form; the wait for a manual login; the wait for
    the page transition; and the work on batch [i] (0-based). *)
Inductive MainPhase :=
  | Launch
  | Goto
  | LoginForm
  | ManualLogin
  | Transition
  | BatchWork (i : nat).

Record MainEnv := {
  (* [mainWindow && !mainWindow.isDestroyed()], for the length of the job *)
  windowOpen : bool;
  (* an awaited call of the phase is rejected, with this [error.message] *)
  throwsIn : MainPhase → option string;
  (* a [stop-job] message is handled while the job is suspended in the phase *)
  stopJobIn : MainPhase → bool;
}.

(** [Partial<JobStats>], the payload of [job-stats]. *)
Record PartialStats := {
  newTotalRecords : option Z;
  newProcessedRecords : option Z;
  newSuccessCount : option Z;
  newErrorCount : option Z;
  newBatchesTotal : option Z;
  newBatchesCompleted : option Z;
}.

(** What the main process sends to the window. *)
Inductive IpcMessage :=
  | MsgLog (e : LogEntry)              (* on [job-log] *)
  | MsgStatus (st : JobStatus.t)       (* on [job-status] *)
  | MsgStats (p : PartialStats).       (* on [job-stats] *)

(** A number that [Math.ceil] of a quotient of integers can be. *)
Inductive JSNumber :=
  | Finite (z : Z)
  | Infinity
  | NaN.

(** [Math.ceil(n / d)] for integers [n ≥ 0] and [d]. *)
Definition mathCeilQuot (n d : Z) : JSNumber :=
  if d =? 0 then (if n =? 0 then NaN else Infinity)
  else Finite (mathCeilDiv n d).

(** [i < total] *)
Definition ltNumber (i : Z) (total : JSNumber) : bool :=
  match total with
  | Finite z => i <? z
  | Infinity => true
  | NaN => false
  end.

(** [`${total}`] *)
Definition showNumber (total : JSNumber) : string :=
  match total with
  | Finite z => JS.show z
  | Infinity => "Infinity"
  | NaN => "NaN"
  end.

(** How a stretch of the handler ends: it runs to its end, or an
    exception with a message is thrown. *)
Inductive Outcome (A : Type) :=
  | Returned (a : A)
  | Thrown (msg : string).
Arguments Returned {A} a.
Arguments Thrown {A} msg.

(** A computation of the main process reads and writes the module
    variable [isStopped] and sends messages; [None] stands for a
    computation that does not end. *)
Definition Main (A : Type) : Type :=
  bool → option (Outcome A * bool * list IpcMessage).

Definition mret {A} (a : A) : Main A := λ st, Some (Returned a, st, []).

Definition mthrow {A} (msg : string) : Main A := λ st, Some (Thrown msg, st, []).

Definition mbind {A B} (m : Main A) (k : A → Main B) : Main B := λ st,
  match m st with
  | None => None
  | Some (Thrown msg, st1, out1) => Some (Thrown msg, st1, out1)
  | Some (Returned a, st1, out1) =>
      match k a st1 with
      | None => None
      | Some (r, st2, out2) => Some (r, st2, out1 ++ out2)
      end
  end.

(** [try { m } catch (error) { h(error.message) }] *)
Definition mcatch {A} (m : Main A) (h : string → Main A) : Main A := λ st,
  match m st with
  | None => None
  | Some (Returned a, st1, out1) => Some (Returned a, st1, out1)
  | Some (Thrown msg, st1, out1) =>
      match h msg st1 with
      | None => None
      | Some (r, st2, out2) => Some (r, st2, out1 ++ out2)
      end
  end.

Definition getStopped : Main bool := λ st, Some (Returned st, st, []).

Definition setStopped (b : bool) : Main unit := λ _, Some (Returned tt, b, []).

Declare Scope main_scope.
Delimit Scope main_scope with main.
Bind Scope main_scope with Main.

Notation "x <- m ;; k" := (mbind m (λ x, k))
  (at level 100, m at next level, k at level 200, only parsing,
   right associativity) : main_scope.
Notation "m ;; k" := (mbind m (λ _, k))
  (at level 100, k at level 200, only parsing, right associativity)
  : main_scope.

Section MainProcess.
Context {ops : JSNumberOps}.
Variable menv : MainEnv.

(** [if (mainWindow && !mainWindow.isDestroyed()) mainWindow.webContents.send(...)] *)
Definition send (m : IpcMessage) : Main unit := λ st,
  Some (Returned tt, st, if windowOpen menv then [m] else []).

(** [mainWindow.webContents.send(...)] without the guard: on a window
    that is gone the access throws. *)
Definition sendUnguarded (m : IpcMessage) : Main unit :=
  if windowOpen menv then send m else mthrow "Object has been destroyed".

(** [sendLog]. The entry has no [hasScreenshot] field, which reads as
    false. *)
Definition sendLog (lvl : LogLevel.t) (msg tag : string) : Main unit :=
  send (MsgLog {| level := lvl; message := msg; step := tag;
                  hasScreenshot := false |}).

(** The awaited calls of a phase: while the handler is suspended a
    [stop-job] message may set the flag, and the calls may be rejected. *)
Definition awaitPhase (ph : MainPhase) : Main unit := λ st,
  Some (match throwsIn menv ph with
        | Some msg => Thrown msg
        | None => Returned tt
        end, st || stopJobIn menv ph, []).

(** The payload of [job-stats] after a batch. *)
Definition batchStats (processedCount : Z) (i : nat) : PartialStats :=
  {| newTotalRecords := None;
     newProcessedRecords := Some processedCount;
     newSuccessCount := Some processedCount;
     newErrorCount := None;
     newBatchesTotal := None;
     newBatchesCompleted := Some (Z.of_nat i + 1) |}.

(** The [for (let i = 0; i < totalBatches; i++)] loop; a unit of fuel is
    spent on each evaluation of the loop test. The [break] ends the
    loop. *)
Fixpoint mainLoop (fuel : nat) (data : list CatalogItem) (size : Z)
    (totalBatches : JSNumber) (i : nat) (processedCount : Z) : Main unit :=
  match fuel with
  | O => λ _, None
  | S fuel' =>
      if ltNumber (Z.of_nat i) totalBatches then
        (isStopped <- getStopped ;;
         if (isStopped : bool) then
           sendLog LogLevel.WARNING "Job stopped by user." "STOP"
         else
           let batchData :=
             JS.slice data (Z.of_nat i * size) ((Z.of_nat i + 1) * size) in
           sendLog LogLevel.INFO
             ("Processing Batch " +:+ JS.show (Z.of_nat i + 1) +:+ "/"
              +:+ showNumber totalBatches +:+ " ("
              +:+ JS.show (Z.of_nat (length batchData)) +:+ " items)")
             (batchTag (Z.of_nat i + 1)) ;;
           awaitPhase (BatchWork i) ;;
           let processedCount' :=
             processedCount + Z.of_nat (length batchData) in
           send (MsgStats (batchStats processedCount' i)) ;;
           sendLog LogLevel.SUCCESS
             ("Batch " +:+ JS.show (Z.of_nat i + 1)
              +:+ " uploaded successfully via Chrome.")
             (batchTag (Z.of_nat i + 1)) ;;
           mainLoop fuel' data size totalBatches (S i) processedCount')%main
      else mret tt
  end.

(** The handler of [start-job]. The [console.error] of the [catch]
    block writes to the terminal of the main process and sends nothing
    to the window; the [finally] block is empty. *)
Definition startJob (fuel : nat) (config : AutomationConfig)
    (password : string) (data : list CatalogItem) : Main unit :=
  (setStopped false ;;
   mcatch
     (sendUnguarded (MsgStatus JobStatus.RUNNING) ;;
      sendLog LogLevel.SYSTEM "Launching Playwright Browser Engine..." "INIT" ;;
      awaitPhase Launch ;;
      sendLog LogLevel.INFO ("Navigating to " +:+ URLS_LOGIN) "LOGIN" ;;
      mcatch (awaitPhase Goto)
        (λ e,
           sendLog LogLevel.ERROR
             "Failed to load login page. Check VPN connection." "NET" ;;
           mthrow e) ;;
      sendLog LogLevel.INFO
        ("Entering credentials for " +:+ username config) "AUTH" ;;
      mcatch (awaitPhase LoginForm)
        (λ _,
           sendLog LogLevel.WARNING
             "Standard login fields not found. Please log in manually in the browser window..."
             "AUTH" ;;
           awaitPhase ManualLogin) ;;
      awaitPhase Transition ;;
      sendLog LogLevel.SUCCESS "Login phase complete." "AUTH" ;;
      sendLog LogLevel.INFO "Navigating to Dashboard..." "NAV" ;;
      let totalBatches :=
        mathCeilQuot (Z.of_nat (length data)) (batchSize config) in
      mainLoop fuel data (batchSize config) totalBatches 0 0 ;;
      isStopped <- getStopped ;;
      if negb isStopped then
        sendLog LogLevel.SUCCESS "Automation Complete." "DONE" ;;
        send (MsgStatus JobStatus.COMPLETED)
      else send (MsgStatus JobStatus.PAUSED))
     (λ msg,
        sendLog LogLevel.ERROR ("Critical Failure: " +:+ msg) "ERR" ;;
        send (MsgStatus JobStatus.FAILED)))%main.

(** The handler of [stop-job]. *)
Definition stopJob : Main unit := setStopped true.

End MainProcess.

(** [{ ...prev, ...newStats }] *)
Definition mergeStats (prev : JobStats) (p : PartialStats) : JobStats :=
  {| totalRecords := default (totalRecords prev) (newTotalRecords p);
     processedRecords := default (processedRecords prev) (newProcessedRecords p);
     successCount := default (successCount prev) (newSuccessCount p);
     errorCount := default (errorCount prev) (newErrorCount p);
     batchesTotal := default (batchesTotal prev) (newBatchesTotal p);
     batchesCompleted := default (batchesCompleted prev) (newBatchesCompleted p) |}.

Section Bridge.
Context {ops : JSNumberOps}.

(** The listeners that [App] installs with [onLog], [onStatusChange] and
    [onStatsUpdate]: what a message from the main process does to the
    component. *)
Definition onMessage (m : IpcMessage) : Effect :=
  match m with
  | MsgLog e => AddLog e
  | MsgStatus st => SetStatus st
  | MsgStats p => SetStats (λ prev, mergeStats prev p)
  end.

(** The messages a job sends, when its handler comes to an end. *)
Definition jobMessages (menv : MainEnv) (fuel : nat)
    (config : AutomationConfig) (password : string)
    (data : list CatalogItem) (isStopped : bool) : option (list IpcMessage) :=
  (λ r, r.2) <$> startJob menv fuel config password data isStopped.

(** A session under Electron: the effects of [runAutomation] in the
    window, followed by the effects of the messages of the job it
    started, if it started one. *)
Definition desktopSession (env : Env) (menv : MainEnv) (fuel : nat)
    (config : AutomationConfig) (password rawData : string)
    (isStopped : bool) (s : AppState) : option (list Effect) :=
  match runAutomation env fuel config password rawData s with
  | None => None
  | Some (_, t) =>
      match last t with
      | Some (StartJob config' password' data) =>
          (λ msgs, t ++ (onMessage <$> msgs))
            <$> jobMessages menv fuel config' password' data isStopped
      | _ => Some t
      end
  end.

End Bridge.

(** *** Vocabulary for the messages of a job *)

(** The statuses, the statistics and the log entries among a sequence of
    messages, in order. *)
Definition statusesOf (msgs : list IpcMessage) : list JobStatus.t :=
  omap (λ m, match m with MsgStatus st => Some st | _ => None end) msgs.

Definition statsOf (msgs : list IpcMessage) : list PartialStats :=
  omap (λ m, match m with MsgStats p => Some p | _ => None end) msgs.

Definition logsOf (msgs : list IpcMessage) : list LogEntry :=
  omap (λ m, match m with MsgLog e => Some e | _ => None end) msgs.

(** The entries of a given severity. *)
Definition entriesAt (lvl : LogLevel.t) (l : list LogEntry) : list LogEntry :=
  filter (λ e, level e = lvl) l.

(** Where the batch loop of the main process ends, when no batch work
    throws: the index it has reached and the value of [isStopped] there.
    [n] iterations remain, the loop is at index [i] and [st] is the
    flag. An index below the number of batches means the loop was left
    by the [break]. *)
Fixpoint jobExit (menv : MainEnv) (n i : nat) (st : bool) : nat * bool :=
  match n with
  | O => (i, st)
  | S n' =>
      if st then (i, true)
      else jobExit menv n' (S i) (stopJobIn menv (BatchWork i))
  end.

(** The value of [isStopped] when the loop is entered: a [stop-job]
    message came during one of the phases before it. *)
Definition stoppedAtEntry (menv : MainEnv) : bool :=
  stopJobIn menv Launch || stopJobIn menv Goto || stopJobIn menv LoginForm
  || (match throwsIn menv LoginForm with
      | Some _ => stopJobIn menv ManualLogin
      | None => false
      end)
  || stopJobIn menv Transition.

(** The payload of [job-stats] after batch [j] of a job on [n] records
    in batches of [size]. *)
Definition statsAfter (n size : Z) (j : nat) : PartialStats :=
  batchStats (Z.min ((Z.of_nat j + 1) * size) n) j.

(** The statistics in the window when the main process has reported [j]
    batches of a job on [n] records in [nb] batches of [size]. *)
Definition desktopStats (n size nb : Z) (j : nat) : JobStats :=
  {| totalRecords := n;
     processedRecords := Z.min (Z.of_nat j * size) n;
     successCount := Z.min (Z.of_nat j * size) n;
     errorCount := 0;
     batchesTotal := nb;
     batchesCompleted := Z.of_nat j |}.

(** The entry [runAutomation] logs before it hands the job over. *)
Definition handoverEntry : LogEntry :=
  {| level := LogLevel.SYSTEM;
     message := "Handing over control to Electron Main Process...";
     step := "IPC"; hasScreenshot := false |}.

(** A computation of the main process whose statistics reports, when it
    ends, satisfy [P]. *)
Definition reports {A} (P : list PartialStats → Prop) (m : Main A) : Prop :=
  ∀ st r st' out, m st = Some (r, st', out) → P (statsOf out).

(** Nothing is thrown in the phases before the batch loop, the login
    form apart (whose failure the handler catches). *)
Definition quietStart (menv : MainEnv) : Prop :=
  throwsIn menv Launch = None ∧ throwsIn menv Goto = None
  ∧ (throwsIn menv LoginForm ≠ None → throwsIn menv ManualLogin = None)
  ∧ throwsIn menv Transition = None.

(** The browser, the job it is handed and the window for a session under
    Electron in which nothing goes wrong. *)
Definition desktopEnv : Env :=
  {| electronAPI := true; stopDuring := λ _, false;
     randomFailure := λ _, false |}.

Definition calmMain : MainEnv :=
  {| windowOpen := true; throwsIn := λ _, None; stopJobIn := λ _, false |}.

(** The same, with a [stop-job] message during the work on the first
    batch. *)
Definition stopInFirstBatchMain : MainEnv :=
  {| windowOpen := true; throwsIn := λ _, None;
     stopJobIn := λ ph, match ph with BatchWork O => true | _ => false end |}.


(** A window that is gone. *)
Definition closedMain : MainEnv :=
  {| windowOpen := false; throwsIn := λ _, None; stopJobIn := λ _, false |}.

(** A configuration with a negative batch size. *)
Definition negativeConfig : AutomationConfig :=
  {| username := "alice"; batchSize := -2; targetEnv := TargetEnv.PROD;
     simulationScenario := Scenario.SUCCESS |}.

(** * Properties *)

(** ** Facts about [slice] and the chunking loop *)

Section Chunking.
Context {T : Type}.
Implicit Types (array : list T) (size i : Z).

Lemma slice_forward array i size :
  0 <= i → 0 < size →
  JS.slice array i (i + size) =
  take (Z.to_nat size) (drop (Z.to_nat i) array).
Proof.
  intros Hi Hs. unfold JS.slice, JS.relIndex.
  assert ((i <? 0) = false) as -> by lia.
  assert ((i + size <? 0) = false) as -> by lia.
  set (len := Z.of_nat (length array)).
  destruct (Z.le_gt_cases len i) as [Hge|Hlt].
  - rewrite !drop_ge by lia. by rewrite !take_nil.
  - rewrite (Z.min_l i len) by lia.
    destruct (Z.le_gt_cases (i + size) len) as [Hfit|Hover].
    + rewrite Z.min_l by lia. f_equal. lia.
    + rewrite Z.min_r by lia.
      rewrite !take_ge; [done| |]; rewrite length_drop; lia.
Qed.

Lemma ceilDiv_zero size : 0 < size → ceilDiv 0 size = 0.
Proof. intros. unfold ceilDiv. apply Z.div_small. lia. Qed.

Lemma ceilDiv_step n size :
  0 < size → 0 < n → ceilDiv n size = 1 + ceilDiv (Z.max (n - size) 0) size.
Proof.
  intros Hs Hn. unfold ceilDiv.
  destruct (Z.le_gt_cases size n) as [Hge|Hlt].
  - rewrite Z.max_l by lia.
    replace (n + size - 1) with (n - size + size - 1 + 1 * size) by lia.
    rewrite Z.div_add by lia. lia.
  - rewrite Z.max_r by lia.
    replace (n + size - 1) with (n - 1 + 1 * size) by lia.
    rewrite Z.div_add by lia.
    rewrite !Z.div_small by lia. lia.
Qed.

Lemma ceilDiv_nonneg n size : 0 < size → 0 <= n → 0 <= ceilDiv n size.
Proof. intros. unfold ceilDiv. apply Z.div_pos; lia. Qed.

(** What the loop does from index [i] on, for a positive step: it
    appends the chunks of the remaining suffix. *)
Lemma chunkLoop_forward array size :
  0 < size →
  ∀ (n : nat) i result,
    0 <= i → Z.to_nat (Z.of_nat (length array) - i) = n →
    ∃ chunks,
      (∀ fuel,
         ceilDiv (Z.max (Z.of_nat (length array) - i) 0) size < Z.of_nat fuel →
         chunkLoop fuel array size i result = Some (result ++ chunks))
      ∧ Z.of_nat (length chunks)
        = ceilDiv (Z.max (Z.of_nat (length array) - i) 0) size
      ∧ concat chunks = drop (Z.to_nat i) array
      ∧ Forall (λ c, (0 < length c)%nat ∧ Z.of_nat (length c) <= size) chunks.
Proof.
  intros Hs n. induction (lt_wf n) as [n _ IH].
  intros i result Hi Hn.
  set (len := Z.of_nat (length array)) in *.
  destruct (Z.le_gt_cases len i) as [Hge|Hlt].
  - exists []. rewrite Z.max_r by lia. rewrite ceilDiv_zero by done.
    split_and!; [|done| |done].
    + intros [|fuel] Hf; [lia|]. simpl. fold len.
      assert ((i <? len) = false) as -> by lia. by rewrite app_nil_r.
    + simpl. rewrite drop_ge; [done|lia].
  - destruct (IH (Z.to_nat (len - (i + size))) ltac:(lia) (i + size)
                (result ++ [JS.slice array i (i + size)]) ltac:(lia) eq_refl)
      as (chunks & Hrun & Hlen & Hcat & Hall).
    exists (JS.slice array i (i + size) :: chunks).
    rewrite (Z.max_l (len - i)) by lia.
    rewrite (ceilDiv_step (len - i)) by lia.
    replace (len - i - size) with (len - (i + size)) by lia.
    split_and!.
    + intros [|fuel] Hf.
      { pose proof (ceilDiv_nonneg (Z.max (len - (i + size)) 0) size). lia. }
      simpl. fold len. assert ((i <? len) = true) as -> by lia.
      rewrite Hrun by lia. by rewrite <-app_assoc.
    + simpl length. lia.
    + simpl. rewrite Hcat, slice_forward by lia.
      replace (Z.to_nat (i + size)) with (Z.to_nat i + Z.to_nat size)%nat by lia.
      rewrite <-drop_drop. apply take_drop.
    + constructor; [|done]. rewrite slice_forward by lia.
      rewrite length_take, length_drop. lia.
Qed.

(** A loop that returns does so with the same value for any larger fuel. *)
Lemma chunkLoop_fuel_mono fuel fuel' array size i result r :
  (fuel <= fuel')%nat →
  chunkLoop fuel array size i result = Some r →
  chunkLoop fuel' array size i result = Some r.
Proof.
  revert fuel' i result. induction fuel as [|fuel IH]; [done|].
  intros [|fuel'] i result Hle; [lia|]. simpl.
  destruct (i <? _); [|done]. apply IH. lia.
Qed.

(** With a step that is not positive, the index never reaches the
    length of a non-empty array. *)
Lemma chunkLoop_stuck fuel array size i result :
  size <= 0 → i < Z.of_nat (length array) →
  chunkLoop fuel array size i result = None.
Proof.
  intros Hs. revert i result. induction fuel as [|fuel IH]; [done|].
  intros i result Hi. simpl.
  assert ((i <? Z.of_nat (length array)) = true) as -> by lia.
  apply IH. lia.
Qed.

End Chunking.

Lemma sum_list_length_concat {T} (ls : list (list T)) :
  sum_list (length <$> ls) = length (concat ls).
Proof.
  induction ls as [|l ls IH]; [done|].
  rewrite fmap_cons. simpl. rewrite length_app. by f_equal.
Qed.

(** C1. For a positive integer [size], [chunkArray records size] returns
    (for any fuel above the number of batches) exactly
    [ceil(N / size)] batches whose lengths sum to [N] and whose in-order
    concatenation is [records]; an empty input yields no batch; and the
    result does not depend on the fuel that was enough to obtain it. *)
Theorem C1_chunkArray_partition {T} (records : list T) (size : Z) :
  0 < size →
  ∃ batches,
    (∀ fuel, ceilDiv (Z.of_nat (length records)) size < Z.of_nat fuel →
       chunkArray fuel records size = Some batches)
    ∧ (∀ fuel r, chunkArray fuel records size = Some r → r = batches)
    ∧ Z.of_nat (length batches) = ceilDiv (Z.of_nat (length records)) size
    ∧ sum_list (length <$> batches) = length records
    ∧ concat batches = records
    ∧ (records = [] → batches = []).
Proof.
  intros Hs.
  destruct (chunkLoop_forward records size Hs _ 0 [] ltac:(lia) eq_refl)
    as (batches & Hrun & Hlen & Hcat & _).
  rewrite Z.sub_0_r, Z.max_l in Hrun, Hlen by lia. simpl in Hcat.
  exists batches. split_and!; try done.
  - intros fuel r Hr.
    set (big := S (Nat.max fuel (Z.to_nat (ceilDiv (Z.of_nat (length records)) size)))).
    assert (chunkArray big records size = Some r) as Hbig.
    { eapply chunkLoop_fuel_mono; [|exact Hr]. unfold big. lia. }
    unfold chunkArray in Hbig.
    rewrite (Hrun big) in Hbig; [by simplify_eq|]. unfold big. lia.
  - by rewrite sum_list_length_concat, Hcat.
  - intros ->. rewrite ceilDiv_zero in Hlen by done.
    destruct batches; [done|simpl in Hlen; lia].
Qed.

Lemma C1_chunkArray_partition_witness :
  0 < 2
  ∧ chunkArray 4 [10; 20; 30; 40; 50] 2 = Some [[10; 20]; [30; 40]; [50]].
Proof.
  split; [lia|].
  destruct (C1_chunkArray_partition [10; 20; 30; 40; 50] 2 ltac:(lia))
    as (batches & Hrun & _).
  rewrite (Hrun 4%nat ltac:(vm_compute; reflexivity)).
  symmetry. rewrite <-(Hrun 4%nat ltac:(vm_compute; reflexivity)).
  reflexivity.
Defined.

(** C7 as the specification states it fails: [chunkArray] on the empty
    sequence with size [0] returns the empty batch sequence, it does not
    fail with [InvalidConfiguration]. *)
Lemma C7_counterexample :
  chunkArrayCompletion 1 (@nil Z) 0 = Some (Normal [])
  ∧ ∀ fuel, chunkArrayCompletion fuel (@nil Z) 0
            ≠ Some (Throw InvalidConfiguration).
Proof.
  split; [reflexivity|]. intros [|fuel]; discriminate.
Qed.

(** C7, amended. [chunkArray] does not validate [size] and has no error
    outcome: for [size ≤ 0] it never fails with [InvalidConfiguration] or
    any other error, and on the empty sequence it returns the empty batch
    sequence. *)
Theorem C7_chunkArray_nonpositive_size {T} (records : list T) (size : Z) :
  size <= 0 →
  (∀ fuel e, chunkArrayCompletion fuel records size ≠ Some (Throw e))
  ∧ (records = [] →
     ∀ fuel, chunkArrayCompletion (S fuel) records size = Some (Normal [])).
Proof.
  intros Hs. unfold chunkArrayCompletion, chunkArray. split.
  - intros fuel e. destruct (chunkLoop fuel records size 0 []); discriminate.
  - intros -> fuel. reflexivity.
Qed.

Lemma C7_chunkArray_nonpositive_size_witness :
  -3 <= 0
  ∧ chunkArrayCompletion 1 (@nil Z) (-3) = Some (Normal [])
  ∧ chunkArrayCompletion 50 [1; 2; 3] (-3) ≠ Some (Throw InvalidConfiguration).
Proof.
  split; [lia|].
  destruct (C7_chunkArray_nonpositive_size (@nil Z) (-3) ltac:(lia))
    as [_ Hempty].
  destruct (C7_chunkArray_nonpositive_size [1; 2; 3] (-3) ltac:(lia))
    as [Hnothrow _].
  split; [by apply Hempty|apply Hnothrow].
Defined.

(** On a non-empty sequence a size that is not positive keeps the loop
    index below the length for ever: no amount of fuel yields a result. *)
Lemma chunkArray_nonpositive_size_hangs {T} (records : list T) (size : Z) :
  size <= 0 → records ≠ [] → ∀ fuel, chunkArray fuel records size = None.
Proof.
  intros Hs Hne fuel. unfold chunkArray. apply chunkLoop_stuck; [done|].
  destruct records; [done|simpl; lia].
Qed.

(** ** Reasoning about runs *)

Section RunLogic.
Context {ops : JSNumberOps}.

Lemma replay_app s t1 t2 : replay s (t1 ++ t2) = replay (replay s t1) t2.
Proof. apply foldl_app. Qed.

Lemma replay_cons s e t : replay s (e :: t) = replay (applyEffect s e) t.
Proof. reflexivity. Qed.

Lemma replay_snoc s t e : replay s (t ++ [e]) = applyEffect (replay s t) e.
Proof. by rewrite replay_app. Qed.

Lemma runs_ret {A} (a : A) s Q : Q a [] → runs (ret a) s Q.
Proof. intros HQ. by exists a, []. Qed.

Lemma runs_emit e s (Q : unit → list Effect → Prop) :
  Q tt [e] → runs (emit e) s Q.
Proof. intros HQ. by exists tt, [e]. Qed.

Lemma runs_addLog msg lvl tag shot s (Q : unit → list Effect → Prop) :
  Q tt [AddLog {| level := lvl; message := msg; step := tag;
                  hasScreenshot := shot |}] →
  runs (addLog msg lvl tag shot) s Q.
Proof. apply runs_emit. Qed.

Lemma runs_delay ms s (Q : unit → list Effect → Prop) :
  Q tt [] → runs (delay ms) s Q.
Proof. apply runs_ret. Qed.

Lemma runs_readStopRef s Q : Q (stopRef s) [] → runs readStopRef s Q.
Proof. intros HQ. by exists (stopRef s), []. Qed.

Lemma runs_fromFuel {A} (o : option A) a s Q :
  o = Some a → Q a [] → runs (fromFuel o) s Q.
Proof. intros -> HQ. by exists a, []. Qed.

Lemma runs_bind {A B} (m : M A) (k : A → M B) s Q :
  runs m s (λ a t1, runs (k a) (replay s t1) (λ b t2, Q b (t1 ++ t2))) →
  runs (bind m k) s Q.
Proof.
  intros (a & t1 & Hm & b & t2 & Hk & HQ).
  exists b, (t1 ++ t2). split; [|done].
  unfold bind. by rewrite Hm, Hk.
Qed.

Lemma runs_mono {A} (m : M A) s (Q Q' : A → list Effect → Prop) :
  runs m s Q → (∀ a t, Q a t → Q' a t) → runs m s Q'.
Proof. intros (a & t & Hm & HQ) Himp. exists a, t. eauto. Qed.

Lemma runs_det {A} (m : M A) s Q a t :
  m s = Some (a, t) → runs m s Q → Q a t.
Proof. intros Hm (a' & t' & Hm' & HQ). by simplify_eq. Qed.

End RunLogic.

(** One step of symbolic execution of a computation. *)
Ltac run_step :=
  lazymatch goal with
  | |- runs (bind _ _) _ _ => apply runs_bind
  | |- runs (addLog _ _ _ _) _ _ => apply runs_addLog
  | |- runs (emit _) _ _ => apply runs_emit
  | |- runs (delay _) _ _ => apply runs_delay
  | |- runs readStopRef _ _ => apply runs_readStopRef
  | |- runs (ret _) _ _ => apply runs_ret
  end.

Ltac run_steps := repeat run_step.

(** ** Traces and the states they lead to *)

Section Traces.
Context {ops : JSNumberOps}.
Implicit Types (s : AppState) (t : list Effect).

Lemma invocations_app t1 t2 :
  invocations (t1 ++ t2) = invocations t1 ++ invocations t2.
Proof. apply omap_app. Qed.

Lemma statusChanges_app t1 t2 :
  statusChanges (t1 ++ t2) = statusChanges t1 ++ statusChanges t2.
Proof. apply omap_app. Qed.

Lemma errorEntries_app l1 l2 :
  errorEntries (l1 ++ l2) = errorEntries l1 ++ errorEntries l2.
Proof. apply filter_app. Qed.

(** A trace of log entries changes nothing but the log. *)
Lemma replay_logsOnly s t :
  logsOnly t = true →
  replay s t = {| status := status s; logs := logs s ++ entriesOf t;
                  stats := stats s; stopRef := stopRef s |}.
Proof.
  revert s. induction t as [|e t IH]; intros s Hl.
  - simpl. rewrite app_nil_r. by destruct s.
  - destruct e; try discriminate. simpl in Hl.
    rewrite replay_cons, IH by done. simpl.
    by rewrite <-app_assoc.
Qed.

Lemma logsOnly_quiet t : logsOnly t = true → forallb quiet t = true.
Proof.
  induction t as [|e t IH]; [done|]. destruct e; try discriminate. simpl. auto.
Qed.

Lemma logsOnly_invocations t : logsOnly t = true → invocations t = [].
Proof.
  induction t as [|e t IH]; [done|]. destruct e; try discriminate. simpl. auto.
Qed.

Lemma logsOnly_statusChanges t : logsOnly t = true → statusChanges t = [].
Proof.
  induction t as [|e t IH]; [done|]. destruct e; try discriminate. simpl. auto.
Qed.

(** A quiet trace leaves the statistics where they are. *)
Lemma stats_replay_quiet s t :
  forallb quiet t = true → stats (replay s t) = stats s.
Proof.
  revert s. induction t as [|e t IH]; intros s Hq; [done|].
  simpl in Hq. apply andb_prop in Hq as [He Ht].
  rewrite replay_cons, IH by done. by destruct e.
Qed.

Lemma statsLe_refl st : statsLe st st.
Proof. unfold statsLe. lia. Qed.

Lemma statsLe_trans a b c : statsLe a b → statsLe b c → statsLe a c.
Proof. unfold statsLe. lia. Qed.

Lemma stepsOk_app s t1 t2 :
  stepsOk s (t1 ++ t2) ↔ stepsOk s t1 ∧ stepsOk (replay s t1) t2.
Proof.
  revert s. induction t1 as [|e t1 IH]; intros s; simpl.
  - tauto.
  - rewrite IH. tauto.
Qed.

Lemma stepsOk_quiet s t :
  StatsInv (stats s) → forallb quiet t = true → stepsOk s t.
Proof.
  revert s. induction t as [|e t IH]; intros s Hinv Hq; [done|].
  simpl in Hq. apply andb_prop in Hq as [He Ht].
  assert (stats (applyEffect s e) = stats s) as Hst by by destruct e.
  simpl. rewrite Hst. split_and!; [done|apply statsLe_refl|].
  apply IH; [by rewrite Hst|done].
Qed.

(** Along a trace whose steps are in order, any two points compare. *)
Lemma stepsOk_between s t :
  StatsInv (stats s) → stepsOk s t →
  ∀ n m, (n <= m)%nat →
    StatsInv (stats (replay s (take n t)))
    ∧ statsLe (stats (replay s (take n t))) (stats (replay s (take m t))).
Proof.
  revert s. induction t as [|e t IH]; intros s Hinv Hok n m Hnm.
  - rewrite !take_nil. split; [done|apply statsLe_refl].
  - destruct Hok as (Hinv' & Hle & Hok).
    destruct n as [|n].
    + split; [done|]. destruct m as [|m]; [apply statsLe_refl|].
      simpl. eapply statsLe_trans; [exact Hle|].
      apply (IH _ Hinv' Hok 0%nat m). lia.
    + destruct m as [|m]; [lia|]. simpl.
      apply (IH _ Hinv' Hok n m). lia.
Qed.

Lemma firstSetStats_quiet_app pre e post :
  forallb quiet pre = true → quiet e = false →
  firstSetStats (pre ++ e :: post) = Some (length pre).
Proof.
  intros Hq He. induction pre as [|x pre IH]; simpl.
  - by rewrite He.
  - simpl in Hq. apply andb_prop in Hq as [-> Hq]. by rewrite IH.
Qed.

Lemma firstSetStats_quiet t : forallb quiet t = true → firstSetStats t = None.
Proof.
  induction t as [|x t IH]; [done|]. simpl.
  intros [-> Hq]%andb_prop. by rewrite IH.
Qed.

(** The shape of a well-behaved run: a quiet prefix, the initialisation,
    and then steps that keep the invariants. *)
Lemma statsDiscipline_intro s pre total nbatches post :
  forallb quiet pre = true → 0 <= total → 0 <= nbatches →
  stepsOk (replay s (pre ++ [SetStats (λ _, initialStats total nbatches)])) post →
  statsDiscipline s (pre ++ SetStats (λ _, initialStats total nbatches) :: post).
Proof.
  intros Hq Ht Hb Hok i0 Hi0.
  rewrite firstSetStats_quiet_app in Hi0 by done. simplify_eq.
  set (init := SetStats (λ _, initialStats total nbatches)) in *.
  set (s1 := replay s (pre ++ [init])) in *.
  assert (stats s1 = initialStats total nbatches) as Hs1.
  { unfold s1. by rewrite replay_snoc. }
  assert (StatsInv (stats s1)) as Hinv1.
  { rewrite Hs1. unfold StatsInv. simpl. lia. }
  assert (∀ k, take (S (length pre) + k) (pre ++ init :: post)
               = (pre ++ [init]) ++ take k post) as Htake.
  { intros k. rewrite (cons_middle init), app_assoc.
    rewrite take_app_add'; [done|]. rewrite length_app. simpl. lia. }
  split.
  - exists total, nbatches. split_and!; [done..|].
    specialize (Htake 0%nat). rewrite Nat.add_0_r, take_0, app_nil_r in Htake.
    by rewrite Htake.
  - intros n m Hn Hnm Hm.
    replace n with (S (length pre) + (n - S (length pre)))%nat by lia.
    replace m with (S (length pre) + (m - S (length pre)))%nat by lia.
    rewrite !Htake, !(replay_app s (pre ++ [init])). fold s1.
    apply stepsOk_between; [done..|lia].
Qed.

Lemma statsDiscipline_quiet s t : forallb quiet t = true → statsDiscipline s t.
Proof. intros Hq i0 Hi0. by rewrite firstSetStats_quiet in Hi0. Qed.

Lemma replay_nil s : replay s [] = s.
Proof. reflexivity. Qed.

Lemma replay_singleton s e : replay s [e] = applyEffect s e.
Proof. reflexivity. Qed.

Lemma replay_stopPress s b :
  replay s (stopPress b)
  = {| status := status s; logs := logs s; stats := stats s;
       stopRef := stopRef s || b |}.
Proof.
  destruct s as [st l sts r], b; simpl; by rewrite ?orb_true_r, ?orb_false_r.
Qed.

Lemma quiet_stopPress b : forallb quiet (stopPress b) = true.
Proof. by destruct b. Qed.

Lemma invocations_stopPress b : invocations (stopPress b) = [].
Proof. by destruct b. Qed.

Lemma statusChanges_stopPress b : statusChanges (stopPress b) = [].
Proof. by destruct b. Qed.

Lemma recordsIn_app {T} (l1 l2 : list (list T)) :
  recordsIn (l1 ++ l2) = recordsIn l1 + recordsIn l2.
Proof. unfold recordsIn. rewrite fmap_app, sum_list_with_app. lia. Qed.

Lemma recordsIn_nonneg {T} (l : list (list T)) : 0 <= recordsIn l.
Proof. unfold recordsIn. lia. Qed.

Lemma recordsIn_take_le {T} (l : list (list T)) i :
  recordsIn (take i l) <= recordsIn l.
Proof.
  rewrite <-(take_drop i l) at 2. rewrite recordsIn_app.
  pose proof (recordsIn_nonneg (drop i l)). lia.
Qed.

Lemma recordsIn_take_S {T} (l : list (list T)) i :
  (i < length l)%nat →
  recordsIn (take (S i) l) = recordsIn (take i l) + Z.of_nat (length (l !!! i)).
Proof.
  intros Hi. destruct (lookup_lt_is_Some_2 l i Hi) as [b Hb].
  rewrite (take_S_r _ _ _ Hb), recordsIn_app.
  rewrite (list_lookup_total_correct _ _ _ Hb).
  unfold recordsIn at 2. simpl. lia.
Qed.

Lemma recordsIn_concat {T} (l : list (list T)) :
  recordsIn l = Z.of_nat (length (concat l)).
Proof. unfold recordsIn. by rewrite sum_list_length_concat. Qed.

End Traces.

(** ** The phase executor and the prefix of a run *)

Section Phases.
Context {ops : JSNumberOps}.
Variable env : Env.
Implicit Types (s : AppState) (t : list Effect).

Lemma runs_awaiting {A} ph (m : M A) s Q :
  runs m s (λ a t, Q a (t ++ stopPress (stopDuring env ph))) →
  runs (awaiting env ph m) s Q.
Proof.
  intros Hm. unfold awaiting, handleStop, stopPress in *. run_step.
  eapply runs_mono; [exact Hm|]. intros a t HQ. simpl.
  destruct (stopDuring env ph); run_steps; by rewrite ?app_nil_r in *.
Qed.

Lemma runs_call {A} c ph (m : M A) s Q :
  runs m s (λ a t, Q a ([Invoke c] ++ t ++ stopPress (stopDuring env ph))) →
  runs (call env c ph m) s Q.
Proof.
  intros Hm. unfold call. run_steps. by apply runs_awaiting.
Qed.

(** The login capability only writes to the log. Its Error entries are
    tagged NET and SYS when the VPN scenario is selected, and there is
    exactly one, tagged AUTH, when the credentials are rejected. *)
Lemma simulateLogin_spec user password scenario s :
  runs (simulateLogin user password scenario) s (λ ok t,
    logsOnly t = true
    ∧ step <$> errorEntries (entriesOf t)
      = (if decide (scenario = Scenario.ERROR_VPN) then ["NET"; "SYS"]
         else if ok then [] else ["AUTH"])
    ∧ (scenario = Scenario.ERROR_VPN → ok = false)).
Proof.
  unfold simulateLogin.
  repeat (run_step || case_decide || case_match); by simpl.
Qed.

Lemma simulateNavigation_spec s :
  runs simulateNavigation s (λ _ t, logsOnly t = true).
Proof. unfold simulateNavigation. by run_steps. Qed.

Lemma simulateUploadBatch_spec batchId recordCount scenario s :
  runs (simulateUploadBatch env batchId recordCount scenario) s
       (λ _ t, logsOnly t = true).
Proof.
  unfold simulateUploadBatch.
  repeat (run_step || case_match); by simpl.
Qed.

Lemma truthy_nonempty (x : string) : x ≠ EmptyString → JS.truthy x = true.
Proof. by destruct x. Qed.

Lemma parseCSV_nonempty_trim rawData :
  parseCSV rawData ≠ [] → JS.truthy (JS.trim rawData) = true.
Proof.
  unfold parseCSV. destruct (JS.trim rawData) eqn:Ht; [|done].
  by simpl.
Qed.

End Phases.

(** ** The batch loop *)

Ltac simpl_replay :=
  repeat first
    [ rewrite replay_app
    | rewrite replay_singleton
    | rewrite replay_cons
    | rewrite replay_nil
    | rewrite replay_stopPress
    | match goal with
      | H : logsOnly ?t = true |- context [replay ?s ?t] =>
          rewrite (replay_logsOnly s t H)
      end ];
  cbn [applyEffect status logs stats stopRef].

Section BatchLoop.
Context {ops : JSNumberOps}.
Variable env : Env.
Variable scenario : Scenario.t.
Variable batches : list (list CatalogItem).
Implicit Types (s : AppState) (t : list Effect) (st : JobStats).

Lemma LoopInv_StatsInv i pt st :
  LoopInv batches i pt st → (i <= length batches)%nat → StatsInv st.
Proof.
  intros (Hpt & Hproc & Hsum & Hdone & Htot & Hnb) Hi. unfold StatsInv.
  pose proof (recordsIn_take_le batches i). lia.
Qed.

(** The statistics update of one batch keeps the loop invariant, the
    invariants of the snapshot, and decreases no count. *)
Lemma LoopInv_batchUpdate i pt st ok :
  LoopInv batches i pt st → (i < length batches)%nat →
  let len := Z.of_nat (length (batches !!! i)) in
  let st' := batchUpdate (pt + len) i len ok st in
  LoopInv batches (S i) (pt + len) st' ∧ StatsInv st' ∧ statsLe st st'.
Proof.
  intros (Hpt & Hproc & Hsum & Hdone & Htot & Hnb) Hi len st'.
  assert (LoopInv batches (S i) (pt + len) st') as Hinv.
  { unfold LoopInv, st', batchUpdate. simpl.
    rewrite recordsIn_take_S by done. fold len.
    clearbody len. split_and!; try lia. destruct ok; cbn [negb]; lia. }
  split_and!; [done|eapply LoopInv_StatsInv; [exact Hinv|lia]|].
  unfold statsLe, st', batchUpdate. simpl.
  assert (0 <= len) by (unfold len; lia). clearbody len.
  destruct ok; cbn [negb]; lia.
Qed.

Lemma uploadCalls_nil i : uploadCalls batches i i = [].
Proof. unfold uploadCalls. by rewrite Nat.sub_diag. Qed.

Lemma uploadCalls_cons i e :
  (i < e)%nat →
  uploadCalls batches i e
  = CapUpload (Z.of_nat i + 1) (Z.of_nat (length (batches !!! i)))
    :: uploadCalls batches (S i) e.
Proof.
  intros Hie. unfold uploadCalls.
  replace (e - i)%nat with (S (e - S i)) by lia. done.
Qed.

(** The two-second pause between batches. *)
Lemma runs_pause (cond : bool) i s (Q : unit → list Effect → Prop) :
  (∀ tl, logsOnly tl = true →
         Q tt (tl ++ stopPress (cond && stopDuring env (InWait i)))) →
  runs (if cond
        then bind (addLog "Waiting 2s before next batch to ensure stability..."
                          LogLevel.SYSTEM "WAIT" false)
                  (λ _, awaiting env (InWait i) (delay 2000))
        else ret tt) s Q.
Proof.
  intros HQ. destruct cond.
  - run_step. run_step. apply runs_awaiting. run_step.
    cbn [andb] in HQ. apply (HQ [_]). done.
  - run_step. by apply (HQ []).
Qed.

Lemma stepsOk_update s pre f post t :
  forallb quiet pre = true → forallb quiet post = true →
  StatsInv (stats s) → StatsInv (f (stats s)) →
  statsLe (stats s) (f (stats s)) →
  stepsOk (replay s (pre ++ [SetStats f] ++ post)) t →
  stepsOk s (pre ++ [SetStats f] ++ post ++ t).
Proof.
  intros Hpre Hpost Hinv Hinv' Hle Ht.
  rewrite !stepsOk_app.
  assert (stats (replay s pre) = stats s) as Hs1 by by apply stats_replay_quiet.
  split_and!.
  - by apply stepsOk_quiet.
  - simpl. by rewrite Hs1.
  - apply stepsOk_quiet; [|done]. rewrite replay_singleton. simpl. by rewrite Hs1.
  - by rewrite !replay_app in Ht.
Qed.

Lemma batchLoop_spec n : ∀ i pt s,
  (i + n = length batches)%nat →
  LoopInv batches i pt (stats s) →
  runs (batchLoop env scenario batches n i pt) s
       (λ _ t, loopOutcome env batches n i s t).
Proof.
  unfold loopOutcome.
  induction n as [|n IH]; intros i pt s Hlen Hinv.
  - simpl. run_steps.
    assert (i = length batches) as Hi by lia.
    split_and!; try done; try lia.
    + apply stepsOk_quiet; [|done]. eapply LoopInv_StatsInv; [exact Hinv|lia].
    + by rewrite uploadCalls_nil.
    + destruct Hinv as (-> & ?). done.
  - cbn [batchLoop loopExit]. run_step. run_step.
    destruct (stopRef s) eqn:Hstop.
    + run_steps. cbn [fst snd].
      split_and!; try done; try lia.
      * apply stepsOk_quiet; [|done]. eapply LoopInv_StatsInv; [exact Hinv|lia].
      * by rewrite uploadCalls_nil.
      * destruct Hinv as (-> & ?). done.
      * by exists [].
    + rewrite replay_nil. cbn [app].
      set (len := Z.of_nat (length (batches !!! i))).
      set (cond := Z.of_nat i <? Z.of_nat (length batches) - 1).
      set (u := stopDuring env (InUpload i)).
      run_step. apply runs_call.
      eapply runs_mono; [apply simulateUploadBatch_spec|].
      intros ok tu Hu. cbn beta in Hu |- *.
      run_step. run_step. run_step. apply runs_pause. intros tl Hl.
      destruct (LoopInv_batchUpdate i pt (stats s) ok Hinv ltac:(lia))
        as (Hinv' & Hsinv' & Hle'). fold len in Hinv', Hsinv', Hle'.
      simpl_replay. rewrite Hstop. cbn [orb].
      eapply runs_mono; [apply (IH (S i) (pt + len)); [lia|exact Hinv']|].
      intros [] t'. cbn [stopRef stats].
      set (exit := loopExit env (length batches) n (S i) _).
      set (pre := [Invoke (CapUpload (Z.of_nat i + 1) len)] ++ tu ++ stopPress _).
      set (upd := SetStats (batchUpdate (pt + len) i len ok)).
      set (post := tl ++ stopPress _).
      intros (Hok & Hcalls & Hst & Hfinal & Hrange & Hend).
      assert (forallb quiet pre = true) as Hqpre.
      { unfold pre. by rewrite !forallb_app, (logsOnly_quiet _ Hu),
          quiet_stopPress. }
      assert (forallb quiet post = true) as Hqpost.
      { unfold post. by rewrite !forallb_app, (logsOnly_quiet _ Hl),
          quiet_stopPress. }
      assert (pre ++ [upd] ++ post ++ t' = (pre ++ [upd] ++ post) ++ t')
        as Hassoc by (by rewrite <-!app_assoc).
      match type of Hok with stepsOk ?s2 _ =>
        assert (replay s (pre ++ [upd] ++ post) = s2) as Hs2
      end.
      { unfold pre, upd, post. simpl_replay. by rewrite Hstop. }
      rewrite <-Hs2 in Hok, Hfinal.
      split_and!; try lia.
      * apply stepsOk_update; try done.
        eapply LoopInv_StatsInv; [exact Hinv|lia].
      * unfold pre, post.
        rewrite !invocations_app, Hcalls, (logsOnly_invocations _ Hu),
          (logsOnly_invocations _ Hl), !invocations_stopPress.
        by rewrite (uploadCalls_cons i) by lia.
      * unfold pre, post.
        by rewrite !statusChanges_app, Hst, (logsOnly_statusChanges _ Hu),
          (logsOnly_statusChanges _ Hl), !statusChanges_stopPress.
      * rewrite Hassoc, replay_app. exact Hfinal.
      * revert Hend. destruct exit.2; [intros [t0 ->]|done].
        exists ((pre ++ [upd] ++ post) ++ t0). by rewrite <-!app_assoc.
Qed.
End BatchLoop.

(** ** The orchestrator *)

Lemma length_eqb_0_nonempty {T} (l : list T) :
  l ≠ [] → (length l =? 0)%nat = false.
Proof. by destruct l. Qed.

Lemma chunkArray_returns {T} (records : list T) (size : Z) :
  0 < size →
  ∃ batches,
    (∀ fuel, ceilDiv (Z.of_nat (length records)) size < Z.of_nat fuel →
       chunkArray fuel records size = Some batches)
    ∧ Z.of_nat (length batches) = ceilDiv (Z.of_nat (length records)) size
    ∧ concat batches = records.
Proof.
  intros Hs.
  destruct (chunkLoop_forward records size Hs _ 0 [] ltac:(lia) eq_refl)
    as (batches & Hrun & Hlen & Hcat & _).
  rewrite Z.sub_0_r, Z.max_l in Hrun, Hlen by lia.
  by exists batches.
Qed.

Section Orchestrator.
Context {ops : JSNumberOps}.
Variable env : Env.
Implicit Types (s : AppState) (t : list Effect) (config : AutomationConfig).

(** The login capability does not look at the state. *)
Lemma simulateLogin_const user password scenario :
  ∃ ok tlogin, ∀ s,
    simulateLogin user password scenario s = Some (ok, tlogin).
Proof.
  unfold simulateLogin, bind, addLog, emit, delay, ret.
  destruct (decide (scenario = Scenario.ERROR_VPN)).
  - eexists _, _. intros s. reflexivity.
  - destruct (_ || _ || _).
    + eexists _, _. intros s. reflexivity.
    + eexists _, _. intros s. reflexivity.
Qed.

(** A simulated run that passes the precondition checks has one of the
    three shapes. *)
Lemma runAutomation_simulation fuel config password rawData batches s :
  electronAPI env = false →
  username config ≠ EmptyString → password ≠ EmptyString →
  parseCSV rawData ≠ [] →
  chunkArray fuel (parseCSV rawData) (batchSize config) = Some batches →
  concat batches = parseCSV rawData →
  runs (runAutomation env fuel config password rawData) s
       (λ _ t, simulationShape env config password
                 (Z.of_nat (length (parseCSV rawData))) batches s t).
Proof.
  intros Hel Hu Hp Hd Hchunk Hcat.
  destruct (simulateLogin_const (username config) password
              (simulationScenario config)) as (ok & tlogin & Hlogin).
  unfold runAutomation.
  rewrite (truthy_nonempty _ Hu), (truthy_nonempty _ Hp),
    (parseCSV_nonempty_trim _ Hd), Hel, (length_eqb_0_nonempty _ Hd).
  cbn [negb orb].
  run_steps. eapply runs_fromFuel; [exact Hchunk|]. run_steps.
  match goal with |- runs (if ?b then _ else _) _ _ =>
    assert (b = false) as -> by (by simpl_replay) end.
  run_step. apply runs_call.
  exists ok, tlogin. split; [apply Hlogin|].
  pose proof (runs_det _ _ _ _ _ (Hlogin s)
                (simulateLogin_spec (username config) password
                   (simulationScenario config) s)) as (Hl & _).
  set (l1 := [AddLog _; AddLog _]) || idtac.
  destruct ok; cbn [negb].
  - run_step. run_step.
    match goal with |- runs (if ?b then _ else _) _ _ =>
      assert (b = stopDuring env InLogin) as ->
        by (by simpl_replay) end.
    destruct (stopDuring env InLogin) eqn:Hstop.
    + run_step.
      eexists [AddLog _; AddLog _], [AddLog _; AddLog _], tlogin, true.
      split_and!; cycle -1.
      { right; left. split_and!; [done..|].
        unfold simulationHead. rewrite Hstop. by rewrite !app_nil_r. }
      all: done.
    + run_step. apply runs_call.
      eapply runs_mono; [apply simulateNavigation_spec|].
      intros [] tnav Hnav. cbn beta in Hnav.
      eapply runs_mono.
      { apply batchLoop_spec; [lia|]. simpl_replay.
        unfold LoopInv, initialStats. cbn.
        split_and!; try done. by rewrite recordsIn_concat, Hcat. }
      intros [] tloop Hloop.
      eexists [AddLog _; AddLog _], [AddLog _; AddLog _], tlogin, true.
      split_and!; cycle -1.
      { right; right. split_and!; [done..|]. exists tnav, tloop.
        split_and!; [done| |].
        * unfold simulationNav, simulationHead. rewrite Hstop.
          by rewrite <-!app_assoc.
        * unfold simulationNav, simulationHead. rewrite Hstop, !replay_app.
          rewrite !replay_app in Hloop. exact Hloop. }
      all: done.
  - run_step.
    eexists [AddLog _; AddLog _], [AddLog _; AddLog _], tlogin, false.
    split_and!; cycle -1.
    { left. split; [done|]. unfold simulationHead. by rewrite <-!app_assoc. }
    all: done.
Qed.

(** The state a run is in when the login call has returned. *)
Lemma replay_simulationHead s total nbatches l1 l2 tlogin :
  logsOnly l1 = true → logsOnly l2 = true → logsOnly tlogin = true →
  replay s (simulationHead env total nbatches l1 l2 tlogin)
  = {| status := JobStatus.RUNNING;
       logs := ((entriesOf l1) ++ entriesOf l2) ++ entriesOf tlogin;
       stats := initialStats total nbatches;
       stopRef := stopDuring env InLogin |}.
Proof.
  intros H1 H2 H3. unfold simulationHead. simpl_replay. done.
Qed.

Lemma invocations_simulationHead total nbatches l1 l2 tlogin :
  logsOnly l1 = true → logsOnly l2 = true → logsOnly tlogin = true →
  invocations (simulationHead env total nbatches l1 l2 tlogin) = [CapLogin].
Proof.
  intros H1 H2 H3. unfold simulationHead.
  by rewrite !invocations_app, (logsOnly_invocations _ H1),
    (logsOnly_invocations _ H2), (logsOnly_invocations _ H3),
    invocations_stopPress.
Qed.

Lemma statusChanges_simulationHead total nbatches l1 l2 tlogin :
  logsOnly l1 = true → logsOnly l2 = true → logsOnly tlogin = true →
  statusChanges (simulationHead env total nbatches l1 l2 tlogin)
  = [JobStatus.RUNNING].
Proof.
  intros H1 H2 H3. unfold simulationHead.
  by rewrite !statusChanges_app, (logsOnly_statusChanges _ H1),
    (logsOnly_statusChanges _ H2), (logsOnly_statusChanges _ H3),
    statusChanges_stopPress.
Qed.

(** A simulated run with a positive batch size returns, in one of the
    three shapes, with [ceil(N / size)] batches. *)
Lemma runAutomation_simulation_total config password rawData s :
  electronAPI env = false →
  username config ≠ EmptyString → password ≠ EmptyString →
  parseCSV rawData ≠ [] → 0 < batchSize config →
  ∃ batches,
    Z.of_nat (length batches)
    = ceilDiv (Z.of_nat (length (parseCSV rawData))) (batchSize config)
    ∧ concat batches = parseCSV rawData
    ∧ ∀ fuel, (enoughFuel config rawData ≤ fuel)%nat →
        chunkArray fuel (parseCSV rawData) (batchSize config) = Some batches
        ∧ runs (runAutomation env fuel config password rawData) s
            (λ _ t, simulationShape env config password
                      (Z.of_nat (length (parseCSV rawData))) batches s t).
Proof.
  intros Hel Hu Hp Hd Hsize.
  destruct (chunkArray_returns (parseCSV rawData) (batchSize config) Hsize)
    as (batches & Hrun & Hlen & Hcat).
  exists batches. split_and!; [done..|].
  intros fuel Hfuel. unfold enoughFuel in Hfuel.
  assert (chunkArray fuel (parseCSV rawData) (batchSize config) = Some batches)
    as Hchunk by (apply Hrun; lia).
  split; [done|]. by apply runAutomation_simulation.
Qed.

(** C5. When the login phase returns failure, the run appends an
    Error-severity event, moves to Failed and stops: the login capability
    is the only one invoked (no navigation, no upload), and no batch is
    counted as completed. *)
Theorem C5_login_failure_stops config password rawData s :
  electronAPI env = false →
  username config ≠ EmptyString → password ≠ EmptyString →
  parseCSV rawData ≠ [] → 0 < batchSize config →
  (∀ s', runs (simulateLogin (username config) password
                             (simulationScenario config)) s'
              (λ ok _, ok = false)) →
  ∃ fuel0, ∀ fuel, (fuel0 <= fuel)%nat →
    runs (runAutomation env fuel config password rawData) s (λ _ t,
      errorEntries (logs (replay s t)) ≠ []
      ∧ status (replay s t) = JobStatus.FAILED
      ∧ invocations t = [CapLogin]
      ∧ (CapNavigate ∉ invocations t)
      ∧ (∀ batchId recordCount, CapUpload batchId recordCount ∉ invocations t)
      ∧ batchesCompleted (stats (replay s t)) = 0).
Proof.
  intros Hel Hu Hp Hd Hsize Hfail.
  destruct (runAutomation_simulation_total config password rawData s)
    as (batches & Hlen & Hcat & Hrun); [done..|].
  exists (enoughFuel config rawData). intros fuel Hfuel.
  destruct (Hrun fuel Hfuel) as [_ Hshape].
  eapply runs_mono; [exact Hshape|]. clear Hshape.
  intros [] t (l1 & l2 & tlogin & ok & H1 & H2 & Hnoerr & Hlogin & Hcases).
  assert (ok = false) as -> by exact (runs_det _ _ _ _ _ (Hlogin s) (Hfail s)).
  pose proof (runs_det _ _ _ _ _ (Hlogin s)
                (simulateLogin_spec _ _ _ s)) as (H3 & Herr & _).
  destruct Hcases as [[_ ->]|[[? _]|[? _]]]; [|done..].
  assert (invocations (simulationHead env (Z.of_nat (length (parseCSV rawData)))
            (Z.of_nat (length batches)) l1 l2 tlogin
            ++ [SetStatus JobStatus.FAILED]) = [CapLogin]) as Hinv.
  { by rewrite invocations_app, invocations_simulationHead. }
  rewrite Hinv, replay_snoc, replay_simulationHead by done.
  cbn [applyEffect status logs stats initialStats batchesCompleted].
  split_and!; try done.
  - rewrite errorEntries_app, Hnoerr. cbn [app]. intros Hnil.
    rewrite Hnil in Herr. by destruct (decide _).
  - by intros ?%list_elem_of_singleton.
  - by intros ?? ?%list_elem_of_singleton.
Qed.

Lemma status_replay s t :
  status (replay s t) = default (status s) (last (statusChanges t)).
Proof.
  revert s. induction t as [|e t IH]; intros s; [done|].
  rewrite replay_cons, IH. destruct e; try done.
  change (statusChanges (SetStatus s0 :: t)) with (s0 :: statusChanges t).
  destruct (statusChanges t) as [|x l]; [done|].
  change (last (s0 :: x :: l)) with (last (x :: l)).
  destruct (last (x :: l)) eqn:Hlast; [done|]. by apply last_None in Hlast.
Qed.

(** The state a run is in when the navigation call has returned. *)
Lemma replay_simulationNav s total nbatches l1 l2 tlogin tnav :
  logsOnly l1 = true → logsOnly l2 = true → logsOnly tlogin = true →
  logsOnly tnav = true →
  replay s (simulationNav env total nbatches l1 l2 tlogin tnav)
  = {| status := JobStatus.RUNNING;
       logs := (((entriesOf l1) ++ entriesOf l2) ++ entriesOf tlogin)
               ++ entriesOf tnav;
       stats := initialStats total nbatches;
       stopRef := stopDuring env InLogin || stopDuring env InNavigation |}.
Proof.
  intros H1 H2 H3 H4. unfold simulationNav.
  rewrite replay_app, replay_simulationHead by done. by simpl_replay.
Qed.

Lemma invocations_simulationNav total nbatches l1 l2 tlogin tnav :
  logsOnly l1 = true → logsOnly l2 = true → logsOnly tlogin = true →
  logsOnly tnav = true →
  invocations (simulationNav env total nbatches l1 l2 tlogin tnav)
  = [CapLogin; CapNavigate].
Proof.
  intros H1 H2 H3 H4. unfold simulationNav.
  by rewrite !invocations_app, invocations_simulationHead,
    (logsOnly_invocations _ H4), invocations_stopPress.
Qed.

(** Without a press of Stop the loop runs through all its iterations. *)
Lemma loopExit_never_stopped len n i :
  (∀ ph, stopDuring env ph = false) →
  loopExit env len n i false = ((i + n)%nat, false).
Proof.
  intros Hno. revert i. induction n as [|n IH]; intros i; simpl.
  - by rewrite Nat.add_0_r.
  - rewrite !Hno, andb_false_r. simpl. rewrite IH. f_equal. lia.
Qed.

(** The loop leaves through the stop check at the first index at which
    the flag is found set. *)
Lemma loopExit_stoppedBefore len k n : ∀ i,
  (i + n = len)%nat → (i <= k)%nat → (k < len)%nat →
  (∀ j, (i <= j)%nat → (j < k)%nat → stoppedBefore env j = false) →
  stoppedBefore env k = true →
  loopExit env len n i (stoppedBefore env i) = (k, true).
Proof.
  induction n as [|n IH]; intros i Hlen Hik Hk Hbefore Hat; [lia|].
  cbn [loopExit].
  destruct (stoppedBefore env i) eqn:Hi.
  - destruct (decide (i = k)) as [->|Hne]; [done|].
    rewrite Hbefore in Hi by lia. done.
  - assert (i ≠ k) as Hne by (intros ->; congruence).
    assert ((Z.of_nat i <? Z.of_nat len - 1) = true) as -> by lia.
    cbn [andb].
    replace (stopDuring env (InUpload i) || stopDuring env (InWait i))
      with (stoppedBefore env (S i))
      by (cbn [stoppedBefore]; by rewrite Hi).
    apply IH; try lia; [|done].
    intros j Hj1 Hj2. apply Hbefore; lia.
Qed.

(** C2. In a run in which login succeeds and Stop is never pressed, every
    batch is handed to the upload capability, in order and whatever the
    outcome of the batches before it; the run ends Completed, and the
    final statistics satisfy
    [successCount + errorCount = processedRecords = totalRecords] and
    [batchesCompleted = batchesTotal]. *)
Theorem C2_completed_run_accounts_for_all config password rawData s :
  electronAPI env = false →
  username config ≠ EmptyString → password ≠ EmptyString →
  parseCSV rawData ≠ [] → 0 < batchSize config →
  (∀ s', runs (simulateLogin (username config) password
                             (simulationScenario config)) s'
              (λ ok _, ok = true)) →
  (∀ ph, stopDuring env ph = false) →
  ∃ fuel0 batches, ∀ fuel, (fuel0 <= fuel)%nat →
    chunkArray fuel (parseCSV rawData) (batchSize config) = Some batches
    ∧ runs (runAutomation env fuel config password rawData) s (λ _ t,
        let st := stats (replay s t) in
        invocations t
        = [CapLogin; CapNavigate] ++ uploadCalls batches 0 (length batches)
        ∧ status (replay s t) = JobStatus.COMPLETED
        ∧ successCount st + errorCount st = processedRecords st
        ∧ processedRecords st = totalRecords st
        ∧ totalRecords st = Z.of_nat (length (parseCSV rawData))
        ∧ batchesCompleted st = batchesTotal st
        ∧ batchesTotal st = Z.of_nat (length batches)).
Proof.
  intros Hel Hu Hp Hd Hsize Hok Hnostop.
  destruct (runAutomation_simulation_total config password rawData s)
    as (batches & Hlen & Hcat & Hrun); [done..|].
  exists (enoughFuel config rawData), batches. intros fuel Hfuel.
  destruct (Hrun fuel Hfuel) as [Hchunk Hshape]. split; [done|].
  eapply runs_mono; [exact Hshape|]. clear Hshape.
  intros [] t (l1 & l2 & tlogin & ok & H1 & H2 & Hnoerr & Hlogin & Hcases).
  assert (ok = true) as -> by exact (runs_det _ _ _ _ _ (Hlogin s) (Hok s)).
  pose proof (runs_det _ _ _ _ _ (Hlogin s)
                (simulateLogin_spec _ _ _ s)) as (H3 & _).
  destruct Hcases as [[? _]|[(_ & Hstop & _)|(_ & _ & Hloop)]];
    [done|by rewrite Hnostop in Hstop|].
  destruct Hloop as (tnav & tloop & H4 & -> & Hloop).
  unfold loopOutcome in Hloop.
  rewrite replay_simulationNav in Hloop by done.
  cbn [stopRef] in Hloop.
  rewrite !Hnostop, loopExit_never_stopped in Hloop by done.
  cbn [fst snd orb Nat.add] in Hloop.
  destruct Hloop as (_ & Hcalls & Hst & Hinv & _ & _).
  rewrite replay_app, replay_simulationNav by done.
  rewrite !Hnostop. cbn [orb].
  rewrite invocations_app, invocations_simulationNav, Hcalls by done.
  rewrite status_replay, Hst. cbn [last default].
  rewrite firstn_all in Hinv.
  destruct Hinv as (_ & Hproc & Hsum & Hdone & Htot & Hnb).
  rewrite recordsIn_concat, Hcat in Htot, Hproc, Hsum.
  cbn zeta. split_and!; try done; lia.
Qed.

(** C4. When the stop flag is first found set at the top of the batch
    loop after exactly [k] batches, [0 ≤ k < batchesTotal], the run logs
    a Warning, moves to Paused and ends there: exactly the first [k]
    batches were uploaded, [batchesCompleted = k] and [processedRecords]
    is the number of records of the first [k] batches. *)
Theorem C4_stop_between_batches config password rawData s (k : nat) :
  electronAPI env = false →
  username config ≠ EmptyString → password ≠ EmptyString →
  parseCSV rawData ≠ [] → 0 < batchSize config →
  (∀ s', runs (simulateLogin (username config) password
                             (simulationScenario config)) s'
              (λ ok _, ok = true)) →
  stopDuring env InLogin = false →
  Z.of_nat k < ceilDiv (Z.of_nat (length (parseCSV rawData))) (batchSize config) →
  (∀ j, (j < k)%nat → stoppedBefore env j = false) →
  stoppedBefore env k = true →
  ∃ fuel0 batches, ∀ fuel, (fuel0 <= fuel)%nat →
    chunkArray fuel (parseCSV rawData) (batchSize config) = Some batches
    ∧ runs (runAutomation env fuel config password rawData) s (λ _ t,
        let st := stats (replay s t) in
        (∃ t0 entry, t = t0 ++ [AddLog entry; SetStatus JobStatus.PAUSED]
                     ∧ level entry = LogLevel.WARNING)
        ∧ status (replay s t) = JobStatus.PAUSED
        ∧ invocations t = [CapLogin; CapNavigate] ++ uploadCalls batches 0 k
        ∧ batchesCompleted st = Z.of_nat k
        ∧ processedRecords st = recordsIn (take k batches)
        ∧ successCount st + errorCount st = processedRecords st).
Proof.
  intros Hel Hu Hp Hd Hsize Hok Hlog Hk Hbefore Hat.
  destruct (runAutomation_simulation_total config password rawData s)
    as (batches & Hlen & Hcat & Hrun); [done..|].
  exists (enoughFuel config rawData), batches. intros fuel Hfuel.
  destruct (Hrun fuel Hfuel) as [Hchunk Hshape]. split; [done|].
  eapply runs_mono; [exact Hshape|]. clear Hshape.
  intros [] t (l1 & l2 & tlogin & ok & H1 & H2 & Hnoerr & Hlogin & Hcases).
  assert (ok = true) as -> by exact (runs_det _ _ _ _ _ (Hlogin s) (Hok s)).
  pose proof (runs_det _ _ _ _ _ (Hlogin s)
                (simulateLogin_spec _ _ _ s)) as (H3 & _).
  destruct Hcases as [[? _]|[(_ & Hstop & _)|(_ & _ & Hloop)]];
    [done|congruence|].
  destruct Hloop as (tnav & tloop & H4 & -> & Hloop).
  unfold loopOutcome in Hloop.
  rewrite replay_simulationNav in Hloop by done.
  cbn [stopRef] in Hloop. rewrite Hlog in Hloop. cbn [orb] in Hloop.
  change (stopDuring env InNavigation) with (stoppedBefore env 0) in Hloop.
  rewrite (loopExit_stoppedBefore (length batches) k) in Hloop;
    [|lia..|intros; apply Hbefore; lia|done].
  cbn [fst snd] in Hloop.
  destruct Hloop as (_ & Hcalls & Hst & Hinv & _ & (t0 & ->)).
  rewrite replay_app, replay_simulationNav by done. rewrite Hlog. cbn [orb].
  rewrite invocations_app, invocations_simulationNav, Hcalls by done.
  rewrite status_replay, Hst. cbn [last default].
  destruct Hinv as (_ & Hproc & Hsum & Hdone & _ & _).
  cbn [stoppedBefore] in Hproc, Hsum, Hdone.
  cbn zeta. split_and!; try done; try lia.
  eexists (_ ++ t0), stopEntry. by rewrite <-app_assoc.
Qed.

(** C8, amended. When the login capability returns failure, the status
    goes Idle, Running, Failed; the statistics stay at their initial
    values; and the Error-severity events of the log are exactly one,
    tagged AUTH, when the credentials were rejected, and exactly two,
    tagged NET and SYS, under the VPN scenario. *)
Theorem C8_login_failure_trace config password rawData s :
  electronAPI env = false →
  username config ≠ EmptyString → password ≠ EmptyString →
  parseCSV rawData ≠ [] → 0 < batchSize config →
  status s = JobStatus.IDLE →
  (∀ s', runs (simulateLogin (username config) password
                             (simulationScenario config)) s'
              (λ ok _, ok = false)) →
  ∃ fuel0, ∀ fuel, (fuel0 <= fuel)%nat →
    runs (runAutomation env fuel config password rawData) s (λ _ t,
      status s :: statusChanges t
      = [JobStatus.IDLE; JobStatus.RUNNING; JobStatus.FAILED]
      ∧ step <$> errorEntries (logs (replay s t))
        = (if decide (simulationScenario config = Scenario.ERROR_VPN)
           then ["NET"; "SYS"] else ["AUTH"])
      ∧ stats (replay s t)
        = initialStats (Z.of_nat (length (parseCSV rawData)))
            (ceilDiv (Z.of_nat (length (parseCSV rawData))) (batchSize config))).
Proof.
  intros Hel Hu Hp Hd Hsize Hidle Hfail.
  destruct (runAutomation_simulation_total config password rawData s)
    as (batches & Hlen & Hcat & Hrun); [done..|].
  exists (enoughFuel config rawData). intros fuel Hfuel.
  destruct (Hrun fuel Hfuel) as [_ Hshape].
  eapply runs_mono; [exact Hshape|]. clear Hshape.
  intros [] t (l1 & l2 & tlogin & ok & H1 & H2 & Hnoerr & Hlogin & Hcases).
  assert (ok = false) as -> by exact (runs_det _ _ _ _ _ (Hlogin s) (Hfail s)).
  pose proof (runs_det _ _ _ _ _ (Hlogin s)
                (simulateLogin_spec _ _ _ s)) as (H3 & Herr & _).
  destruct Hcases as [[_ ->]|[[? _]|[? _]]]; [|done..].
  rewrite statusChanges_app, statusChanges_simulationHead by done.
  rewrite replay_snoc, replay_simulationHead by done.
  cbn [applyEffect status logs stats].
  rewrite errorEntries_app, Hnoerr, Hidle, <-Hlen. cbn [app].
  split_and!; [done| |done].
  rewrite Herr. by destruct (decide _).
Qed.

(** The runs that end at a precondition check perform one effect, the
    alert; the component state is what it was. *)
Lemma runAutomation_rejects fuel config password rawData s :
  username config = EmptyString ∨ password = EmptyString
  ∨ parseCSV rawData = [] →
  ∃ msg, runAutomation env fuel config password rawData s
         = Some (tt, [Alert msg])
         ∧ replay s [Alert msg] = s.
Proof.
  intros Hpre. unfold runAutomation.
  destruct (negb (JS.truthy (username config)) || negb (JS.truthy password))
    eqn:Hcred; [by eexists|].
  destruct (negb (JS.truthy (JS.trim rawData))) eqn:Hraw; [by eexists|].
  destruct Hpre as [H|[H|H]].
  - by rewrite H in Hcred.
  - rewrite H in Hcred. by rewrite orb_true_r in Hcred.
  - rewrite H. by eexists.
Qed.

(** On the Electron branch the run hands the job over after clearing the
    log, setting the status and initialising the statistics. *)
Lemma runAutomation_electron fuel config password rawData s :
  electronAPI env = true →
  username config ≠ EmptyString → password ≠ EmptyString →
  parseCSV rawData ≠ [] →
  runs (runAutomation env fuel config password rawData) s (λ _ t,
    ∃ l1,
      logsOnly l1 = true
      ∧ t = ([SetLogs []; SetStatus JobStatus.RUNNING] ++ l1)
            ++ SetStats (λ _, initialStats (Z.of_nat (length (parseCSV rawData)))
                     (mathCeilDiv (Z.of_nat (length (parseCSV rawData)))
                                  (batchSize config)))
            :: [StartJob config password (parseCSV rawData)]).
Proof.
  intros Hel Hu Hp Hd. unfold runAutomation.
  rewrite (truthy_nonempty _ Hu), (truthy_nonempty _ Hp),
    (parseCSV_nonempty_trim _ Hd), Hel, (length_eqb_0_nonempty _ Hd).
  cbn [negb orb]. run_steps. by eexists [AddLog _].
Qed.

(** [handleReset] brings the component back to Idle with an empty log
    and all statistics zero, whatever the run before it did. *)
Lemma handleReset_spec s :
  runs handleReset s (λ _ t,
    status (replay s t) = JobStatus.IDLE
    ∧ logs (replay s t) = []
    ∧ stats (replay s t) = initialStats 0 0).
Proof. unfold handleReset. by run_steps. Qed.

Lemma mathCeilDiv_nonneg n d : 0 < d → 0 <= n → 0 <= mathCeilDiv n d.
Proof.
  intros Hd Hn. unfold mathCeilDiv.
  assert (- n / d <= 0); [|lia].
  apply Z.div_le_upper_bound; lia.
Qed.

(** A simulated run in one of the three shapes keeps the statistics in
    order. *)
Lemma simulationShape_statsDiscipline config password total batches s t :
  0 <= total →
  simulationShape env config password total batches s t →
  statsDiscipline s t.
Proof.
  intros Htotal (l1 & l2 & tlogin & ok & H1 & H2 & Hnoerr & Hlogin & Hcases).
  pose proof (runs_det _ _ _ _ _ (Hlogin s)
                (simulateLogin_spec _ _ _ s)) as (H3 & _).
  set (nb := Z.of_nat (length batches)) in *.
  set (pre := [SetLogs []; SetStatus JobStatus.RUNNING; SetStopRef false] ++ l1).
  set (init := SetStats (λ _, initialStats total nb)).
  set (mid := l2 ++ [Invoke CapLogin] ++ tlogin
              ++ stopPress (stopDuring env InLogin)).
  assert (simulationHead env total nb l1 l2 tlogin = pre ++ init :: mid)
    as Hhead by (unfold simulationHead, pre, mid; by rewrite <-!app_assoc).
  assert (forallb quiet pre = true) as Hqpre
    by (unfold pre; by rewrite forallb_app, (logsOnly_quiet _ H1)).
  assert (forallb quiet mid = true) as Hqmid.
  { unfold mid. by rewrite !forallb_app, (logsOnly_quiet _ H2),
      (logsOnly_quiet _ H3), quiet_stopPress. }
  assert (StatsInv (stats (replay s (pre ++ [init])))) as Hinv0.
  { rewrite replay_snoc. unfold StatsInv. simpl. lia. }
  destruct Hcases as [[_ ->]|[(_ & _ & ->)|(_ & _ & Hloop)]].
  - rewrite Hhead, <-app_assoc. cbn [app].
    apply statsDiscipline_intro; [done|lia|lia|].
    apply stepsOk_quiet; [done|]. by rewrite forallb_app, Hqmid.
  - rewrite Hhead.
    apply statsDiscipline_intro; [done|lia|lia|]. by apply stepsOk_quiet.
  - destruct Hloop as (tnav & tloop & H4 & -> & Hloop).
    destruct Hloop as (Hok & _).
    set (navpart := [Invoke CapNavigate] ++ tnav
                    ++ stopPress (stopDuring env InNavigation)).
    assert (forallb quiet navpart = true) as Hqnav.
    { unfold navpart. by rewrite !forallb_app, (logsOnly_quiet _ H4),
        quiet_stopPress. }
    assert (simulationNav env total nb l1 l2 tlogin tnav
            = (pre ++ [init]) ++ mid ++ navpart) as Hnav.
    { unfold simulationNav. rewrite Hhead. fold navpart.
      by rewrite <-!app_assoc. }
    rewrite Hnav in Hok |- *.
    replace (((pre ++ [init]) ++ mid ++ navpart) ++ tloop)
      with (pre ++ init :: (mid ++ navpart) ++ tloop)
      by (by rewrite <-!app_assoc).
    apply statsDiscipline_intro; [done|lia|lia|].
    apply stepsOk_app. split.
    + apply stepsOk_quiet; [done|]. by rewrite forallb_app, Hqmid, Hqnav.
    + by rewrite <-replay_app.
Qed.

(** A chunking of a non-empty sequence that returns had a positive size
    and is the partition of the sequence. *)
Lemma chunkArray_Some_inv {T} fuel (records : list T) size batches :
  records ≠ [] →
  chunkArray fuel records size = Some batches →
  0 < size ∧ concat batches = records.
Proof.
  intros Hne Hrun.
  destruct (Z.le_gt_cases size 0) as [Hle|Hpos].
  - unfold chunkArray in Hrun. rewrite chunkLoop_stuck in Hrun; [done|done|].
    destruct records; [done|simpl; lia].
  - split; [lia|].
    destruct (chunkArray_returns records size) as (batches' & Hret & _ & Hcat);
      [lia|].
    set (big := S (Nat.max fuel
                     (Z.to_nat (ceilDiv (Z.of_nat (length records)) size)))).
    assert (chunkArray big records size = Some batches) as Hbig.
    { eapply chunkLoop_fuel_mono; [|exact Hrun]. unfold big. lia. }
    rewrite Hret in Hbig by (unfold big; lia). by simplify_eq.
Qed.

(** On the simulation branch a run whose chunking does not return does
    not return either: nothing after [chunkArray] is reached. *)
Lemma runAutomation_hangs_in_chunkArray fuel config password rawData s :
  electronAPI env = false →
  username config ≠ EmptyString → password ≠ EmptyString →
  parseCSV rawData ≠ [] →
  chunkArray fuel (parseCSV rawData) (batchSize config) = None →
  runAutomation env fuel config password rawData s = None.
Proof.
  intros Hel Hu Hp Hd Hnone. unfold runAutomation.
  rewrite (truthy_nonempty _ Hu), (truthy_nonempty _ Hp),
    (parseCSV_nonempty_trim _ Hd), Hel, (length_eqb_0_nonempty _ Hd), Hnone.
  reflexivity.
Qed.

(** With a batch size that is not positive, a simulated run that passed
    the precondition checks never gets past [chunkArray]: no login, no
    upload, no result. *)
Lemma runAutomation_nonpositive_size_hangs fuel config password rawData s :
  electronAPI env = false →
  username config ≠ EmptyString → password ≠ EmptyString →
  parseCSV rawData ≠ [] → batchSize config <= 0 →
  runAutomation env fuel config password rawData s = None.
Proof.
  intros Hel Hu Hp Hd Hsize. apply runAutomation_hangs_in_chunkArray; try done.
  unfold chunkArray. apply chunkLoop_stuck; [done|].
  destruct (parseCSV rawData); [done|simpl; lia].
Qed.

(** C3. From the initialisation of the statistics on, at every point of
    a run the snapshot satisfies
    [processedRecords = successCount + errorCount],
    [processedRecords ≤ totalRecords] and
    [batchesCompleted ≤ batchesTotal], and no count ever decreases; the
    only reset is the initialisation itself, which sets the two totals
    and zeroes the counts. This holds for every run of the simulated
    orchestrator that returns, whatever the batch size; and with a
    positive batch size every run (on either branch) does return and
    satisfies it. *)
Theorem C3_stats_invariants config password rawData s :
  (electronAPI env = false →
   ∀ fuel t,
     runAutomation env fuel config password rawData s = Some (tt, t) →
     statsDiscipline s t)
  ∧ (0 < batchSize config →
     ∃ fuel0, ∀ fuel, (fuel0 <= fuel)%nat →
       runs (runAutomation env fuel config password rawData) s
            (λ _ t, statsDiscipline s t)).
Proof.
  assert (username config = EmptyString ∨ password = EmptyString
          ∨ parseCSV rawData = [] →
          ∀ fuel t,
            runAutomation env fuel config password rawData s = Some (tt, t) →
            statsDiscipline s t) as Hrejected.
  { intros Hpre fuel t Hrun.
    destruct (runAutomation_rejects fuel config password rawData s Hpre)
      as (msg & Hmsg & _).
    rewrite Hmsg in Hrun. simplify_eq. by apply statsDiscipline_quiet. }
  split.
  - intros Hel fuel t Hrun.
    destruct (decide (username config = EmptyString)) as [Hu|Hu];
      [by eapply Hrejected; [left|]|].
    destruct (decide (password = EmptyString)) as [Hp|Hp];
      [by eapply Hrejected; [right; left|]|].
    destruct (decide (parseCSV rawData = [])) as [Hd|Hd];
      [by eapply Hrejected; [right; right|]|].
    destruct (chunkArray fuel (parseCSV rawData) (batchSize config))
      as [batches|] eqn:Hchunk.
    + destruct (chunkArray_Some_inv _ _ _ _ Hd Hchunk) as [_ Hcat].
      eapply simulationShape_statsDiscipline; [|
        exact (runs_det _ _ _ _ _ Hrun
                 (runAutomation_simulation fuel config password rawData
                    batches s Hel Hu Hp Hd Hchunk Hcat))].
      lia.
    + by rewrite runAutomation_hangs_in_chunkArray in Hrun.
  - intros Hsize. exists (enoughFuel config rawData). intros fuel Hfuel.
    destruct (decide (username config = EmptyString)) as [Hu|Hu].
    { destruct (runAutomation_rejects fuel config password rawData s)
        as (msg & Hrun & _); [by left|].
      exists tt, [Alert msg]. split; [done|]. by apply statsDiscipline_quiet. }
    destruct (decide (password = EmptyString)) as [Hp|Hp].
    { destruct (runAutomation_rejects fuel config password rawData s)
        as (msg & Hrun & _); [by right; left|].
      exists tt, [Alert msg]. split; [done|]. by apply statsDiscipline_quiet. }
    destruct (decide (parseCSV rawData = [])) as [Hd|Hd].
    { destruct (runAutomation_rejects fuel config password rawData s)
        as (msg & Hrun & _); [by right; right|].
      exists tt, [Alert msg]. split; [done|]. by apply statsDiscipline_quiet. }
    destruct (electronAPI env) eqn:Hel.
    { eapply runs_mono; [by apply runAutomation_electron|].
      intros [] t (l1 & H1 & ->).
      apply statsDiscipline_intro.
      - by rewrite forallb_app, (logsOnly_quiet _ H1).
      - lia.
      - apply mathCeilDiv_nonneg; lia.
      - apply stepsOk_quiet; [|done]. rewrite replay_snoc.
        unfold StatsInv. simpl.
        pose proof (mathCeilDiv_nonneg (Z.of_nat (length (parseCSV rawData)))
                      (batchSize config)). lia. }
    destruct (runAutomation_simulation_total config password rawData s)
      as (batches & Hlen & Hcat & Hrun); [done..|].
    destruct (Hrun fuel Hfuel) as [_ Hshape].
    eapply runs_mono; [exact Hshape|]. clear Hshape.
    intros [] t Hshape.
    eapply simulationShape_statsDiscipline; [|exact Hshape]. lia.
Qed.

(** The older shell, given credentials and raw text that is not blank
    but parses to no record, starts the run before it finds out: it sets
    the status to Running, clears the log, and ends Failed with an Error
    entry. *)
Lemma legacy_runAutomation_empty_parse fuel
    (legacy : Legacy.AutomationConfig) password rawData s :
  Legacy.username legacy ≠ EmptyString → password ≠ EmptyString →
  JS.trim rawData ≠ EmptyString → parseCSV rawData = [] →
  runs (Legacy.runAutomation env fuel legacy password rawData) s (λ _ t,
    statusChanges t = [JobStatus.RUNNING; JobStatus.FAILED]
    ∧ status (replay s t) = JobStatus.FAILED
    ∧ level <$> logs (replay s t)
      = [LogLevel.SYSTEM; LogLevel.INFO; LogLevel.ERROR]).
Proof.
  intros Hu Hp Hraw Hparsed. unfold Legacy.runAutomation.
  rewrite (truthy_nonempty _ Hu), (truthy_nonempty _ Hp),
    (truthy_nonempty _ Hraw), Hparsed.
  cbn [negb orb length Nat.eqb]. by run_steps.
Qed.

(** The login capability uses the password only through the validity
    test of the simulation. *)
Lemma simulateLogin_password user p1 p2 scenario :
  isInvalidPassword p1 = isInvalidPassword p2 →
  simulateLogin user p1 scenario = simulateLogin user p2 scenario.
Proof. intros Hinv. unfold simulateLogin. by rewrite Hinv. Qed.

(** C9, amended. No message is built from the password: the event log
    of a run depends on the password only through whether it is empty
    and whether the simulated validity test rejects it. Two passwords
    that agree on both give the same event log (and the same
    termination behaviour). *)
Theorem C9_log_independent_of_password fuel config p1 p2 rawData s :
  JS.truthy p1 = JS.truthy p2 →
  isInvalidPassword p1 = isInvalidPassword p2 →
  (λ r, logs (replay s r.2)) <$> runAutomation env fuel config p1 rawData s
  = (λ r, logs (replay s r.2)) <$> runAutomation env fuel config p2 rawData s.
Proof.
  intros Htruthy Hinv. unfold runAutomation.
  rewrite Htruthy, (simulateLogin_password _ p1 p2 _ Hinv).
  repeat case_match; try reflexivity.
Qed.

End Orchestrator.

(** ** The CSV reader *)

Section Reader.
Context {ops : JSNumberOps}.
Implicit Types (headers lines cells : list string) (item : CatalogItem).

(** The row loop keeps, in order, the rows whose field count is that of
    the header. *)
Lemma parseRows_spec headers lines n : ∀ i data,
  parseRows headers lines n i data
  = data ++ ((λ j, ensureId (fillItem headers (JS.split "," (lines !!! j))) j)
             <$> filter (λ j, length (JS.split "," (lines !!! j))
                              = length headers)
                        (seq i n)).
Proof.
  induction n as [|n IH]; intros i data.
  - simpl. by rewrite app_nil_r.
  - cbn [parseRows seq]. rewrite filter_cons.
    destruct (decide (length (JS.split "," (lines !!! i)) ≠ length headers))
      as [Hne|Heq].
    + rewrite decide_False by done. apply IH.
    + apply dec_stable in Heq. rewrite decide_True by done.
      rewrite IH, fmap_cons, <-app_assoc. done.
Qed.

(** After [item.id = item.id || ...] the [id] is the old one when that
    was truthy, and the synthesized one otherwise. *)
Lemma ensureId_lookup item i :
  ensureId item i !! "id"
  = Some (match item !! "id" with
          | Some v => if toBoolean v then v else rowId i
          | None => rowId i
          end).
Proof. unfold ensureId. by rewrite lookup_insert_eq. Qed.

Lemma ensureId_truthy item i :
  ∃ v, ensureId item i !! "id" = Some v ∧ toBoolean v = true.
Proof.
  rewrite ensureId_lookup. eexists. split; [done|].
  destruct (item !! "id") as [v|]; [|done].
  by destruct (toBoolean v) eqn:Hv.
Qed.

(** A cell is falsy exactly when it is blank or a number that is. *)
Lemma cellValue_falsy cell :
  toBoolean (cellValue (Some cell)) = false
  ↔ JS.trim cell = EmptyString
    ∨ (isNaN (Number (JS.trim cell)) = false
       ∧ numToBoolean (Number (JS.trim cell)) = false).
Proof.
  unfold cellValue. cbn [fmap option_fmap option_map].
  generalize (JS.trim cell). intros [|a v].
  - cbn [String.eqb negb]. rewrite andb_false_r. cbn [toBoolean JS.truthy].
    split; auto.
  - cbn [String.eqb negb]. rewrite andb_true_r.
    destruct (isNaN (Number (String a v))) eqn:Hnan; cbn [negb toBoolean JS.truthy].
    + split; [done|]. by intros [?|[? _]].
    + split; [auto|]. by intros [?|[_ ?]].
Qed.

(** A header that is not there leaves no entry. *)
Lemma fillItem_missing headers cells key :
  key ∉ headers → fillItem headers cells !! key = None.
Proof.
  unfold fillItem. intros Hkey.
  assert (∀ (l : list (nat * string)) (m : CatalogItem),
            key ∉ l.*2 → m !! key = None →
            foldl (λ (item : CatalogItem) '(index, header),
                     <[header := cellValue (cells !! index)]> item) m l
              !! key = None) as Hfold.
  { induction l as [|[idx h] l IH]; intros m Hl Hm; [done|].
    simpl. apply IH.
    - intros Hin. apply Hl. rewrite fmap_cons. by right.
    - rewrite lookup_insert_ne; [done|]. intros ->. apply Hl.
      rewrite fmap_cons. by left. }
  apply Hfold; [|done].
  intros Hin. apply Hkey.
  apply list_elem_of_fmap in Hin as ([idx h] & -> & Hin).
  apply list_elem_of_lookup in Hin as [j Hj].
  rewrite list_lookup_imap in Hj.
  destruct (headers !! j) eqn:Hh; simplify_eq/=.
  by eapply list_elem_of_lookup_2.
Qed.

(** Filling from one more header is one more assignment. *)
Lemma fillItem_snoc headers header cells :
  fillItem (headers ++ [header]) cells
  = <[header := cellValue (cells !! length headers)]> (fillItem headers cells).
Proof.
  unfold fillItem. rewrite imap_app, foldl_app. simpl.
  by rewrite Nat.add_0_r.
Qed.

(** The entry of a column name is read from the last column that bears
    the name. *)
Lemma fillItem_lookup headers cells key j :
  headers !! j = Some key →
  (∀ j', (j < j')%nat → headers !! j' ≠ Some key) →
  fillItem headers cells !! key = Some (cellValue (cells !! j)).
Proof.
  induction headers as [|h headers IH] using rev_ind; intros Hj Hlast; [done|].
  rewrite fillItem_snoc.
  destruct (decide (j = length headers)) as [->|Hne].
  - rewrite lookup_app_r, Nat.sub_diag in Hj by lia. simplify_eq/=.
    by rewrite lookup_insert_eq.
  - assert (j < length headers)%nat as Hlt.
    { apply lookup_lt_Some in Hj. rewrite length_app in Hj. simpl in Hj. lia. }
    rewrite lookup_app_l in Hj by done.
    rewrite lookup_insert_ne.
    + apply IH; [done|]. intros j' Hj' Hkey.
      apply (Hlast j' Hj'). apply lookup_app_l_Some. done.
    + intros ->. apply (Hlast (length headers) Hlt).
      by rewrite lookup_app_r, Nat.sub_diag by lia.
Qed.
(** C10. Every record that [parseCSV] returns has a truthy (non-empty)
    [id]. The records are, in order, those of the data lines whose field
    count equals the header's; the other lines yield nothing. For a kept
    line at index [i] of the line array (the header is line 0, so [i] is
    the 1-based position among the data lines) the [id] read from the
    row is kept when it is truthy, and is ["row-" ++ i] when the [id]
    column is missing, or when its cell is blank or reads as a falsy
    number (such as 0). *)
Theorem C10_parseCSV_ids csvText :
  let lines := JS.split "010" (JS.trim csvText) in
  let headers := JS.trim <$> JS.split "," (lines !!! 0%nat) in
  let cells := λ i, JS.split "," (lines !!! i) in
  let kept := filter (λ i, length (cells i) = length headers)
                     (seq 1 (length lines - 1)) in
  parseCSV csvText = (λ i, ensureId (fillItem headers (cells i)) i) <$> kept
  ∧ Forall (λ item : CatalogItem,
              ∃ v, item !! "id" = Some v ∧ toBoolean v = true)
           (parseCSV csvText)
  ∧ ∀ i, i ∈ kept →
      let raw := fillItem headers (cells i) in
      let item := ensureId raw i in
      let synthesized := VString ("row-" +:+ JS.show (Z.of_nat i)) in
      (∀ v, raw !! "id" = Some v → toBoolean v = true → item !! "id" = Some v)
      ∧ (raw !! "id" = None ∨ (∃ v, raw !! "id" = Some v ∧ toBoolean v = false) →
         item !! "id" = Some synthesized)
      ∧ ("id" ∉ headers → item !! "id" = Some synthesized)
      ∧ (∀ j cell,
           headers !! j = Some "id" →
           (∀ j', (j < j')%nat → headers !! j' ≠ Some "id") →
           cells i !! j = Some cell →
           JS.trim cell = EmptyString
           ∨ (isNaN (Number (JS.trim cell)) = false
              ∧ numToBoolean (Number (JS.trim cell)) = false) →
           item !! "id" = Some synthesized).
Proof.
  intros lines headers cells kept.
  assert (parseCSV csvText
          = (λ i, ensureId (fillItem headers (cells i)) i) <$> kept) as Heq.
  { unfold parseCSV. fold lines. fold headers.
    destruct (length lines <? 2)%nat eqn:Hshort.
    - apply Nat.ltb_lt in Hshort. unfold kept.
      replace (length lines - 1)%nat with 0%nat by
        (destruct lines as [|? [|? ?]]; simpl in *; lia).
      done.
    - by rewrite parseRows_spec. }
  split_and!; [done| |].
  - rewrite Heq. apply Forall_fmap, Forall_forall. intros i _.
    apply ensureId_truthy.
  - intros i _ raw item synthesized. unfold item. rewrite ensureId_lookup.
    split_and!.
    + intros v -> ->. done.
    + intros [->|(v & -> & ->)]; done.
    + intros Hmissing. unfold raw. by rewrite fillItem_missing.
    + intros j cell Hj Hlast Hcell Hfalsy. unfold raw.
      rewrite (fillItem_lookup _ _ _ j Hj Hlast), Hcell.
      apply cellValue_falsy in Hfalsy. by rewrite Hfalsy.
Qed.

End Reader.

(** ** Concrete runs *)

Lemma C2_completed_run_accounts_for_all_witness :
  ∃ fuel0, ∀ fuel, (fuel0 <= fuel)%nat →
    runs (runAutomation simEnv fuel (sampleConfig Scenario.SUCCESS)
                        "secret1" sampleCsv) idleState
         (λ _ t,
            status (replay idleState t) = JobStatus.COMPLETED
            ∧ processedRecords (stats (replay idleState t)) = 3
            ∧ batchesCompleted (stats (replay idleState t))
              = batchesTotal (stats (replay idleState t))).
Proof.
  destruct (C2_completed_run_accounts_for_all simEnv
              (sampleConfig Scenario.SUCCESS) "secret1" sampleCsv idleState)
    as (fuel0 & batches & Hrun).
  - reflexivity.
  - discriminate.
  - discriminate.
  - vm_compute. discriminate.
  - reflexivity.
  - intros s'. eexists _, _. split; reflexivity.
  - reflexivity.
  - exists fuel0. intros fuel Hfuel. destruct (Hrun fuel Hfuel) as [_ Hr].
    eapply runs_mono; [exact Hr|]. cbn beta zeta.
    intros _ t (_ & Hst & _ & Hproc & Htot & Hdone & _).
    split_and!; [done| |done]. by rewrite Hproc, Htot.
Defined.

Lemma C3_stats_invariants_witness :
  ∃ fuel0, ∀ fuel, (fuel0 <= fuel)%nat →
    runs (runAutomation simEnv fuel (sampleConfig Scenario.ERROR_UPLOAD)
                        "secret1" sampleCsv) idleState
         (λ _ t, statsDiscipline idleState t).
Proof.
  apply (C3_stats_invariants simEnv (sampleConfig Scenario.ERROR_UPLOAD)
           "secret1" sampleCsv idleState).
  reflexivity.
Defined.

Lemma C4_stop_between_batches_witness :
  ∃ fuel0, ∀ fuel, (fuel0 <= fuel)%nat →
    runs (runAutomation stopInFirstUploadEnv fuel
                        (sampleConfig Scenario.SUCCESS) "secret1" sampleCsv)
         idleState
         (λ _ t,
            status (replay idleState t) = JobStatus.PAUSED
            ∧ batchesCompleted (stats (replay idleState t)) = 1).
Proof.
  destruct (C4_stop_between_batches stopInFirstUploadEnv
              (sampleConfig Scenario.SUCCESS) "secret1" sampleCsv idleState 1)
    as (fuel0 & batches & Hrun).
  - reflexivity.
  - discriminate.
  - discriminate.
  - vm_compute. discriminate.
  - reflexivity.
  - intros s'. eexists _, _. split; reflexivity.
  - reflexivity.
  - vm_compute. reflexivity.
  - intros j Hj. assert (j = 0%nat) as -> by lia. reflexivity.
  - reflexivity.
  - exists fuel0. intros fuel Hfuel. destruct (Hrun fuel Hfuel) as [_ Hr].
    eapply runs_mono; [exact Hr|]. cbn beta zeta.
    intros _ t (_ & Hst & _ & Hdone & _). by split.
Defined.

Lemma C5_login_failure_stops_witness :
  ∃ fuel0, ∀ fuel, (fuel0 <= fuel)%nat →
    runs (runAutomation simEnv fuel (sampleConfig Scenario.ERROR_AUTH)
                        "secret1" sampleCsv) idleState
         (λ _ t,
            status (replay idleState t) = JobStatus.FAILED
            ∧ invocations t = [CapLogin]).
Proof.
  destruct (C5_login_failure_stops simEnv (sampleConfig Scenario.ERROR_AUTH)
              "secret1" sampleCsv idleState) as (fuel0 & Hrun).
  - reflexivity.
  - discriminate.
  - discriminate.
  - vm_compute. discriminate.
  - reflexivity.
  - intros s'. eexists _, _. split; reflexivity.
  - exists fuel0. intros fuel Hfuel.
    eapply runs_mono; [exact (Hrun fuel Hfuel)|]. cbn beta.
    intros _ t (_ & Hst & Hinv & _). by split.
Defined.

(** C8 as the specification states it fails: under the VPN scenario the
    login capability returns failure after logging two Error-severity
    events, tagged NET and SYS, and none tagged AUTH. *)
Lemma C8_counterexample :
  ∃ t tlogin,
    simulateLogin "alice" "secret1" Scenario.ERROR_VPN idleState
      = Some (false, tlogin)
    ∧ runAutomation simEnv 5 (sampleConfig Scenario.ERROR_VPN) "secret1"
                    sampleCsv idleState = Some (tt, t)
    ∧ status (replay idleState t) = JobStatus.FAILED
    ∧ step <$> errorEntries (logs (replay idleState t)) = ["NET"; "SYS"].
Proof. eexists _, _. split_and!; vm_compute; reflexivity. Qed.

Lemma C8_login_failure_trace_witness :
  ∃ fuel0, ∀ fuel, (fuel0 <= fuel)%nat →
    runs (runAutomation simEnv fuel (sampleConfig Scenario.ERROR_AUTH)
                        "secret1" sampleCsv) idleState
         (λ _ t,
            statusChanges t = [JobStatus.RUNNING; JobStatus.FAILED]
            ∧ step <$> errorEntries (logs (replay idleState t)) = ["AUTH"]
            ∧ stats (replay idleState t) = initialStats 3 2).
Proof.
  destruct (C8_login_failure_trace simEnv (sampleConfig Scenario.ERROR_AUTH)
              "secret1" sampleCsv idleState) as (fuel0 & Hrun).
  - reflexivity.
  - discriminate.
  - discriminate.
  - vm_compute. discriminate.
  - reflexivity.
  - reflexivity.
  - intros s'. eexists _, _. split; reflexivity.
  - exists fuel0. intros fuel Hfuel.
    eapply runs_mono; [exact (Hrun fuel Hfuel)|]. cbn beta.
    intros _ t (Hst & Herr & Hstats). split_and!.
    + by injection Hst.
    + exact Herr.
    + rewrite Hstats. vm_compute. reflexivity.
Defined.

(** C9 as the specification states it fails: when the password happens
    to be text that a message contains anyway (here it equals the user
    name, which the login phase logs), a log message contains it. *)
Lemma C9_counterexample :
  ∃ t,
    runAutomation simEnv 5 (sampleConfig Scenario.SUCCESS) "alice"
                  sampleCsv idleState = Some (tt, t)
    ∧ existsb (λ e, JS.includes (message e) "alice")
              (logs (replay idleState t)) = true.
Proof. eexists. split; vm_compute; reflexivity. Qed.

Lemma C9_log_independent_of_password_witness :
  (λ r, logs (replay idleState r.2))
    <$> runAutomation simEnv 5 (sampleConfig Scenario.SUCCESS) "secret1"
                      sampleCsv idleState
  = (λ r, logs (replay idleState r.2))
    <$> runAutomation simEnv 5 (sampleConfig Scenario.SUCCESS) "hunter22"
                      sampleCsv idleState.
Proof.
  apply (C9_log_independent_of_password simEnv 5
           (sampleConfig Scenario.SUCCESS) "secret1" "hunter22"
           sampleCsv idleState); reflexivity.
Defined.

(** C6 on the current shell: with no parsed record the run is rejected
    by an alert and nothing else happens. *)
Example current_shell_rejects_header_only :
  runAutomation simEnv 5 (sampleConfig Scenario.SUCCESS) "secret1"
                headerOnlyCsv idleState
  = Some (tt, [Alert "No valid data found."]).
Proof. reflexivity. Qed.

(** C6 on the older shell: with a header and no data row, which parses
    to no record, the run clears the log, sets the status to Running,
    logs an Error and ends Failed, instead of rejecting the start and
    leaving the state alone. *)
Theorem C6_legacy_starts_before_rejecting :
  parseCSV headerOnlyCsv = []
  ∧ ∃ t,
      Legacy.runAutomation simEnv 5 legacyConfig "secret1" headerOnlyCsv
                           idleState = Some (tt, t)
      ∧ statusChanges t = [JobStatus.RUNNING; JobStatus.FAILED]
      ∧ status (replay idleState t) = JobStatus.FAILED
      ∧ level <$> logs (replay idleState t)
        = [LogLevel.SYSTEM; LogLevel.INFO; LogLevel.ERROR].
Proof. split; [reflexivity|]. eexists. split_and!; vm_compute; reflexivity. Qed.

(** The reader on the sample: the first row keeps its id, the second
    row, whose id is the number 0, gets a synthesized one. *)
Example parseCSV_sample_ids :
  (λ item : CatalogItem, item !! "id") <$> parseCSV sampleCsv
  = [Some (VNumber (Some 1)); Some (VString "row-2"); Some (VNumber (Some 3))].
Proof. vm_compute. reflexivity. Qed.

(** * Further properties *)

(** ** Google Sheet addresses *)

Section SheetUrls.
Implicit Types (s t url : string) (p : ascii → bool).

#[local] Arguments String.append !_ _ / : simpl nomatch.

Lemma spanClass_allChars p s : allChars p (spanClass p s) = true.
Proof.
  induction s as [|c s IH]; [done|]. simpl.
  destruct (p c) eqn:Hc; [|done]. simpl. by rewrite Hc.
Qed.

(** A run of class characters followed by a character outside the class
    (or by the end of the string) is consumed whole. *)
Lemma spanClass_app p s t :
  allChars p s = true →
  match t with EmptyString => True | String c _ => p c = false end →
  spanClass p (s +:+ t) = s.
Proof.
  intros Hs Ht. induction s as [|c s IH].
  - simpl. destruct t as [|c t]; [done|]. simpl. by rewrite Ht.
  - simpl in Hs |- *. apply andb_true_iff in Hs as [-> Hs].
    by rewrite IH.
Qed.

Lemma stripPrefix_app pre s : stripPrefix pre (pre +:+ s) = Some s.
Proof.
  induction pre as [|a pre IH]; [done|]. simpl.
  by rewrite Ascii.eqb_refl.
Qed.

Lemma stripPrefix_Some pre s rest :
  stripPrefix pre s = Some rest → s = pre +:+ rest.
Proof.
  revert s. induction pre as [|a pre IH]; intros s H.
  - simpl in H. by simplify_eq.
  - destruct s as [|b s]; [done|]. simpl in H.
    destruct (Ascii.eqb a b) eqn:Hab; [|done].
    apply Ascii.eqb_eq in Hab as ->. simpl. f_equal. by apply IH.
Qed.

Lemma spanClass_prefix p s : ∃ rest, s = spanClass p s +:+ rest.
Proof.
  induction s as [|c s [rest IH]].
  - by exists EmptyString.
  - simpl. destruct (p c).
    + exists rest. simpl. by f_equal.
    + by eexists.
Qed.

Lemma captureHere_Some lit p s g :
  captureHere lit p s = Some g →
  g ≠ EmptyString ∧ allChars p g = true ∧ ∃ rest, s = lit +:+ g +:+ rest.
Proof.
  unfold captureHere. intros H.
  destruct (stripPrefix lit s) as [rest|] eqn:Hpre; [|done].
  apply stripPrefix_Some in Hpre as ->.
  destruct (spanClass p rest) as [|c g'] eqn:Hspan; [done|].
  simplify_eq. split_and!; [done| |].
  - rewrite <-Hspan. apply spanClass_allChars.
  - destruct (spanClass_prefix p rest) as [rest' Hrest].
    exists rest'. by rewrite <-Hspan, <-Hrest.
Qed.

(** A match found by the scan starts at some position of the string. *)
Lemma firstMatch_Some here s g :
  firstMatch here s = Some g →
  ∃ before after, s = before +:+ after ∧ here after = Some g.
Proof.
  induction s as [|c s IH]; simpl.
  - destruct (here EmptyString) eqn:Hh; [|done]. intros ?; simplify_eq.
    by exists EmptyString, EmptyString.
  - destruct (here (String c s)) eqn:Hh.
    + intros ?; simplify_eq. by exists EmptyString, (String c s).
    + intros (before & after & -> & Hafter)%IH.
      by exists (String c before), after.
Qed.

Lemma firstMatch_None here s :
  firstMatch here s = None ↔
  ∀ before after, s = before +:+ after → here after = None.
Proof.
  induction s as [|c s IH]; simpl.
  - destruct (here EmptyString) eqn:Hh.
    + split; [done|]. intros H. by rewrite (H EmptyString EmptyString) in Hh.
    + split; [|done]. intros _ [|? ?] [|? ?]; simpl; intros ?; by simplify_eq.
  - destruct (here (String c s)) eqn:Hh.
    + split; [done|]. intros H.
      by rewrite (H EmptyString (String c s)) in Hh.
    + rewrite IH. split.
      * intros H [|b before] after Heq; simpl in Heq.
        -- by subst.
        -- simplify_eq. by eapply H.
      * intros H before after ->. by apply (H (String c before) after).
Qed.

(** Positions at which the pattern cannot start are skipped. *)
Lemma firstMatch_skip here s t :
  (∀ before after, s = before +:+ after → after ≠ EmptyString →
     here (after +:+ t) = None) →
  firstMatch here (s +:+ t) = firstMatch here t.
Proof.
  induction s as [|c s IH]; intros H; [done|].
  pose proof (H EmptyString (String c s) eq_refl ltac:(done)) as Hc.
  simpl in Hc |- *. rewrite Hc.
  apply IH. intros before after -> Hne.
  by apply (H (String c before) after).
Qed.

Lemma includes_app s before after sub :
  s = before +:+ after → String.prefix sub after = true →
  JS.includes s sub = true.
Proof.
  intros -> Hpre. induction before as [|c before IH]; simpl.
  - destruct after; simpl in *; by rewrite Hpre.
  - rewrite IH. apply orb_true_r.
Qed.

Lemma string_prefix_app pre s : String.prefix pre (pre +:+ s) = true.
Proof.
  induction pre as [|a pre IH]; simpl; [by destruct s|].
  destruct (ascii_dec a a); [done|done].
Qed.

Lemma prefix_stripPrefix pre s :
  String.prefix pre s = true ↔ ∃ rest, s = pre +:+ rest.
Proof.
  revert s. induction pre as [|a pre IH]; intros s.
  - split; [|by destruct s]. intros _. by exists s.
  - destruct s as [|b s]; simpl.
    + split; [done|]. by intros [? ?].
    + destruct (ascii_dec a b) as [->|Hne].
      * rewrite IH. split; intros [rest Hrest]; exists rest; by simplify_eq.
      * split; [done|]. intros [rest ?]. by simplify_eq.
Qed.

Lemma string_append_assoc s t u : (s +:+ t) +:+ u = s +:+ t +:+ u.
Proof. induction s as [|c s IH]; simpl; [done|]. by f_equal. Qed.

Lemma includes_iff s sub :
  JS.includes s sub = true ↔
  ∃ before after, s = before +:+ after ∧ String.prefix sub after = true.
Proof.
  induction s as [|c s IH]; cbn [JS.includes].
  - rewrite orb_false_r. split.
    + intros H. by exists EmptyString, EmptyString.
    + intros ([|? ?] & [|? ?] & Heq & H); by simplify_eq.
  - rewrite orb_true_iff, IH. split.
    + intros [H|(before & after & -> & H)].
      * by exists EmptyString, (String c s).
      * by exists (String c before), after.
    + intros ([|b before] & after & Heq & H); simpl in Heq.
      * left. by subst.
      * right. simplify_eq. by exists before, after.
Qed.

Lemma spanClass_all p s : allChars p s = true → spanClass p s = s.
Proof.
  induction s as [|c s IH]; [done|]. simpl.
  intros [-> Hs]%andb_true_iff. by rewrite IH.
Qed.

Lemma firstMatch_cons_None here c s :
  here (String c s) = None →
  firstMatch here (String c s) = firstMatch here s.
Proof. simpl. by intros ->. Qed.

Lemma firstMatch_here here s g : here s = Some g → firstMatch here s = Some g.
Proof. destruct s; simpl; by intros ->. Qed.

Lemma isSheetIdChar_not_mark c : isSheetIdChar c = true → isGidMark c = false.
Proof. by destruct c as [[] [] [] [] [] [] [] []]. Qed.

Lemma isDigitChar_isSheetIdChar c : isDigitChar c = true → isSheetIdChar c = true.
Proof. by destruct c as [[] [] [] [] [] [] [] []]. Qed.

(** No [gid] mark lies inside a run of identifier characters. *)
Lemma firstMatch_gid_skip s t :
  allChars isSheetIdChar s = true →
  firstMatch gidPattern (s +:+ t) = firstMatch gidPattern t.
Proof.
  induction s as [|c s IH]; [done|]. simpl allChars.
  intros [Hc Hs]%andb_true_iff. simpl String.append.
  rewrite firstMatch_cons_None; [by apply IH|].
  simpl. by rewrite (isSheetIdChar_not_mark c Hc).
Qed.

(** The scan for the identifier succeeds exactly when [/d/] is followed
    somewhere by a character of the class. *)
Lemma idPattern_None s :
  idPattern s = None ↔
  ∀ c, isSheetIdChar c = true →
       String.prefix ("/d/" +:+ String c EmptyString) s = false.
Proof.
  unfold idPattern, captureHere. split.
  - intros H c Hc. apply not_true_is_false.
    intros [rest ->]%prefix_stripPrefix.
    rewrite string_append_assoc in H. rewrite stripPrefix_app in H.
    simpl in H. by rewrite Hc in H.
  - intros H. destruct (stripPrefix "/d/" s) as [rest|] eqn:Hpre; [|done].
    apply stripPrefix_Some in Hpre as ->.
    destruct rest as [|c rest]; [done|]. simpl.
    destruct (isSheetIdChar c) eqn:Hc; [|done].
    specialize (H c Hc). apply not_true_iff_false in H. destruct H.
    apply prefix_stripPrefix. exists rest. by rewrite string_append_assoc.
Qed.

Lemma firstMatch_idPattern_None url :
  firstMatch idPattern url = None ↔
  ∀ c, isSheetIdChar c = true →
       JS.includes url ("/d/" +:+ String c EmptyString) = false.
Proof.
  rewrite firstMatch_None. split.
  - intros H c Hc. apply not_true_is_false.
    intros (before & after & -> & Hpre)%includes_iff.
    pose proof (H before after eq_refl) as Hnone.
    rewrite idPattern_None in Hnone. by rewrite Hnone in Hpre.
  - intros H before after ->. apply idPattern_None. intros c Hc.
    apply not_true_is_false. intros Hpre.
    specialize (H c Hc). apply not_true_iff_false in H. destruct H.
    apply includes_iff. by exists before, after.
Qed.

Lemma firstMatch_nonempty lit p s g :
  firstMatch (captureHere lit p) s = Some g → JS.truthy g = true.
Proof.
  intros (before & after & _ & H)%firstMatch_Some.
  apply captureHere_Some in H as (Hne & _). by destruct g.
Qed.

(** What a match of the identifier pattern captures: a non-empty run of
    characters of the class that follows a [/d/] of the address. *)
Lemma idMatch_wf url id :
  firstMatch idPattern url = Some id →
  id ≠ EmptyString ∧ allChars isSheetIdChar id = true
  ∧ JS.includes url ("/d/" +:+ id) = true.
Proof.
  intros (before & after & -> & Hhere)%firstMatch_Some.
  apply captureHere_Some in Hhere as (Hne & Hall & rest & ->).
  split_and!; [done..|].
  apply includes_iff. exists before, ("/d/" +:+ id +:+ rest). split; [done|].
  apply prefix_stripPrefix. exists rest. by rewrite string_append_assoc.
Qed.

(** What a match of the sheet number pattern captures: a non-empty run
    of digits that follows a [gid=] of the address. *)
Lemma gidMatch_wf url g :
  firstMatch gidPattern url = Some g →
  g ≠ EmptyString ∧ allChars isDigitChar g = true
  ∧ JS.includes url ("gid=" +:+ g) = true.
Proof.
  intros (b & a & Heq & Hhere)%firstMatch_Some.
  destruct a as [|c a]; [done|]. simpl in Hhere.
  destruct (isGidMark c); [|done].
  apply captureHere_Some in Hhere as (Hne & Hall & rest & ->).
  split_and!; [done..|].
  apply includes_iff.
  exists (b +:+ String c EmptyString), ("gid=" +:+ g +:+ rest). split.
  - rewrite Heq. by rewrite string_append_assoc.
  - apply prefix_stripPrefix. exists rest. by rewrite string_append_assoc.
Qed.

(** An answer of [parseGoogleSheetUrl] holds the two captures. *)
Lemma parseGoogleSheetUrl_Some url r :
  parseGoogleSheetUrl url = Some r →
  firstMatch idPattern url = Some (SheetDetails.id r)
  ∧ SheetDetails.gid r = default "0" (firstMatch gidPattern url).
Proof.
  unfold parseGoogleSheetUrl. intros H.
  destruct (firstMatch idPattern url) as [id|]; [|done].
  destruct (JS.truthy id); [|done]. simplify_eq. split; [done|].
  by destruct (firstMatch gidPattern url).
Qed.

(** The two patterns on an export address. *)
Lemma idMatch_export id gid :
  id ≠ EmptyString → allChars isSheetIdChar id = true →
  firstMatch idPattern (constructCsvExportUrl id gid) = Some id.
Proof.
  intros Hid Hidc. unfold constructCsvExportUrl.
  set (tail := "/export?format=csv&gid=" +:+ gid).
  simpl String.append.
  do 36 (rewrite firstMatch_cons_None by reflexivity).
  apply firstMatch_here. unfold idPattern, captureHere.
  cbn [stripPrefix Ascii.eqb Bool.eqb].
  rewrite spanClass_app; [by destruct id|done|].
  unfold tail. simpl String.append. reflexivity.
Qed.

Lemma gidMatch_export id gid :
  allChars isSheetIdChar id = true →
  gid ≠ EmptyString → allChars isDigitChar gid = true →
  firstMatch gidPattern (constructCsvExportUrl id gid) = Some gid.
Proof.
  intros Hidc Hgid Hgidc. unfold constructCsvExportUrl.
  set (tail := "/export?format=csv&gid=" +:+ gid).
  simpl String.append.
  do 39 (rewrite firstMatch_cons_None by reflexivity).
  rewrite firstMatch_gid_skip by done.
  unfold tail. simpl String.append.
  do 18 (rewrite firstMatch_cons_None by reflexivity).
  apply firstMatch_here. unfold gidPattern, captureHere.
  cbn [isGidMark nat_of_ascii stripPrefix Ascii.eqb Bool.eqb].
  simpl. rewrite spanClass_all by done. by destruct gid.
Qed.

(** X1. The export address of a well-formed identifier and sheet number
    parses back to the two of them. *)
Theorem X1_sheet_url_round_trip id gid :
  id ≠ EmptyString → allChars isSheetIdChar id = true →
  gid ≠ EmptyString → allChars isDigitChar gid = true →
  parseGoogleSheetUrl (constructCsvExportUrl id gid)
  = Some {| SheetDetails.id := id; SheetDetails.gid := gid |}.
Proof.
  intros Hid Hidc Hgid Hgidc. unfold parseGoogleSheetUrl.
  rewrite idMatch_export, gidMatch_export by done.
  by destruct id.
Qed.

(** X2. What [parseGoogleSheetUrl] answers is well formed and comes from the
    address. *)
Theorem X2_parseGoogleSheetUrl_sound url r :
  parseGoogleSheetUrl url = Some r →
  SheetDetails.id r ≠ EmptyString
  ∧ allChars isSheetIdChar (SheetDetails.id r) = true
  ∧ JS.includes url ("/d/" +:+ SheetDetails.id r) = true
  ∧ SheetDetails.gid r ≠ EmptyString
  ∧ allChars isDigitChar (SheetDetails.gid r) = true
  ∧ (SheetDetails.gid r = "0"
     ∨ JS.includes url ("gid=" +:+ SheetDetails.gid r) = true).
Proof.
  intros [(Hne & Hall & Hin)%idMatch_wf Hgid]%parseGoogleSheetUrl_Some.
  split_and!; [done..| | |].
  - destruct (firstMatch gidPattern url) as [g|] eqn:Hg; simpl in Hgid;
      [|by rewrite Hgid].
    apply gidMatch_wf in Hg as (? & _). by rewrite Hgid.
  - destruct (firstMatch gidPattern url) as [g|] eqn:Hg; simpl in Hgid;
      [|by rewrite Hgid].
    apply gidMatch_wf in Hg as (_ & ? & _). by rewrite Hgid.
  - destruct (firstMatch gidPattern url) as [g|] eqn:Hg; simpl in Hgid;
      [|by left].
    apply gidMatch_wf in Hg as (_ & _ & ?). right. by rewrite Hgid.
Qed.

(** X3. [parseGoogleSheetUrl] answers [null] exactly when the address has no
    [/d/] followed by a character of the identifier class. *)
Theorem X3_parseGoogleSheetUrl_null url :
  parseGoogleSheetUrl url = None ↔
  ∀ c, isSheetIdChar c = true →
       JS.includes url ("/d/" +:+ String c EmptyString) = false.
Proof.
  rewrite <-firstMatch_idPattern_None. unfold parseGoogleSheetUrl.
  destruct (firstMatch idPattern url) as [id|] eqn:Hid; [|done].
  unfold idPattern in Hid. rewrite (firstMatch_nonempty _ _ _ _ Hid).
  done.
Qed.

(** X4. Without a [gid=] in the address the sheet number is ["0"]. *)
Theorem X4_parseGoogleSheetUrl_default_gid url r :
  parseGoogleSheetUrl url = Some r →
  JS.includes url "gid=" = false →
  SheetDetails.gid r = "0".
Proof.
  intros [_ Hgid]%parseGoogleSheetUrl_Some Hno.
  destruct (firstMatch gidPattern url) as [g|] eqn:Hg; [|done].
  apply gidMatch_wf in Hg as (_ & _ & H).
  apply includes_iff in H as (before & after & -> & Hpre).
  apply prefix_stripPrefix in Hpre as [rest ->].
  apply not_true_iff_false in Hno. destruct Hno.
  apply includes_iff. exists before, ("gid=" +:+ g +:+ rest).
  split; [by rewrite string_append_assoc|].
  apply prefix_stripPrefix. by eexists.
Qed.

(** The address the application starts with. *)
Example parseGoogleSheetUrl_initial :
  parseGoogleSheetUrl initialSheetUrl
  = Some {| SheetDetails.id := "1oH41KmxSeEUuLyRT9LrFdWkdgvPS7P6Dk3AWF-b8Y40";
            SheetDetails.gid := "0" |}.
Proof. reflexivity. Qed.

End SheetUrls.

(** ** The batches of a chunking *)

Section ChunkShape.
Context {T : Type}.
Implicit Types (array records : list T) (size i : Z).

(** The loop appends the slices at [i], [i + size], [i + 2 size], ...
    up to the first index that is not below the length. *)
Lemma chunkLoop_slices fuel array size : ∀ i result r,
  0 < size → 0 <= i →
  chunkLoop fuel array size i result = Some r →
  ∃ m : nat,
    r = result ++ ((λ k : nat, JS.slice array (i + Z.of_nat k * size)
                                 (i + Z.of_nat k * size + size)) <$> seq 0 m)
    ∧ Z.of_nat (length array) <= i + Z.of_nat m * size
    ∧ ((0 < m)%nat → i + (Z.of_nat m - 1) * size < Z.of_nat (length array)).
Proof.
  induction fuel as [|fuel IH]; intros i result r Hs Hi; [done|].
  simpl. destruct (i <? Z.of_nat (length array)) eqn:Hlt.
  - intros (m & -> & Hge & Hlast)%IH; [|lia..].
    exists (S m). split_and!.
    + rewrite <-app_assoc. f_equal. cbn [seq fmap list_fmap app].
      rewrite Z.mul_0_l, Z.add_0_r. f_equal.
      rewrite <-fmap_S_seq, <-list_fmap_compose. apply list_fmap_ext.
      intros _ k _. simpl. f_equal; lia.
    + lia.
    + intros _. destruct m as [|m]; [lia|]. specialize (Hlast ltac:(lia)). lia.
  - intros ?; simplify_eq. exists 0%nat. rewrite app_nil_r.
    split_and!; [done|lia|lia].
Qed.

(** X5. Batch [j] of a chunking holds the records at the positions [j * size
    .. (j + 1) * size - 1]; no batch is empty or holds more than [size]
    records, and all batches but the last hold exactly [size]. *)
Theorem X5_chunkArray_batches fuel records size batches :
  0 < size →
  chunkArray fuel records size = Some batches →
  wellChunked size batches
  ∧ ∀ j batch, batches !! j = Some batch →
      batch = take (Z.to_nat size) (drop (j * Z.to_nat size) records).
Proof.
  intros Hs Hrun. unfold chunkArray in Hrun.
  apply chunkLoop_slices in Hrun as (m & -> & Hge & Hlast); [|lia..].
  cbn [app] in *.
  assert (∀ j batch,
            ((λ k : nat, JS.slice records (0 + Z.of_nat k * size)
                           (0 + Z.of_nat k * size + size)) <$> seq 0 m) !! j
            = Some batch →
            (j < m)%nat
            ∧ batch = take (Z.to_nat size) (drop (j * Z.to_nat size) records))
    as Hlook.
  { intros j batch Hj. rewrite list_lookup_fmap in Hj.
    destruct (seq 0 m !! j) as [k|] eqn:Hk; [|done].
    apply lookup_seq in Hk as [-> Hjm]. simpl in Hj. simplify_eq.
    split; [done|]. rewrite slice_forward by lia. do 2 f_equal. nia. }
  split.
  - intros j batch Hj. destruct (Hlook j batch Hj) as [Hjm ->].
    rewrite length_fmap, length_seq, length_take, length_drop.
    specialize (Hlast ltac:(lia)).
    assert (Z.of_nat j * size <= (Z.of_nat m - 1) * size) by nia.
    assert (Z.of_nat (j * Z.to_nat size) = Z.of_nat j * size) as Hjs by nia.
    split_and!; [lia|lia|].
    intros Hnext.
    assert (Z.of_nat j * size + size <= (Z.of_nat m - 1) * size) by nia.
    lia.
  - intros j batch Hj. by destruct (Hlook j batch Hj).
Qed.

Lemma chunkLoop_done fuel array size i result :
  Z.of_nat (length array) <= i →
  chunkLoop (S fuel) array size i result = Some result.
Proof. intros Hi. simpl. by assert ((i <? Z.of_nat (length array)) = false) as -> by lia. Qed.

Lemma chunkLoop_step fuel array size i result :
  (i <? Z.of_nat (length array)) = true →
  chunkLoop (S fuel) array size i result
  = chunkLoop fuel array size (i + size)
      (result ++ [JS.slice array i (i + size)]).
Proof. simpl. by intros ->. Qed.

Lemma wellChunked_tail size (batch : list T) batches :
  wellChunked size (batch :: batches) → wellChunked size batches.
Proof.
  intros H j b Hj. destruct (H (S j) b Hj) as (? & ? & Hfull).
  split_and!; [done..|]. intros ?. apply Hfull. simpl. lia.
Qed.

(** From the end of a prefix [pre], the loop cuts a well-chunked
    sequence of batches back out of its concatenation. *)
Lemma chunkLoop_concat size batches : ∀ (pre : list T) result,
  0 < size → wellChunked size batches →
  chunkLoop (S (length batches)) (pre ++ concat batches) size
            (Z.of_nat (length pre)) result
  = Some (result ++ batches).
Proof.
  induction batches as [|batch batches IH]; intros pre result Hs Hwell.
  - cbn [concat length]. rewrite !app_nil_r. apply chunkLoop_done. lia.
  - destruct (Hwell 0%nat batch eq_refl) as (Hne & Hle & Hfull).
    cbn [length] in *.
    rewrite chunkLoop_step
      by (cbn [concat]; rewrite !length_app; apply Z.ltb_lt; lia).
    assert (JS.slice (pre ++ concat (batch :: batches))
              (Z.of_nat (length pre)) (Z.of_nat (length pre) + size) = batch)
      as ->.
    { rewrite slice_forward by lia. rewrite Nat2Z.id.
      rewrite drop_app_length. cbn [concat].
      destruct batches as [|b' batches'].
      - cbn [concat]. rewrite app_nil_r. apply take_ge. lia.
      - rewrite take_app_length'; [done|]. cbn [length] in Hfull. lia. }
    destruct batches as [|b' batches'].
    + rewrite chunkLoop_done; [done|].
      cbn [concat]. rewrite app_nil_r, length_app. lia.
    + cbn [length] in Hfull.
      replace (Z.of_nat (length pre) + size)
        with (Z.of_nat (length (pre ++ batch)))
        by (rewrite length_app; lia).
      replace (pre ++ concat (batch :: b' :: batches'))
        with ((pre ++ batch) ++ concat (b' :: batches'))
        by (cbn [concat]; by rewrite <-!app_assoc).
      rewrite IH; [by rewrite <-app_assoc|done|].
      by eapply wellChunked_tail.
Qed.

(** X6. Chunking undoes concatenation: a well-chunked sequence of batches is
    what [chunkArray] returns on its concatenation. *)
Theorem X6_chunkArray_concat size (batches : list (list T)) :
  0 < size → wellChunked size batches →
  chunkArray (S (length batches)) (concat batches) size = Some batches.
Proof.
  intros Hs Hwell. unfold chunkArray.
  exact (chunkLoop_concat size batches [] [] Hs Hwell).
Qed.

(** X7. [chunkArray] returns exactly when the size is positive or there is
    nothing to split. *)
Theorem X7_chunkArray_returns_iff records size :
  (∃ fuel batches, chunkArray fuel records size = Some batches)
  ↔ 0 < size ∨ records = [].
Proof.
  split.
  - intros (fuel & batches & Hrun).
    destruct records as [|x records]; [by right|]. left.
    by destruct (chunkArray_Some_inv fuel (x :: records) size batches).
  - intros [Hs| ->].
    + destruct (chunkArray_returns records size Hs) as (batches & Hrun & _).
      exists (S (Z.to_nat (ceilDiv (Z.of_nat (length records)) size))), batches.
      apply Hrun. lia.
    + by exists 1%nat, [].
Qed.

End ChunkShape.

(** ** The records of the CSV reader *)

Section Records.
Context {ops : JSNumberOps}.
Implicit Types (headers lines cells : list string) (item : CatalogItem).


(** Every entry of a filled item was read from the cell under one of the
    headers. *)
Lemma fillItem_Some headers cells key v :
  fillItem headers cells !! key = Some v →
  ∃ j, headers !! j = Some key ∧ v = cellValue (cells !! j).
Proof.
  induction headers as [|h headers IH] using rev_ind; [done|].
  rewrite fillItem_snoc. destruct (decide (h = key)) as [->|Hne].
  - rewrite lookup_insert_eq. intros ?; simplify_eq.
    exists (length headers). split; [|done].
    by rewrite lookup_app_r, Nat.sub_diag by lia.
  - rewrite lookup_insert_ne by done. intros (j & Hj & ->)%IH.
    exists j. split; [|done]. by apply lookup_app_l_Some.
Qed.

Lemma cellValue_defined cell :
  cellValue (Some cell) ≠ VUndefined
  ∧ ∀ n, cellValue (Some cell) = VNumber n → isNaN n = false.
Proof.
  unfold cellValue. cbn [fmap option_fmap option_map].
  destruct (isNaN (Number (JS.trim cell))) eqn:Hnan; cbn [negb andb].
  - done.
  - destruct (negb _); [|done]. split; [done|]. by intros n [= <-].
Qed.

(** The records of [parseCSV]: the lines after the header that have as
    many fields as it, each filled in under the header and given its
    id. *)
Lemma parseCSV_kept csvText :
  let lines := JS.split "010" (JS.trim csvText) in
  let headers := JS.trim <$> JS.split "," (lines !!! 0%nat) in
  parseCSV csvText
  = (λ i, ensureId (fillItem headers (JS.split "," (lines !!! i))) i)
    <$> filter (λ i, length (JS.split "," (lines !!! i)) = length headers)
               (seq 1 (length lines - 1)).
Proof.
  intros lines headers. unfold parseCSV. fold lines. fold headers.
  destruct (length lines <? 2)%nat eqn:Hshort.
  - apply Nat.ltb_lt in Hshort.
    replace (length lines - 1)%nat with 0%nat by
      (destruct lines as [|? [|? ?]]; simpl in *; lia).
    done.
  - by rewrite parseRows_spec.
Qed.


(** X9. No record holds [undefined] or [NaN]: every value is a string or a
    number that is one. *)
Theorem X9_parseCSV_values csvText item key v :
  item ∈ parseCSV csvText → item !! key = Some v →
  v ≠ VUndefined ∧ ∀ n, v = VNumber n → isNaN n = false.
Proof.
  rewrite parseCSV_kept.
  intros (i & -> & [Hlen _]%list_elem_of_filter)%list_elem_of_fmap Hv.
  set (lines := JS.split "010" (JS.trim csvText)) in *.
  set (headers := JS.trim <$> JS.split "," (lines !!! 0%nat)) in *.
  set (cells := JS.split "," (lines !!! i)) in *.
  assert (∀ k w, fillItem headers cells !! k = Some w →
                 w ≠ VUndefined ∧ ∀ n, w = VNumber n → isNaN n = false)
    as Hfill.
  { intros k w (j & Hj & ->)%fillItem_Some.
    apply lookup_lt_Some in Hj. rewrite <-Hlen in Hj.
    destruct (lookup_lt_is_Some_2 cells j Hj) as [cell ->].
    apply cellValue_defined. }
  destruct (decide (key = "id")) as [->|Hne].
  - rewrite ensureId_lookup in Hv. simplify_eq.
    destruct (fillItem headers cells !! "id") as [w|] eqn:Hw; [|done].
    destruct (toBoolean w); [by apply (Hfill "id")|done].
  - unfold ensureId in Hv. rewrite lookup_insert_ne in Hv by done.
    by apply (Hfill key).
Qed.

Lemma length_filter_eq {A} (P : A → Prop) `{∀ x, Decision (P x)} (l : list A) :
  length (filter P l) = length l ↔ Forall P l.
Proof.
  induction l as [|x l IH]; [done|].
  rewrite filter_cons, Forall_cons. destruct (decide (P x)) as [Hx|Hx].
  - simpl. rewrite <-IH. split; [intros [= ?]; by split|intros [_ ->]; done].
  - pose proof (length_filter P l). split; [simpl; lia|]. by intros [? _].
Qed.

(** X10. [parseCSV] returns at most one record for each line after the
    header, and one for each of them exactly when every such line has as
    many fields as the header. *)
Theorem X10_parseCSV_length csvText :
  let lines := JS.split "010" (JS.trim csvText) in
  let headers := JS.split "," (lines !!! 0%nat) in
  (length (parseCSV csvText) <= length lines - 1)%nat
  ∧ (length (parseCSV csvText) = (length lines - 1)%nat
     ↔ ∀ i, (1 <= i < length lines)%nat →
            length (JS.split "," (lines !!! i)) = length headers).
Proof.
  intros lines headers. rewrite parseCSV_kept. fold lines.
  rewrite length_fmap. split.
  - etrans; [apply length_filter|]. by rewrite length_seq.
  - pose proof (length_filter_eq
        (λ i, length (JS.split "," (lines !!! i))
              = length (JS.trim <$> JS.split "," (lines !!! 0%nat)))
        (seq 1 (length lines - 1))) as Hiff.
    rewrite length_seq in Hiff. rewrite Hiff, Forall_forall. unfold headers.
    setoid_rewrite length_fmap. split.
    + intros H i Hi. apply H. apply elem_of_seq. lia.
    + intros H i Hi%elem_of_seq. apply H. lia.
Qed.

End Records.

(** ** The simulated capabilities *)

Lemma decide_iff_true (P : Prop) `{Decision P} (b : bool) :
  bool_decide P = b → (P ↔ b = true).
Proof. intros <-. by rewrite bool_decide_eq_true. Qed.

Lemma decide_iff_false (P : Prop) `{Decision P} (b : bool) :
  bool_decide P = negb b → (P ↔ b = false).
Proof.
  intros Hb. rewrite <-(bool_decide_eq_true P), Hb. by destruct b.
Qed.


Section Mock.
Context {ops : JSNumberOps}.
Variable env : Env.
Implicit Types (s : AppState) (t : list Effect).

(** The verdict of the simulated login and the levels of the entries it
    logs, in order. *)
Lemma simulateLogin_levels user password scenario s :
  runs (simulateLogin user password scenario) s (λ ok t,
    ok = negb (bool_decide (scenario = Scenario.ERROR_VPN))
         && negb (bool_decide (scenario = Scenario.ERROR_AUTH))
         && negb (JS.includes user "error")
         && negb (isInvalidPassword password)
    ∧ logsOnly t = true
    ∧ level <$> entriesOf t
      = if decide (scenario = Scenario.ERROR_VPN)
        then [LogLevel.INFO; LogLevel.ERROR; LogLevel.ERROR]
        else [LogLevel.INFO; LogLevel.INFO]
             ++ (if ok then [LogLevel.SUCCESS]
                 else [LogLevel.ERROR; LogLevel.SYSTEM])).
Proof.
  unfold simulateLogin.
  destruct (decide (scenario = Scenario.ERROR_VPN)) as [->|Hvpn].
  - run_steps. by cbn.
  - rewrite (bool_decide_eq_false_2 _ Hvpn). cbn [negb andb].
    run_steps.
    destruct (bool_decide (scenario = Scenario.ERROR_AUTH));
      destruct (JS.includes user "error");
      destruct (isInvalidPassword password); cbn [negb andb orb];
      run_steps; by cbn.
Qed.

(** X11. The simulated login succeeds exactly when the scenario forces
    neither the VPN nor the authentication failure, the user name does not
    contain [error], and the password passes the validity test. It only
    writes to the log; a Success entry is logged exactly when it succeeds,
    an Error entry exactly when it fails, and a Warning never. *)
Theorem X11_simulateLogin_outcome user password scenario s :
  runs (simulateLogin user password scenario) s (λ ok t,
    ok = negb (bool_decide (scenario = Scenario.ERROR_VPN))
         && negb (bool_decide (scenario = Scenario.ERROR_AUTH))
         && negb (JS.includes user "error")
         && negb (isInvalidPassword password)
    ∧ logsOnly t = true
    ∧ (LogLevel.SUCCESS ∈ level <$> entriesOf t ↔ ok = true)
    ∧ (LogLevel.ERROR ∈ level <$> entriesOf t ↔ ok = false)
    ∧ LogLevel.WARNING ∉ level <$> entriesOf t).
Proof.
  eapply runs_mono; [apply simulateLogin_levels|].
  intros ok t (Hok & Hlogs & ->). split; [done|]. split; [done|].
  destruct (decide (scenario = Scenario.ERROR_VPN)) as [Hvpn|Hvpn].
  - assert (ok = false) as Hfalse
      by (rewrite Hok; by rewrite bool_decide_eq_true_2).
    clear Hok. subst ok.
    split_and!; [by refine (decide_iff_true _ _ _)
                |by refine (decide_iff_false _ _ _)
                |by apply (bool_decide_unpack _)].
  - clear Hok. destruct ok; cbn [app];
      (split_and!; [by refine (decide_iff_true _ _ _)
                   |by refine (decide_iff_false _ _ _)
                   |by apply (bool_decide_unpack _)]).
Qed.


(** X13. The simulated upload of a batch fails exactly under the upload
    scenario or on a random failure. It only writes to the log; every entry
    carries the tag of the batch and none has a screenshot; a success logs
    six entries, none of them an Error, a failure eight, two of them Errors. *)
Theorem X13_simulateUploadBatch_outcome batchId recordCount scenario s :
  runs (simulateUploadBatch env batchId recordCount scenario) s (λ ok t,
    ok = negb (bool_decide (scenario = Scenario.ERROR_UPLOAD)
               || randomFailure env batchId)
    ∧ logsOnly t = true
    ∧ Forall (λ e, step e = batchTag batchId ∧ hasScreenshot e = false)
             (entriesOf t)
    ∧ length (entriesOf t) = (if ok then 6 else 8)%nat
    ∧ length (errorEntries (entriesOf t)) = (if ok then 0 else 2)%nat).
Proof.
  unfold simulateUploadBatch.
  destruct (bool_decide (scenario = Scenario.ERROR_UPLOAD)
            || randomFailure env batchId);
    run_steps; cbn; (split_and!; [done|done| |done|done]);
    repeat constructor.
Qed.

End Mock.

(** ** Runs of the orchestrator *)

Section Blind.
Context {ops : JSNumberOps}.
Implicit Types (s : AppState) (t : list Effect).

Lemma stopRef_replay s1 s2 t :
  stopRef s1 = stopRef s2 → stopRef (replay s1 t) = stopRef (replay s2 t).
Proof.
  revert s1 s2. induction t as [|e t IH]; intros s1 s2 H; [done|].
  rewrite !replay_cons. apply IH. by destruct e.
Qed.

Lemma stateBlind_ret {A} (a : A) : stateBlind (ret a).
Proof. done. Qed.

Lemma stateBlind_emit e : stateBlind (emit e).
Proof. done. Qed.

Lemma stateBlind_addLog msg lvl tag shot : stateBlind (addLog msg lvl tag shot).
Proof. done. Qed.

Lemma stateBlind_delay ms : stateBlind (delay ms).
Proof. done. Qed.

Lemma stateBlind_readStopRef : stateBlind readStopRef.
Proof. intros s1 s2 H. unfold readStopRef. by rewrite H. Qed.

Lemma stateBlind_fromFuel {A} (o : option A) : stateBlind (fromFuel o).
Proof. done. Qed.

Lemma stateBlind_bind {A B} (m : M A) (k : A → M B) :
  stateBlind m → (∀ a, stateBlind (k a)) → stateBlind (bind m k).
Proof.
  intros Hm Hk s1 s2 H. unfold bind. rewrite (Hm s1 s2 H).
  destruct (m s2) as [[a t1]|]; [|done].
  by rewrite (Hk a (replay s1 t1) (replay s2 t1) (stopRef_replay _ _ _ H)).
Qed.

Lemma bind_Some {A B} (m : M A) (k : A → M B) s b t :
  bind m k s = Some (b, t) →
  ∃ a t1 t2, m s = Some (a, t1) ∧ k a (replay s t1) = Some (b, t2)
             ∧ t = t1 ++ t2.
Proof.
  unfold bind. destruct (m s) as [[a t1]|]; [|done].
  destruct (k a (replay s t1)) as [[b' t2]|] eqn:Hk; [|done].
  intros ?; simplify_eq. by exists a, t1, t2.
Qed.

Lemma emitsOnly_ret {A} P (a : A) : emitsOnly P (ret a).
Proof. intros s a' t [= _ <-]. done. Qed.

Lemma emitsOnly_emit P e : P e = true → emitsOnly P (emit e).
Proof. intros He s a t [= _ <-]. simpl. by rewrite He. Qed.

Lemma emitsOnly_readStopRef P : emitsOnly P readStopRef.
Proof. intros s a t [= _ <-]. done. Qed.

Lemma emitsOnly_fromFuel {A} P (o : option A) : emitsOnly P (fromFuel o).
Proof. intros s a t. unfold fromFuel. by destruct o; intros [= _ <-]. Qed.

Lemma emitsOnly_bind {A B} P (m : M A) (k : A → M B) :
  emitsOnly P m → (∀ a, emitsOnly P (k a)) → emitsOnly P (bind m k).
Proof.
  intros Hm Hk s b t (a & t1 & t2 & H1 & H2 & ->)%bind_Some.
  rewrite forallb_app, (Hm _ _ _ H1), (Hk _ _ _ _ H2). done.
Qed.

End Blind.

(** Decomposes a statement on a computation along its structure. *)
Ltac blind_step :=
  lazymatch goal with
  | |- stateBlind (bind _ _) => apply stateBlind_bind; [|intros ?]
  | |- stateBlind (addLog _ _ _ _) => apply stateBlind_addLog
  | |- stateBlind (emit _) => apply stateBlind_emit
  | |- stateBlind (delay _) => apply stateBlind_delay
  | |- stateBlind readStopRef => apply stateBlind_readStopRef
  | |- stateBlind (fromFuel _) => apply stateBlind_fromFuel
  | |- stateBlind (ret _) => apply stateBlind_ret
  | |- stateBlind (if _ then _ else _) => case_match
  | |- emitsOnly _ (bind _ _) => apply emitsOnly_bind; [|intros ?]
  | |- emitsOnly _ (addLog _ _ _ _) => by apply emitsOnly_emit
  | |- emitsOnly _ (emit _) => by apply emitsOnly_emit
  | |- emitsOnly _ (delay _) => apply emitsOnly_ret
  | |- emitsOnly _ readStopRef => apply emitsOnly_readStopRef
  | |- emitsOnly _ (fromFuel _) => apply emitsOnly_fromFuel
  | |- emitsOnly _ (ret _) => apply emitsOnly_ret
  | |- emitsOnly _ (if _ then _ else _) => case_match
  end.

Section FreshStart.
Context {ops : JSNumberOps}.
Variable env : Env.
Implicit Types (s : AppState) (t : list Effect) (config : AutomationConfig).

Lemma stateBlind_awaiting {A} ph (m : M A) :
  stateBlind m → stateBlind (awaiting env ph m).
Proof. intros Hm. unfold awaiting, handleStop. repeat blind_step; done. Qed.

Lemma stateBlind_call {A} c ph (m : M A) :
  stateBlind m → stateBlind (call env c ph m).
Proof. intros Hm. unfold call. blind_step; [blind_step|]. by apply stateBlind_awaiting. Qed.

Lemma stateBlind_simulateLogin user password scenario :
  stateBlind (simulateLogin user password scenario).
Proof. unfold simulateLogin. repeat (blind_step || case_decide). Qed.

Lemma stateBlind_simulateNavigation : stateBlind simulateNavigation.
Proof. unfold simulateNavigation. repeat blind_step. Qed.

Lemma stateBlind_simulateUploadBatch batchId recordCount scenario :
  stateBlind (simulateUploadBatch env batchId recordCount scenario).
Proof. unfold simulateUploadBatch. repeat blind_step. Qed.

Lemma stateBlind_batchLoop scenario batches n : ∀ i pt,
  stateBlind (batchLoop env scenario batches n i pt).
Proof.
  induction n as [|n IH]; intros i pt; cbn [batchLoop].
  - repeat blind_step.
  - blind_step; [blind_step|]. blind_step; [repeat blind_step|].
    blind_step.
    { apply stateBlind_call, stateBlind_simulateUploadBatch. }
    blind_step; [blind_step|]. blind_step; [|apply IH].
    blind_step; [|blind_step]. blind_step; [blind_step|].
    apply stateBlind_awaiting. blind_step.
Qed.

(** After the stop flag is cleared nothing of the earlier state is left
    to look at. *)
Lemma blind_after_reset (k : M unit) s1 s2 :
  stateBlind k →
  (emit (SetLogs []) ;; emit (SetStatus JobStatus.RUNNING) ;;
   emit (SetStopRef false) ;; k) s1
  = (emit (SetLogs []) ;; emit (SetStatus JobStatus.RUNNING) ;;
     emit (SetStopRef false) ;; k) s2.
Proof.
  intros Hk. unfold bind, emit. cbn [replay foldl applyEffect app].
  by rewrite (Hk _ {| status := JobStatus.RUNNING; logs := [];
                      stats := stats s2; stopRef := false |}).
Qed.

(** A run does not look at the state it starts in. *)
Lemma runAutomation_blind fuel config password rawData s1 s2 :
  runAutomation env fuel config password rawData s1
  = runAutomation env fuel config password rawData s2.
Proof.
  unfold runAutomation.
  repeat case_match; try reflexivity.
  apply blind_after_reset.
  do 7 (blind_step; [blind_step|]).
  blind_step; [blind_step|].
  blind_step; [by apply stateBlind_call, stateBlind_simulateLogin|].
  blind_step; [blind_step|].
  blind_step; [blind_step|]. blind_step; [blind_step|].
  blind_step; [by apply stateBlind_call, stateBlind_simulateNavigation|].
  apply stateBlind_batchLoop.
Qed.

(** A simulated run that passed the precondition checks and returned
    has split the records and has one of the three shapes. *)
Lemma runAutomation_shape_inv fuel config password rawData s t :
  electronAPI env = false →
  username config ≠ EmptyString → password ≠ EmptyString →
  parseCSV rawData ≠ [] →
  runAutomation env fuel config password rawData s = Some (tt, t) →
  ∃ batches,
    chunkArray fuel (parseCSV rawData) (batchSize config) = Some batches
    ∧ concat batches = parseCSV rawData
    ∧ 0 < batchSize config
    ∧ simulationShape env config password
        (Z.of_nat (length (parseCSV rawData))) batches s t.
Proof.
  intros Hel Hu Hp Hd Hrun.
  destruct (chunkArray fuel (parseCSV rawData) (batchSize config))
    as [batches|] eqn:Hchunk.
  - destruct (chunkArray_Some_inv _ _ _ _ Hd Hchunk) as [Hsize Hcat].
    exists batches. split_and!; [done..|].
    exact (runs_det _ _ _ _ _ Hrun
             (runAutomation_simulation env fuel config password rawData
                batches s Hel Hu Hp Hd Hchunk Hcat)).
  - by rewrite runAutomation_hangs_in_chunkArray in Hrun.
Qed.

(** X14. A run starts from a clean slate. Its effects do not depend on the
    state it is started in: a log, statistics or status left by an earlier
    run, or a stop flag still set from an earlier press, change nothing.
    When the run passes the precondition checks, the status, log and
    statistics it ends with (and, in the browser, the stop flag) are the
    same from every starting state. *)
Theorem X14_runAutomation_fresh_start fuel config password rawData s1 s2 :
  runAutomation env fuel config password rawData s1
  = runAutomation env fuel config password rawData s2
  ∧ (username config ≠ EmptyString → password ≠ EmptyString →
     parseCSV rawData ≠ [] →
     ∀ t, runAutomation env fuel config password rawData s1 = Some (tt, t) →
       status (replay s1 t) = status (replay s2 t)
       ∧ logs (replay s1 t) = logs (replay s2 t)
       ∧ stats (replay s1 t) = stats (replay s2 t)
       ∧ (electronAPI env = false →
          stopRef (replay s1 t) = stopRef (replay s2 t))).
Proof.
  split; [apply runAutomation_blind|].
  intros Hu Hp Hd t Hrun.
  destruct (electronAPI env) eqn:Hel.
  - pose proof (runs_det _ _ _ _ _ Hrun
                  (runAutomation_electron env fuel config password rawData
                     s1 Hel Hu Hp Hd)) as (l1 & H1 & ->).
    simpl_replay. by split_and!.
  - destruct (runAutomation_shape_inv fuel config password rawData s1 t)
      as (batches & _ & _ & _ & Hshape); [done..|].
    destruct Hshape as (l1 & l2 & tlogin & ok & H1 & H2 & _ & Hlogin & Hcases).
    pose proof (runs_det _ _ _ _ _ (Hlogin s1)
                  (simulateLogin_spec _ _ _ s1)) as (H3 & _).
    assert (replay s1 t = replay s2 t) as ->; [|done].
    destruct Hcases as [[_ ->]|[(_ & _ & ->)|(_ & _ & Hloop)]].
    + by rewrite !replay_snoc, !replay_simulationHead.
    + by rewrite !replay_simulationHead.
    + destruct Hloop as (tnav & tloop & H4 & -> & _).
      by rewrite !replay_app, !replay_simulationNav.
Qed.

Lemma emitsOnly_awaiting {A} P ph (m : M A) :
  P (SetStopRef true) = true → emitsOnly P m → emitsOnly P (awaiting env ph m).
Proof. intros HP Hm. unfold awaiting, handleStop. repeat blind_step; done. Qed.

Lemma emitsOnly_call {A} P c ph (m : M A) :
  P (Invoke c) = true → P (SetStopRef true) = true →
  emitsOnly P m → emitsOnly P (call env c ph m).
Proof.
  intros Hc HP Hm. unfold call. blind_step; [blind_step|].
  by apply emitsOnly_awaiting.
Qed.

Lemma keepsLog_batchLoop scenario batches n : ∀ i pt,
  emitsOnly keepsLog (batchLoop env scenario batches n i pt).
Proof.
  induction n as [|n IH]; intros i pt; cbn [batchLoop].
  - repeat blind_step.
  - blind_step; [blind_step|]. blind_step; [repeat blind_step|].
    blind_step.
    { apply emitsOnly_call; [done..|]. unfold simulateUploadBatch.
      repeat blind_step. }
    blind_step; [blind_step|]. blind_step; [|apply IH].
    blind_step; [|blind_step]. blind_step; [blind_step|].
    apply emitsOnly_awaiting; [done|]. blind_step.
Qed.

(** Only the first effect of a run can replace the log. *)
Lemma runAutomation_keepsLog fuel config password rawData s t :
  runAutomation env fuel config password rawData s = Some (tt, t) →
  forallb keepsLog (tail t) = true.
Proof.
  unfold runAutomation.
  repeat case_match; try (by intros [= <-]).
  intros (a & t1 & t2 & [= _ <-] & Hk & ->)%bind_Some. cbn [app tail].
  cbn beta in Hk.
  match type of Hk with ?m ?s' = _ =>
    assert (emitsOnly keepsLog m) as Hm; [|exact (Hm _ _ _ Hk)] end.
    do 9 (blind_step; [blind_step|]).
    blind_step; [blind_step|].
    blind_step.
    { apply emitsOnly_call; [done..|]. unfold simulateLogin.
      repeat (blind_step || case_decide). }
    blind_step; [blind_step|].
    blind_step; [blind_step|]. blind_step; [blind_step|].
    blind_step.
    { apply emitsOnly_call; [done..|]. unfold simulateNavigation.
      repeat blind_step. }
    apply keepsLog_batchLoop.
Qed.

Lemma logs_replay_keepsLog s t :
  forallb keepsLog t = true → logs (replay s t) = logs s ++ entriesOf t.
Proof.
  revert s. induction t as [|e t IH]; intros s.
  - intros _. by rewrite app_nil_r.
  - cbn [forallb]. intros [He Ht]%andb_true_iff.
    rewrite replay_cons, IH by done.
    destruct e; try done. simpl. by rewrite <-app_assoc.
Qed.

Lemma forallb_take {A} (P : A → bool) n (l : list A) :
  forallb P l = true → forallb P (take n l) = true.
Proof.
  rewrite <-(take_drop n l) at 1. rewrite forallb_app.
  by intros [? _]%andb_true_iff.
Qed.

Lemma forallb_drop {A} (P : A → bool) n (l : list A) :
  forallb P l = true → forallb P (drop n l) = true.
Proof.
  rewrite <-(take_drop n l) at 1. rewrite forallb_app.
  by intros [_ ?]%andb_true_iff.
Qed.

(** X15. During a run the log only grows. Once the first effect of a run has
    happened, the log at any point of the run is a prefix of the log at
    every later point: no entry is removed or rewritten, whatever the
    environment and the inputs. *)
Theorem X15_runAutomation_log_append_only fuel config password rawData s t :
  runAutomation env fuel config password rawData s = Some (tt, t) →
  ∀ n m, (1 <= n)%nat → (n <= m)%nat →
    logs (replay s (take n t)) `prefix_of` logs (replay s (take m t)).
Proof.
  intros Hrun%runAutomation_keepsLog n m Hn Hnm.
  destruct t as [|e t]; [by rewrite !take_nil|]. cbn [tail] in Hrun.
  destruct n as [|n]; [lia|]. destruct m as [|m]; [lia|].
  cbn [take]. rewrite !replay_cons.
  replace (take m t) with (take n t ++ drop n (take m t)).
  - rewrite replay_app, (logs_replay_keepsLog _ (drop n (take m t))).
    + by eexists.
    + by apply forallb_drop, forallb_take.
  - replace (take n t) with (take n (take m t))
      by (rewrite take_take; f_equal; lia).
    apply take_drop.
Qed.



(** X17. Stop pressed while the login is under way. When the login then
    succeeds, the run returns without a word: the status stays Running, no
    Warning is logged, the statistics stay at their initial values, and
    neither navigation nor any upload is invoked. *)
Theorem X17_runAutomation_stop_during_login config password rawData s :
  electronAPI env = false →
  username config ≠ EmptyString → password ≠ EmptyString →
  parseCSV rawData ≠ [] → 0 < batchSize config →
  loginVerdict config password = true →
  stopDuring env InLogin = true →
  ∃ fuel0, ∀ fuel, (fuel0 <= fuel)%nat →
    runs (runAutomation env fuel config password rawData) s (λ _ t,
      statusChanges t = [JobStatus.RUNNING]
      ∧ status (replay s t) = JobStatus.RUNNING
      ∧ invocations t = [CapLogin]
      ∧ Forall (λ e, level e ≠ LogLevel.WARNING ∧ level e ≠ LogLevel.ERROR)
               (logs (replay s t))
      ∧ stats (replay s t)
        = initialStats (Z.of_nat (length (parseCSV rawData)))
            (ceilDiv (Z.of_nat (length (parseCSV rawData))) (batchSize config))
      ∧ stopRef (replay s t) = true).
Proof.
  intros Hel Hu Hp Hd Hsize Hok Hstop.
  destruct (chunkArray_returns (parseCSV rawData) (batchSize config) Hsize)
    as (batches & Hchunk & Hlen & _).
  exists (enoughFuel config rawData). intros fuel Hfuel.
  destruct (simulateLogin_const (username config) password
              (simulationScenario config)) as (ok & tlogin & Hlogin).
  pose proof (runs_det _ _ _ _ _ (Hlogin s)
                (simulateLogin_levels _ _ _ s))
    as (Hv & Hl & Hlev).
  fold (loginVerdict config password) in Hv. rewrite Hok in Hv. subst ok.
  assert (simulationScenario config ≠ Scenario.ERROR_VPN) as Hvpn.
  { intros Hvpn. unfold loginVerdict in Hok.
    by rewrite (bool_decide_eq_true_2 _ Hvpn) in Hok. }
  rewrite (decide_False (P := _ = Scenario.ERROR_VPN)) in Hlev by done.
  cbn [app] in Hlev.
  unfold runAutomation.
  rewrite (truthy_nonempty _ Hu), (truthy_nonempty _ Hp),
    (parseCSV_nonempty_trim _ Hd), Hel, (length_eqb_0_nonempty _ Hd).
  cbn [negb orb].
  run_steps.
  eapply runs_fromFuel; [apply Hchunk; unfold enoughFuel in Hfuel; lia|].
  run_steps.
  match goal with |- runs (if ?b then _ else _) _ _ =>
    assert (b = false) as -> by (by simpl_replay) end.
  run_step. apply runs_call.
  exists true, tlogin. split; [apply Hlogin|]. cbn [negb].
  run_step. run_step.
  match goal with |- runs (if ?b then _ else _) _ _ =>
    assert (b = true) as -> by (simpl_replay; by rewrite Hstop) end.
  run_step. rewrite Hstop. cbn [stopPress]. rewrite !app_nil_r.
  split_and!.
  - by rewrite !statusChanges_app, (logsOnly_statusChanges _ Hl).
  - simpl_replay. done.
  - by rewrite !invocations_app, (logsOnly_invocations _ Hl).
  - simpl_replay. rewrite !Forall_app. split.
    + repeat constructor; done.
    + apply Forall_forall. intros e He.
      apply (list_elem_of_fmap_2 level) in He. rewrite Hlev in He.
      rewrite !elem_of_cons, elem_of_nil in He.
      split; intros Heq; rewrite Heq in He;
        by destruct He as [?|[?|[?|[]]]].
  - simpl_replay. by rewrite Hlen.
  - simpl_replay. done.
Qed.

Lemma statusChanges_simulationNav total nbatches l1 l2 tlogin tnav :
  logsOnly l1 = true → logsOnly l2 = true → logsOnly tlogin = true →
  logsOnly tnav = true →
  statusChanges (simulationNav env total nbatches l1 l2 tlogin tnav)
  = [JobStatus.RUNNING].
Proof.
  intros H1 H2 H3 H4. unfold simulationNav.
  by rewrite !statusChanges_app, statusChanges_simulationHead,
    (logsOnly_statusChanges _ H4), statusChanges_stopPress.
Qed.

(** Whether the loop leaves through the stop check. *)
Lemma loopExit_seen len n : ∀ i,
  (i + n = len)%nat →
  (loopExit env len n i (stoppedBefore env i)).2
  = existsb (stoppedBefore env) (seq i n).
Proof.
  induction n as [|n IH]; intros i Hlen; [done|].
  cbn [loopExit seq existsb].
  destruct (stoppedBefore env i) eqn:Hi; [done|]. cbn [orb].
  destruct n as [|n]; [done|].
  assert ((Z.of_nat i <? Z.of_nat len - 1) = true) as -> by lia.
  cbn [andb].
  replace (stopDuring env (InUpload i) || stopDuring env (InWait i))
    with (stoppedBefore env (S i))
    by (cbn [stoppedBefore]; by rewrite Hi).
  apply IH. lia.
Qed.

(** X18. The status a simulated run ends with. For a run that passed the
    precondition checks, with a positive batch size: Failed when the login
    is refused; Running (the run returns without touching the status) when
    Stop is pressed during a login that succeeds; Paused when the stop flag
    is found set at the top of an iteration of the batch loop; Completed
    otherwise. In particular a press of Stop during the upload of the last
    batch does not keep the run from completing. A completed run has handed
    every batch to the upload capability and processed every record. *)
Theorem X18_runAutomation_final_status config password rawData s :
  electronAPI env = false →
  username config ≠ EmptyString → password ≠ EmptyString →
  parseCSV rawData ≠ [] → 0 < batchSize config →
  ∃ fuel0 batches, ∀ fuel, (fuel0 <= fuel)%nat →
    chunkArray fuel (parseCSV rawData) (batchSize config) = Some batches
    ∧ runs (runAutomation env fuel config password rawData) s (λ _ t,
        let final := finalStatus env config password (length batches) in
        status (replay s t) = final
        ∧ statusChanges t
          = JobStatus.RUNNING
            :: (if decide (final = JobStatus.RUNNING) then [] else [final])
        ∧ (final = JobStatus.COMPLETED →
           invocations t
           = [CapLogin; CapNavigate] ++ uploadCalls batches 0 (length batches)
           ∧ processedRecords (stats (replay s t))
             = Z.of_nat (length (parseCSV rawData)))).
Proof.
  intros Hel Hu Hp Hd Hsize.
  destruct (runAutomation_simulation_total env config password rawData s)
    as (batches & Hlen & Hcat & Hrun); [done..|].
  exists (enoughFuel config rawData), batches. intros fuel Hfuel.
  destruct (Hrun fuel Hfuel) as [Hchunk Hshape]. split; [done|].
  eapply runs_mono; [exact Hshape|]. clear Hshape.
  intros [] t (l1 & l2 & tlogin & ok & H1 & H2 & Hnoerr & Hlogin & Hcases).
  pose proof (runs_det _ _ _ _ _ (Hlogin s)
                (simulateLogin_levels _ _ _ s)) as (Hok & H3 & _).
  fold (loginVerdict config password) in Hok.
  unfold finalStatus. rewrite <-Hok. cbn zeta.
  destruct Hcases as [[-> ->]|[(-> & Hstop & ->)|(-> & Hstop & Hloop)]];
    cbn [negb].
  - rewrite statusChanges_app, statusChanges_simulationHead by done.
    rewrite replay_snoc. by split_and!.
  - rewrite Hstop, statusChanges_simulationHead,
      replay_simulationHead by done.
    by split_and!.
  - destruct Hloop as (tnav & tloop & H4 & -> & Hloop).
    unfold loopOutcome in Hloop.
    rewrite replay_simulationNav in Hloop by done.
    cbn [stopRef] in Hloop. rewrite Hstop in Hloop |- *. cbn [orb] in Hloop.
    change (stopDuring env InNavigation) with (stoppedBefore env 0) in Hloop.
    pose proof (loopExit_seen (length batches) (length batches) 0 eq_refl)
      as Hseen. fold (stopSeen env (length batches)) in Hseen.
    destruct Hloop as (_ & Hcalls & Hst & Hinv & _ & Hend).
    rewrite Hseen in Hst, Hend.
    rewrite replay_app, status_replay, Hst. cbn [last default].
    rewrite statusChanges_app, statusChanges_simulationNav, Hst by done.
    destruct (stopSeen env (length batches)) eqn:Hs.
    + by split_and!.
    + split_and!; [done..|]. intros _.
      rewrite invocations_app, invocations_simulationNav, Hcalls, Hend by done.
      split; [done|].
      rewrite Hend, firstn_all in Hinv.
      destruct Hinv as (_ & Hproc & _).
      rewrite replay_simulationNav by done. rewrite Hstop. cbn [orb].
      etrans; [exact Hproc|]. by rewrite recordsIn_concat, Hcat.
Qed.

(** X19. A run returns exactly when one of the precondition checks rejects
    it, or it is handed over to the Electron main process, or the batch size
    is positive. A simulated run with a batch size that is not positive
    never gets out of [chunkArray]. *)
Theorem X19_runAutomation_returns_iff config password rawData s :
  (∃ fuel t, runAutomation env fuel config password rawData s = Some (tt, t))
  ↔ username config = EmptyString ∨ password = EmptyString
    ∨ parseCSV rawData = [] ∨ electronAPI env = true
    ∨ 0 < batchSize config.
Proof.
  split.
  - intros (fuel & t & Hrun).
    destruct (decide (username config = EmptyString)) as [|Hu]; [by left|].
    destruct (decide (password = EmptyString)) as [|Hp]; [by right; left|].
    destruct (parseCSV rawData) as [|x l] eqn:Hd; [by right; right; left|].
    destruct (electronAPI env) eqn:Hel; [by right; right; right; left|].
    destruct (Z.le_gt_cases (batchSize config) 0) as [Hle|Hpos];
      [|right; right; right; right; lia].
    rewrite runAutomation_nonpositive_size_hangs in Hrun; try done.
    by rewrite Hd.
  - intros Hcases.
    destruct (decide (username config = EmptyString)) as [Hu|Hu].
    { destruct (runAutomation_rejects env 0 config password rawData s)
        as (msg & Hrun & _); [by left|]. by eexists 0%nat, _. }
    destruct (decide (password = EmptyString)) as [Hp|Hp].
    { destruct (runAutomation_rejects env 0 config password rawData s)
        as (msg & Hrun & _); [by right; left|]. by eexists 0%nat, _. }
    destruct (decide (parseCSV rawData = [])) as [Hd|Hd].
    { destruct (runAutomation_rejects env 0 config password rawData s)
        as (msg & Hrun & _); [by right; right|]. by eexists 0%nat, _. }
    destruct (electronAPI env) eqn:Hel.
    { destruct (runAutomation_electron env 0 config password rawData s)
        as ([] & t & Hrun & _); [done..|]. by exists 0%nat, t. }
    destruct Hcases as [?|[?|[?|[?|Hsize]]]]; [done..|].
    destruct (runAutomation_simulation_total env config password rawData s)
      as (batches & _ & _ & Hrun); [done..|].
    destruct (Hrun (enoughFuel config rawData) ltac:(lia))
      as [_ ([] & t & Ht & _)].
    by eexists _, t.
Qed.

(** X20. A start that a precondition check rejects. The checks are made in a
    fixed order (credentials, raw text, parsed records) and the first that
    fails raises its alert; nothing else happens: the component state is
    what it was, no capability is invoked and no job is handed over, in the
    browser as under Electron and whatever the batch size. *)
Theorem X20_runAutomation_rejections fuel config password rawData s :
  (username config = EmptyString ∨ password = EmptyString →
   runAutomation env fuel config password rawData s
   = Some (tt, [Alert "Please enter credentials first."]))
  ∧ (username config ≠ EmptyString → password ≠ EmptyString →
     JS.trim rawData = EmptyString →
     runAutomation env fuel config password rawData s
     = Some (tt, [Alert "Please load or enter data to process."]))
  ∧ (username config ≠ EmptyString → password ≠ EmptyString →
     JS.trim rawData ≠ EmptyString → parseCSV rawData = [] →
     runAutomation env fuel config password rawData s
     = Some (tt, [Alert "No valid data found."]))
  ∧ ∀ msg, replay s [Alert msg] = s.
Proof.
  unfold runAutomation. split_and!.
  - intros [-> | ->]; [done|]. by rewrite orb_true_r.
  - intros Hu Hp ->.
    by rewrite (truthy_nonempty _ Hu), (truthy_nonempty _ Hp).
  - intros Hu Hp Hraw ->.
    by rewrite (truthy_nonempty _ Hu), (truthy_nonempty _ Hp),
      (truthy_nonempty _ Hraw).
  - done.
Qed.

End FreshStart.

(** ** Fetching the sheet *)

Section Fetching.
Variable fetch : string → FetchOutcome.
Implicit Types (sheetUrl : string).

(** X21. An address that [parseGoogleSheetUrl] does not accept is turned
    down without a request: nothing is fetched, the raw data is left alone
    and no timer is set; one Error entry is logged, and the fetching
    indicator is switched on and off again. An empty address does nothing at
    all. *)
Theorem X21_handleFetchSheet_invalid sheetUrl :
  parseGoogleSheetUrl sheetUrl = None →
  let '(now, later) := handleFetchSheet fetch sheetUrl in
  requests now = [] ∧ rawDataSet now = [] ∧ later = []
  ∧ (sheetUrl = EmptyString → now = [])
  ∧ (sheetUrl ≠ EmptyString →
     fetchingSet now = [true; false]
     ∧ level <$> fetchEntries now = [LogLevel.INFO; LogLevel.ERROR]).
Proof.
  intros Hparse. unfold handleFetchSheet. rewrite Hparse.
  destruct sheetUrl; by cbn.
Qed.

(** X22. The one request of a fetch. For an address that is accepted,
    exactly one request is made; it goes to the export address built from
    the identifier and the sheet number read from the given address, and
    that export address, parsed again, names the same sheet. *)
Theorem X22_handleFetchSheet_request sheetUrl details :
  parseGoogleSheetUrl sheetUrl = Some details →
  let exportUrl :=
    constructCsvExportUrl (SheetDetails.id details) (SheetDetails.gid details) in
  requests (handleFetchSheet fetch sheetUrl).1 = [exportUrl]
  ∧ requests (handleFetchSheet fetch sheetUrl).2 = []
  ∧ parseGoogleSheetUrl exportUrl = Some details.
Proof.
  intros Hparse exportUrl.
  assert (sheetUrl ≠ EmptyString) as Hne by (by intros ->).
  split_and!.
  - unfold handleFetchSheet. rewrite Hparse, (truthy_nonempty _ Hne).
    fold exportUrl. cbn [negb].
    destruct (fetch exportUrl) as [|[] code [text|]]; reflexivity.
  - unfold handleFetchSheet. rewrite Hparse, (truthy_nonempty _ Hne).
    fold exportUrl. cbn [negb].
    destruct (fetch exportUrl) as [|[] code [text|]]; reflexivity.
  - destruct (parseGoogleSheetUrl_Some _ _ Hparse) as [Hidm Hgid].
    apply idMatch_wf in Hidm as (Hid & Hidc & _).
    unfold exportUrl, parseGoogleSheetUrl.
    rewrite idMatch_export by done.
    rewrite (truthy_nonempty _ Hid).
    destruct (firstMatch gidPattern sheetUrl) as [g|] eqn:Hg; simpl in Hgid.
    + apply gidMatch_wf in Hg as (Hgne & Hgc & _). rewrite <-Hgid in Hgne, Hgc.
      rewrite gidMatch_export by done. by destruct details.
    + rewrite Hgid, gidMatch_export by done. rewrite <-Hgid.
      by destruct details.
Qed.

(** X23. How a fetch ends. For an address that is accepted, the fetching
    indicator is switched on first and off last, in the handler itself,
    whatever the answer. When the response is [ok] and its text can be read,
    that text becomes the raw data and a Success entry is logged; in every
    other case a Warning is logged and the demonstration data becomes the
    raw data a second later. The raw data is set exactly once. *)
Theorem X23_handleFetchSheet_outcome sheetUrl details :
  parseGoogleSheetUrl sheetUrl = Some details →
  let exportUrl :=
    constructCsvExportUrl (SheetDetails.id details) (SheetDetails.gid details) in
  let '(now, later) := handleFetchSheet fetch sheetUrl in
  head now = Some (SetIsFetching true)
  ∧ last now = Some (SetIsFetching false)
  ∧ fetchingSet now = [true; false] ∧ fetchingSet later = []
  ∧ match fetched (fetch exportUrl) with
    | Some text =>
        rawDataSet now = [text] ∧ later = []
        ∧ level <$> fetchEntries now
          = [LogLevel.INFO; LogLevel.SYSTEM; LogLevel.SUCCESS]
    | None =>
        rawDataSet now = [] ∧ rawDataSet later = [DEMO_CSV_DATA]
        ∧ level <$> fetchEntries now
          = [LogLevel.INFO; LogLevel.SYSTEM; LogLevel.WARNING]
        ∧ level <$> fetchEntries later = [LogLevel.INFO]
    end.
Proof.
  intros Hparse exportUrl.
  assert (sheetUrl ≠ EmptyString) as Hne by (by intros ->).
  unfold handleFetchSheet. rewrite Hparse, (truthy_nonempty _ Hne).
  fold exportUrl. cbn [negb].
  destruct (fetch exportUrl) as [|[] code [text|]]; by cbn.
Qed.

End Fetching.

(** ** The Electron main process *)

Lemma mathCeilDiv_ceilDiv n d : 0 < d → mathCeilDiv n d = ceilDiv n d.
Proof.
  intros Hd. unfold mathCeilDiv, ceilDiv.
  pose proof (Z.div_mod (- n) d ltac:(lia)) as H1.
  pose proof (Z.mod_pos_bound (- n) d Hd) as H2.
  apply (Z.div_unique_pos _ _ _ (d - 1 - (- n) mod d)); lia.
Qed.

Section Messages.
Implicit Types (msgs : list IpcMessage).

Lemma statusesOf_app msgs1 msgs2 :
  statusesOf (msgs1 ++ msgs2) = statusesOf msgs1 ++ statusesOf msgs2.
Proof. apply omap_app. Qed.

Lemma statsOf_app msgs1 msgs2 :
  statsOf (msgs1 ++ msgs2) = statsOf msgs1 ++ statsOf msgs2.
Proof. apply omap_app. Qed.

Lemma logsOf_app msgs1 msgs2 :
  logsOf (msgs1 ++ msgs2) = logsOf msgs1 ++ logsOf msgs2.
Proof. apply omap_app. Qed.

Lemma entriesAt_app lvl l1 l2 :
  entriesAt lvl (l1 ++ l2) = entriesAt lvl l1 ++ entriesAt lvl l2.
Proof. apply filter_app. Qed.

End Messages.

(** The number of batches of a chunking that returned. *)
Lemma chunkArray_length {T} fuel (records : list T) size batches :
  0 < size →
  chunkArray fuel records size = Some batches →
  Z.of_nat (length batches) = ceilDiv (Z.of_nat (length records)) size.
Proof.
  intros Hs Hrun.
  destruct (chunkArray_returns records size Hs) as (batches' & Hret & Hlen & _).
  set (big := S (Nat.max fuel
                   (Z.to_nat (ceilDiv (Z.of_nat (length records)) size)))).
  assert (chunkArray big records size = Some batches) as Hbig.
  { eapply chunkLoop_fuel_mono; [|exact Hrun]. unfold big. lia. }
  rewrite Hret in Hbig by (unfold big; lia). by simplify_eq.
Qed.

(** The batch of iteration [i], for a positive size. *)
Lemma batch_slice {T} (data : list T) (size : Z) (i : nat) :
  0 < size →
  JS.slice data (Z.of_nat i * size) ((Z.of_nat i + 1) * size)
  = take (Z.to_nat size) (drop (i * Z.to_nat size) data).
Proof.
  intros Hs.
  replace ((Z.of_nat i + 1) * size) with (Z.of_nat i * size + size) by lia.
  rewrite slice_forward by lia. do 2 f_equal. nia.
Qed.

Lemma length_batch_slice {T} (data : list T) (size : Z) (i : nat) :
  0 < size →
  Z.min (Z.of_nat i * size) (Z.of_nat (length data))
  + Z.of_nat (length (JS.slice data (Z.of_nat i * size)
                               ((Z.of_nat i + 1) * size)))
  = Z.min ((Z.of_nat i + 1) * size) (Z.of_nat (length data)).
Proof.
  intros Hs. rewrite batch_slice by done.
  rewrite length_take, length_drop. nia.
Qed.

Section MainRuns.
Context {ops : JSNumberOps}.
Variable menv : MainEnv.
Implicit Types (data : list CatalogItem) (msgs out : list IpcMessage).

(** X24. The two executors cut the same batches. For a positive batch size,
    the number of batches the main process computes is the number of batches
    [chunkArray] returns, and the batch it slices out in iteration [i] is
    batch [i] of [chunkArray]. *)
Theorem X24_main_batches_are_chunks fuel data size batches :
  0 < size →
  chunkArray fuel data size = Some batches →
  mathCeilQuot (Z.of_nat (length data)) size
  = Finite (Z.of_nat (length batches))
  ∧ ∀ i batch, batches !! i = Some batch →
      JS.slice data (Z.of_nat i * size) ((Z.of_nat i + 1) * size) = batch.
Proof.
  intros Hs Hrun. split.
  - unfold mathCeilQuot. assert ((size =? 0) = false) as -> by lia.
    rewrite mathCeilDiv_ceilDiv by done.
    by rewrite (chunkArray_length fuel data size batches).
  - intros i batch Hi. unfold chunkArray in Hrun.
    apply chunkLoop_slices in Hrun as (m & -> & _); [|lia..].
    cbn [app] in Hi. rewrite list_lookup_fmap in Hi.
    destruct (seq 0 m !! i) as [k|] eqn:Hk; [|done].
    apply lookup_seq in Hk as [-> _]. simpl in Hi. simplify_eq.
    f_equal; lia.
Qed.

(** *** The batch loop of the main process *)

Lemma jobExit_range n : ∀ i st,
  (i <= (jobExit menv n i st).1 <= i + n)%nat.
Proof.
  induction n as [|n IH]; intros i st; simpl; [lia|].
  destruct st; simpl; [lia|].
  specialize (IH (S i) (stopJobIn menv (BatchWork i))). lia.
Qed.

(** With the window open and no batch work that throws, the loop goes
    on to its exit index: it sends the statistics of each batch it has
    worked on, no status, no Error entry, and the Warning of the stop
    when it is left by the [break]. *)
Lemma mainLoop_run data size (nb : nat) :
  0 < size → windowOpen menv = true →
  (∀ j, throwsIn menv (BatchWork j) = None) →
  ∀ n i st fuel,
    (i + n = nb)%nat → (n < fuel)%nat →
    let exit := jobExit menv n i st in
    ∃ out,
      mainLoop menv fuel data size (Finite (Z.of_nat nb)) i
               (Z.min (Z.of_nat i * size) (Z.of_nat (length data))) st
      = Some (Returned tt, exit.2, out)
      ∧ statusesOf out = []
      ∧ statsOf out
        = statsAfter (Z.of_nat (length data)) size <$> seq i (exit.1 - i)
      ∧ entriesAt LogLevel.ERROR (logsOf out) = []
      ∧ step <$> entriesAt LogLevel.WARNING (logsOf out)
        = (if (exit.1 <? nb)%nat then ["STOP"] else []).
Proof.
  intros Hs Hwin Hquiet. induction n as [|n IH]; intros i st fuel Hi Hfuel.
  - destruct fuel as [|fuel]; [lia|]. cbn [mainLoop jobExit ltNumber].
    assert ((Z.of_nat i <? Z.of_nat nb) = false) as -> by lia.
    exists []. cbn [fst snd]. rewrite Nat.sub_diag.
    assert ((i <? nb)%nat = false) as -> by (apply Nat.ltb_ge; lia).
    by split_and!.
  - destruct fuel as [|fuel]; [lia|]. cbn [mainLoop jobExit ltNumber].
    assert ((Z.of_nat i <? Z.of_nat nb) = true) as -> by lia.
    destruct st.
    + cbn [fst snd]. unfold mbind, getStopped, sendLog, send. rewrite Hwin.
      eexists. split; [reflexivity|]. rewrite Nat.sub_diag.
      assert ((i <? nb)%nat = true) as -> by (apply Nat.ltb_lt; lia).
      by split_and!.
    + destruct (IH (S i) (stopJobIn menv (BatchWork i)) fuel ltac:(lia)
                  ltac:(lia)) as (out & Hrun & Hst & Hstats & Herr & Hwarn).
      pose proof (jobExit_range n (S i) (stopJobIn menv (BatchWork i)))
        as Hrange.
      set (exit := jobExit menv n (S i) (stopJobIn menv (BatchWork i))) in *.
      unfold mbind at 1. unfold getStopped at 1.
      unfold mbind at 1. unfold sendLog at 1, send at 1. rewrite Hwin.
      unfold mbind at 1. unfold awaitPhase at 1. rewrite Hquiet.
      unfold mbind at 1. unfold send at 1. rewrite Hwin.
      unfold mbind at 1. unfold sendLog at 1, send at 1. rewrite Hwin.
      cbn [orb].
      rewrite length_batch_slice by done.
      replace (Z.of_nat i + 1) with (Z.of_nat (S i)) by lia.
      rewrite Hrun.
      eexists. split; [reflexivity|].
      cbn [app].
      match goal with |- context [?a :: ?b :: ?c :: out] =>
        change (a :: b :: c :: out) with ([a; b; c] ++ out) end.
      rewrite statusesOf_app, statsOf_app, logsOf_app, !entriesAt_app,
        fmap_app, Hst, Hstats, Herr, Hwarn.
      split_and!; try done.
      replace (exit.1 - i)%nat with (S (exit.1 - S i)) by lia.
      cbn [seq fmap list_fmap]. cbn. f_equal.
      unfold statsAfter. do 2 f_equal; lia.
Qed.

(** *** The handler of [start-job] *)

(** With the window open and nothing thrown but, possibly, by the login
    form, a job on a positive batch size comes to its end: it reports
    Running, the statistics of the batches it worked on, and at last
    Paused or Completed, according to the stop flag. *)
Lemma startJob_run fuel config password data st0 :
  0 < batchSize config → windowOpen menv = true → quietStart menv →
  (∀ j, throwsIn menv (BatchWork j) = None) →
  let total := Z.of_nat (length data) in
  let nb := Z.to_nat (ceilDiv total (batchSize config)) in
  let exit := jobExit menv nb 0 (stoppedAtEntry menv) in
  (nb < fuel)%nat →
  ∃ msgs,
    jobMessages menv fuel config password data st0 = Some msgs
    ∧ statusesOf msgs
      = [JobStatus.RUNNING;
         if exit.2 then JobStatus.PAUSED else JobStatus.COMPLETED]
    ∧ statsOf msgs = statsAfter total (batchSize config) <$> seq 0 exit.1
    ∧ entriesAt LogLevel.ERROR (logsOf msgs) = []
    ∧ step <$> entriesAt LogLevel.WARNING (logsOf msgs)
      = (match throwsIn menv LoginForm with
         | Some _ => ["AUTH"]
         | None => []
         end)
        ++ (if (exit.1 <? nb)%nat then ["STOP"] else []).
Proof.
  intros Hs Hwin (HL & HG & HM & HT) Hquiet total nb exit Hfuel.
  assert (mathCeilQuot total (batchSize config) = Finite (Z.of_nat nb)) as Htot.
  { unfold mathCeilQuot. assert ((batchSize config =? 0) = false) as -> by lia.
    rewrite mathCeilDiv_ceilDiv by done. unfold nb.
    pose proof (ceilDiv_nonneg total (batchSize config) Hs ltac:(lia)).
    f_equal. lia. }
  destruct (mainLoop_run data (batchSize config) nb Hs Hwin Hquiet nb 0
              (stoppedAtEntry menv) fuel eq_refl Hfuel)
    as (out & Hloop & Hst & Hstats & Herr & Hwarn).
  fold exit in Hloop, Hstats, Hwarn. rewrite Nat.sub_0_r in Hstats.
  change (Z.min (Z.of_nat 0 * batchSize config) (Z.of_nat (length data)))
    with (Z.min 0 total) in Hloop.
  rewrite Z.min_l in Hloop by lia.
  unfold jobMessages, startJob. fold total. rewrite Htot.
  set (loop := mainLoop menv fuel data (batchSize config)
                        (Finite (Z.of_nat nb)) 0 0) in *.
  unfold sendUnguarded, sendLog, send, awaitPhase, mbind, mcatch, setStopped,
    getStopped, mret, mthrow.
  rewrite Hwin, HL, HG, HT. cbn [orb].
  assert (∀ pre post,
            statusesOf pre = [JobStatus.RUNNING] → statsOf pre = [] →
            entriesAt LogLevel.ERROR (logsOf pre) = [] →
            statusesOf post
            = [if exit.2 then JobStatus.PAUSED else JobStatus.COMPLETED] →
            statsOf post = [] →
            entriesAt LogLevel.ERROR (logsOf post) = [] →
            entriesAt LogLevel.WARNING (logsOf post) = [] →
            statusesOf (pre ++ out ++ post)
            = [JobStatus.RUNNING;
               if exit.2 then JobStatus.PAUSED else JobStatus.COMPLETED]
            ∧ statsOf (pre ++ out ++ post)
              = statsAfter total (batchSize config) <$> seq 0 exit.1
            ∧ entriesAt LogLevel.ERROR (logsOf (pre ++ out ++ post)) = []
            ∧ step <$> entriesAt LogLevel.WARNING (logsOf (pre ++ out ++ post))
              = (step <$> entriesAt LogLevel.WARNING (logsOf pre))
                ++ (if (exit.1 <? nb)%nat then ["STOP"] else [])) as Hglue.
  { intros pre post Hp1 Hp2 Hp3 Hq1 Hq2 Hq3 Hq4.
    rewrite !statusesOf_app, !statsOf_app, !logsOf_app, !entriesAt_app,
      !fmap_app, Hst, Hstats, Herr, Hwarn, Hp1, Hp2, Hp3, Hq1, Hq2, Hq3, Hq4.
    cbn [app fmap list_fmap]. by rewrite !app_nil_r. }
  destruct (throwsIn menv LoginForm) as [msg|] eqn:HF.
  - rewrite HM by done.
    assert (stopJobIn menv Launch || stopJobIn menv Goto
            || stopJobIn menv LoginForm || stopJobIn menv ManualLogin
            || stopJobIn menv Transition = stoppedAtEntry menv) as ->.
    { unfold stoppedAtEntry. by rewrite HF. }
    rewrite Hloop. cbn [fmap option_fmap option_map snd].
    destruct exit.2 eqn:He; cbn [negb].
    + eexists. split; [reflexivity|]. cbn [snd].
      rewrite ?app_nil_l, ?app_nil_r, <-?app_assoc. cbn [app].
      match goal with
      | |- statusesOf (?a :: ?b :: ?c :: ?d :: ?e :: ?f :: ?g :: out ++ ?post)
           = _ ∧ _ =>
          exact (Hglue [a; b; c; d; e; f; g] post eq_refl eq_refl eq_refl
                       eq_refl eq_refl eq_refl eq_refl)
      end.
    + eexists. split; [reflexivity|]. cbn [snd].
      rewrite ?app_nil_l, ?app_nil_r, <-?app_assoc. cbn [app].
      match goal with
      | |- statusesOf (?a :: ?b :: ?c :: ?d :: ?e :: ?f :: ?g :: out ++ ?post)
           = _ ∧ _ =>
          exact (Hglue [a; b; c; d; e; f; g] post eq_refl eq_refl eq_refl
                       eq_refl eq_refl eq_refl eq_refl)
      end.
  - assert (stopJobIn menv Launch || stopJobIn menv Goto
            || stopJobIn menv LoginForm
            || stopJobIn menv Transition = stoppedAtEntry menv) as ->.
    { unfold stoppedAtEntry. rewrite HF. by rewrite orb_false_r. }
    rewrite Hloop. cbn [fmap option_fmap option_map snd].
    destruct exit.2 eqn:He; cbn [negb].
    + eexists. split; [reflexivity|]. cbn [snd].
      rewrite ?app_nil_l, ?app_nil_r, <-?app_assoc. cbn [app].
      match goal with
      | |- statusesOf (?a :: ?b :: ?c :: ?d :: ?e :: ?f :: out ++ ?post)
           = _ ∧ _ =>
          exact (Hglue [a; b; c; d; e; f] post eq_refl eq_refl eq_refl
                       eq_refl eq_refl eq_refl eq_refl)
      end.
    + eexists. split; [reflexivity|]. cbn [snd].
      rewrite ?app_nil_l, ?app_nil_r, <-?app_assoc. cbn [app].
      match goal with
      | |- statusesOf (?a :: ?b :: ?c :: ?d :: ?e :: ?f :: out ++ ?post)
           = _ ∧ _ =>
          exact (Hglue [a; b; c; d; e; f] post eq_refl eq_refl eq_refl
                       eq_refl eq_refl eq_refl eq_refl)
      end.
Qed.

End MainRuns.

Section MainSafety.
Context {ops : JSNumberOps}.
Variable menv : MainEnv.
Implicit Types (data : list CatalogItem) (msgs out : list IpcMessage).

(** Whatever the browser and the user do, the statistics the loop
    reports are those of consecutive batches, from the one it starts
    with. *)
Lemma mainLoop_stats data size (nb : nat) :
  0 < size →
  ∀ fuel i st r st' out,
    mainLoop menv fuel data size (Finite (Z.of_nat nb)) i
             (Z.min (Z.of_nat i * size) (Z.of_nat (length data))) st
    = Some (r, st', out) →
    ∃ k, (i <= k)%nat ∧ (k <= Nat.max i nb)%nat
         ∧ statsOf out
           = (if windowOpen menv
              then statsAfter (Z.of_nat (length data)) size <$> seq i (k - i)
              else []).
Proof.
  intros Hs. induction fuel as [|fuel IH]; intros i st r st' out; [done|].
  cbn [mainLoop ltNumber].
  destruct (Z.of_nat i <? Z.of_nat nb) eqn:Hlt.
  - unfold mbind at 1. unfold getStopped at 1. destruct st.
    + unfold sendLog, send. intros [= <- <- <-]. exists i.
      rewrite Nat.sub_diag. split_and!; [lia..|]. by destruct (windowOpen menv).
    + unfold mbind at 1. unfold sendLog at 1, send at 1.
      unfold mbind at 1. unfold awaitPhase at 1.
      destruct (throwsIn menv (BatchWork i)) as [msg|].
      { intros [= <- <- <-]. exists i. rewrite Nat.sub_diag.
        split_and!; [lia..|]. by destruct (windowOpen menv). }
      unfold mbind at 1. unfold send at 1.
      unfold mbind at 1. unfold sendLog at 1, send at 1.
      rewrite length_batch_slice by done.
      replace (Z.of_nat i + 1) with (Z.of_nat (S i)) by lia.
      destruct (mainLoop menv fuel data size (Finite (Z.of_nat nb)) (S i) _ _)
        as [[[r' st''] out']|] eqn:Hrec; [|done].
      apply IH in Hrec as (k & Hk1 & Hk2 & Hstats).
      intros [= <- <- <-]. exists k. split_and!; [lia..|].
      destruct (windowOpen menv); cbn [app].
      * match goal with |- context [?a :: ?b :: ?c :: out'] =>
          change (a :: b :: c :: out') with ([a; b; c] ++ out') end.
        rewrite statsOf_app, Hstats.
        replace (k - i)%nat with (S (k - S i)) by lia.
        cbn [seq fmap list_fmap]. cbn. f_equal.
        unfold statsAfter. do 2 f_equal; lia.
      * done.
  - intros [= <- <- <-]. exists i. rewrite Nat.sub_diag.
    split_and!; [lia..|]. by destruct (windowOpen menv).
Qed.

Lemma reports_mret {A} (a : A) : reports (λ l, l = []) (mret a).
Proof. by intros st r st' out [= <- <- <-]. Qed.

Lemma reports_mthrow {A} msg : reports (λ l, l = []) (@mthrow A msg).
Proof. by intros st r st' out [= <- <- <-]. Qed.

Lemma reports_getStopped : reports (λ l, l = []) getStopped.
Proof. by intros st r st' out [= <- <- <-]. Qed.

Lemma reports_setStopped b : reports (λ l, l = []) (setStopped b).
Proof. by intros st r st' out [= <- <- <-]. Qed.

Lemma reports_awaitPhase ph : reports (λ l, l = []) (awaitPhase menv ph).
Proof. by intros st r st' out [= <- <- <-]. Qed.

Lemma reports_sendLog lvl msg tag :
  reports (λ l, l = []) (sendLog menv lvl msg tag).
Proof.
  intros st r st' out [= <- <- <-]. by destruct (windowOpen menv).
Qed.

Lemma reports_sendStatus st :
  reports (λ l, l = []) (send menv (MsgStatus st)).
Proof.
  intros st0 r st' out [= <- <- <-]. by destruct (windowOpen menv).
Qed.

Lemma reports_sendUnguarded st :
  reports (λ l, l = []) (sendUnguarded menv (MsgStatus st)).
Proof.
  unfold sendUnguarded. destruct (windowOpen menv) eqn:Hwin.
  - intros st0 r st' out [= <- <- <-]. by rewrite Hwin.
  - apply reports_mthrow.
Qed.

Lemma mbind_Some {A B} (m : Main A) (k : A → Main B) st r st' out :
  mbind m k st = Some (r, st', out) →
  (∃ msg, m st = Some (Thrown msg, st', out) ∧ r = Thrown msg)
  ∨ (∃ a st1 out1 out2,
       m st = Some (Returned a, st1, out1)
       ∧ k a st1 = Some (r, st', out2) ∧ out = out1 ++ out2).
Proof.
  unfold mbind. destruct (m st) as [[[[a|msg] st1] out1]|]; [| |done].
  - destruct (k a st1) as [[[r' st2] out2]|] eqn:Hk; [|done].
    intros [= <- <- <-]. right. by exists a, st1, out1, out2.
  - intros [= <- <- <-]. left. by exists msg.
Qed.

Lemma mcatch_Some {A} (m : Main A) (h : string → Main A) st r st' out :
  mcatch m h st = Some (r, st', out) →
  (∃ a, m st = Some (Returned a, st', out) ∧ r = Returned a)
  ∨ (∃ msg st1 out1 out2,
       m st = Some (Thrown msg, st1, out1)
       ∧ h msg st1 = Some (r, st', out2) ∧ out = out1 ++ out2).
Proof.
  unfold mcatch. destruct (m st) as [[[[a|msg] st1] out1]|]; [| |done].
  - intros [= <- <- <-]. left. by exists a.
  - destruct (h msg st1) as [[[r' st2] out2]|] eqn:Hh; [|done].
    intros [= <- <- <-]. right. by exists msg, st1, out1, out2.
Qed.

(** Statistics are reported either before or after a part that reports
    none. *)
Lemma reports_mbind_l {A B} P (m : Main A) (k : A → Main B) :
  P [] → reports (λ l, l = []) m → (∀ a, reports P (k a)) →
  reports P (mbind m k).
Proof.
  intros HP Hm Hk st r st' out [(msg & H & _)|(a & st1 & o1 & o2 & H1 & H2 & ->)]%mbind_Some.
  - by rewrite (Hm _ _ _ _ H).
  - rewrite statsOf_app, (Hm _ _ _ _ H1). exact (Hk _ _ _ _ _ H2).
Qed.

Lemma reports_mbind_r {A B} P (m : Main A) (k : A → Main B) :
  reports P m → (∀ a, reports (λ l, l = []) (k a)) →
  reports P (mbind m k).
Proof.
  intros Hm Hk st r st' out [(msg & H & _)|(a & st1 & o1 & o2 & H1 & H2 & ->)]%mbind_Some.
  - exact (Hm _ _ _ _ H).
  - rewrite statsOf_app, (Hk _ _ _ _ _ H2), app_nil_r. exact (Hm _ _ _ _ H1).
Qed.

Lemma reports_mcatch {A} P (m : Main A) (h : string → Main A) :
  reports P m → (∀ msg, reports (λ l, l = []) (h msg)) →
  reports P (mcatch m h).
Proof.
  intros Hm Hh st r st' out [(a & H & _)|(a & st1 & o1 & o2 & H1 & H2 & ->)]%mcatch_Some.
  - exact (Hm _ _ _ _ H).
  - rewrite statsOf_app, (Hh _ _ _ _ _ H2), app_nil_r. exact (Hm _ _ _ _ H1).
Qed.

Lemma reports_nil {A} P (m : Main A) :
  P [] → reports (λ l, l = []) m → reports P m.
Proof. intros HP Hm st r st' out H. by rewrite (Hm _ _ _ _ H). Qed.

End MainSafety.

(** Decomposes a statement on the reports of a computation of the main
    process that reports none. *)
Ltac silent_step :=
  lazymatch goal with
  | |- reports _ (mbind _ _) => apply reports_mbind_l; [done| |intros ?]
  | |- reports _ (mcatch _ _) => apply reports_mcatch; [|intros ?]
  | |- reports _ (sendLog _ _ _ _) => apply reports_sendLog
  | |- reports _ (send _ (MsgStatus _)) => apply reports_sendStatus
  | |- reports _ (sendUnguarded _ (MsgStatus _)) => apply reports_sendUnguarded
  | |- reports _ (awaitPhase _ _) => apply reports_awaitPhase
  | |- reports _ getStopped => apply reports_getStopped
  | |- reports _ (setStopped _) => apply reports_setStopped
  | |- reports _ (mret _) => apply reports_mret
  | |- reports _ (mthrow _) => apply reports_mthrow
  | |- reports _ (if _ then _ else _) => case_match
  end.

Section MainReports.
Context {ops : JSNumberOps}.
Variable menv : MainEnv.
Implicit Types (data : list CatalogItem) (msgs out : list IpcMessage).

(** The statistics a job reports, when its handler ends, are those of
    its first batches, in order. *)
Lemma startJob_stats fuel config password data st0 msgs :
  0 < batchSize config →
  jobMessages menv fuel config password data st0 = Some msgs →
  ∃ k : nat,
    Z.of_nat k <= ceilDiv (Z.of_nat (length data)) (batchSize config)
    ∧ (windowOpen menv = false → k = 0%nat)
    ∧ statsOf msgs
      = statsAfter (Z.of_nat (length data)) (batchSize config) <$> seq 0 k.
Proof.
  intros Hs. set (total := Z.of_nat (length data)).
  set (nb := Z.to_nat (ceilDiv total (batchSize config))).
  pose proof (ceilDiv_nonneg total (batchSize config) Hs ltac:(lia)) as Hnb.
  assert (mathCeilQuot total (batchSize config) = Finite (Z.of_nat nb)) as Htot.
  { unfold mathCeilQuot. assert ((batchSize config =? 0) = false) as -> by lia.
    rewrite mathCeilDiv_ceilDiv by done. unfold nb. f_equal. lia. }
  set (P := λ l : list PartialStats,
         ∃ k : nat, Z.of_nat k <= ceilDiv total (batchSize config)
                    ∧ (windowOpen menv = false → k = 0%nat)
                    ∧ l = statsAfter total (batchSize config) <$> seq 0 k).
  assert (P []) as HP by (by exists 0%nat).
  assert (reports P (startJob menv fuel config password data)) as Hrep.
  { unfold startJob. fold total. rewrite Htot.
    silent_step; [silent_step|]. silent_step.
    - do 10 (silent_step; [by repeat silent_step|]).
      apply reports_mbind_r.
      + intros st r st' out Hloop.
        pose proof (mainLoop_stats menv data (batchSize config) nb Hs fuel 0
                      st r st' out) as Hstats.
        change (Z.min (Z.of_nat 0 * batchSize config) (Z.of_nat (length data)))
          with (Z.min 0 total) in Hstats.
        rewrite Z.min_l in Hstats by lia.
        destruct (Hstats Hloop) as (k & _ & Hk & ->).
        destruct (windowOpen menv); [|by exists 0%nat].
        exists k. rewrite Nat.sub_0_r. split_and!; [lia|done|done].
      + intros _. repeat silent_step.
    - repeat silent_step. }
  unfold jobMessages.
  destruct (startJob menv fuel config password data st0)
    as [[[r st'] out]|] eqn:Hrun; [|done].
  intros [= <-]. exact (Hrep _ _ _ _ Hrun).
Qed.

End MainReports.

(** *** The listeners of the window *)

Section Listeners.
Context {ops : JSNumberOps}.
Implicit Types (s : AppState) (msgs : list IpcMessage).

Lemma statusChanges_onMessage msgs :
  statusChanges (onMessage <$> msgs) = statusesOf msgs.
Proof.
  unfold statusChanges, statusesOf.
  induction msgs as [|m msgs IH]; [done|].
  destruct m; cbn; by rewrite IH.
Qed.

Lemma replay_onMessage s msgs :
  replay s (onMessage <$> msgs)
  = {| status := default (status s) (last (statusesOf msgs));
       logs := logs s ++ logsOf msgs;
       stats := foldl mergeStats (stats s) (statsOf msgs);
       stopRef := stopRef s |}.
Proof.
  revert s. induction msgs as [|m msgs IH]; intros s.
  - destruct s. cbn. by rewrite app_nil_r.
  - rewrite fmap_cons, replay_cons, IH. destruct m; cbn.
    + by rewrite <-app_assoc.
    + f_equal. fold (statusesOf msgs).
      destruct (statusesOf msgs) as [|x l]; [done|].
      change (last (st :: x :: l)) with (last (x :: l)).
      destruct (last (x :: l)) eqn:Hlast; [done|]. by apply last_None in Hlast.
    + done.
Qed.

(** Merging the reports of the first [k] batches. *)
Lemma foldl_statsAfter n size nb (k : nat) :
  0 <= n →
  foldl mergeStats (initialStats n nb) (statsAfter n size <$> seq 0 k)
  = desktopStats n size nb k.
Proof.
  intros Hn. induction k as [|k IH].
  - unfold desktopStats, initialStats. cbn. f_equal; lia.
  - rewrite seq_S, fmap_app, foldl_app, IH. cbn.
    unfold mergeStats, desktopStats. cbn. f_equal; lia.
Qed.

Lemma desktopStats_StatsInv n size nb (j : nat) :
  0 <= n → 0 < size → Z.of_nat j <= nb → StatsInv (desktopStats n size nb j).
Proof. intros. unfold StatsInv, desktopStats. cbn. lia. Qed.

Lemma desktopStats_le n size nb (j : nat) :
  0 < size →
  statsLe (desktopStats n size nb j) (desktopStats n size nb (S j)).
Proof. intros. unfold statsLe, desktopStats. cbn. lia. Qed.

(** The reports of the batches [j .. k - 1], with any log entries and
    statuses between them, keep the statistics of the window in order. *)
Lemma stepsOk_onMessage n size nb (k : nat) msgs : ∀ (j : nat) s,
  0 <= n → 0 < size → Z.of_nat k <= nb → (j <= k)%nat →
  stats s = desktopStats n size nb j →
  statsOf msgs = statsAfter n size <$> seq j (k - j) →
  stepsOk s (onMessage <$> msgs).
Proof.
  induction msgs as [|m msgs IH]; intros j s Hn Hs Hk Hj Hst Hmsgs; [done|].
  rewrite fmap_cons. cbn [stepsOk].
  destruct m as [e|st|p].
  - cbn [onMessage applyEffect stats]. rewrite Hst.
    split_and!; [apply desktopStats_StatsInv; lia|apply statsLe_refl|].
    by apply (IH j).
  - cbn [onMessage applyEffect stats]. rewrite Hst.
    split_and!; [apply desktopStats_StatsInv; lia|apply statsLe_refl|].
    by apply (IH j).
  - change (statsOf (MsgStats p :: msgs)) with (p :: statsOf msgs) in Hmsgs.
    destruct (k - j)%nat as [|d] eqn:Hd; [done|].
    cbn [seq fmap list_fmap] in Hmsgs. simplify_eq.
    assert (mergeStats (desktopStats n size nb j) (statsAfter n size j)
            = desktopStats n size nb (S j)) as Hstep.
    { unfold mergeStats, desktopStats, statsAfter, batchStats. cbn.
      f_equal; lia. }
    cbn [onMessage applyEffect stats]. rewrite Hst, Hstep.
    split_and!; [apply desktopStats_StatsInv; lia|by apply desktopStats_le|].
    apply (IH (S j)); try done; try lia.
    replace (k - S j)%nat with d by lia. done.
Qed.

End Listeners.

(** *** Sessions under Electron *)

Section Desktop.
Context {ops : JSNumberOps}.
Variable env : Env.
Variable menv : MainEnv.
Implicit Types (s : AppState) (config : AutomationConfig)
  (msgs : list IpcMessage).

(** The effects of [runAutomation] on the Electron branch. *)
Lemma runAutomation_handover fuel config password rawData s :
  electronAPI env = true →
  username config ≠ EmptyString → password ≠ EmptyString →
  parseCSV rawData ≠ [] →
  runAutomation env fuel config password rawData s
  = Some (tt, [SetLogs []; SetStatus JobStatus.RUNNING; AddLog handoverEntry;
               SetStats (λ _,
                 initialStats (Z.of_nat (length (parseCSV rawData)))
                   (mathCeilDiv (Z.of_nat (length (parseCSV rawData)))
                                (batchSize config)));
               StartJob config password (parseCSV rawData)]).
Proof.
  intros Hel Hu Hp Hd. unfold runAutomation.
  rewrite (truthy_nonempty _ Hu), (truthy_nonempty _ Hp),
    (parseCSV_nonempty_trim _ Hd), Hel, (length_eqb_0_nonempty _ Hd).
  reflexivity.
Qed.

(** A session under Electron is the hand-over followed by what the
    listeners make of the messages of the job; it ends in the state
    below. *)
Lemma desktopSession_handover fuel config password rawData st0 s :
  electronAPI env = true →
  username config ≠ EmptyString → password ≠ EmptyString →
  parseCSV rawData ≠ [] →
  let total := Z.of_nat (length (parseCSV rawData)) in
  let t1 := [SetLogs []; SetStatus JobStatus.RUNNING; AddLog handoverEntry;
             SetStats (λ _, initialStats total
                              (mathCeilDiv total (batchSize config)));
             StartJob config password (parseCSV rawData)] in
  desktopSession env menv fuel config password rawData st0 s
  = (λ msgs, t1 ++ (onMessage <$> msgs))
    <$> jobMessages menv fuel config password (parseCSV rawData) st0
  ∧ ∀ msgs,
      replay s (t1 ++ (onMessage <$> msgs))
      = {| status := default JobStatus.RUNNING (last (statusesOf msgs));
           logs := handoverEntry :: logsOf msgs;
           stats := foldl mergeStats
                      (initialStats total (mathCeilDiv total (batchSize config)))
                      (statsOf msgs);
           stopRef := stopRef s |}.
Proof.
  intros Hel Hu Hp Hd total t1. split.
  - unfold desktopSession. by rewrite runAutomation_handover.
  - intros msgs. by rewrite replay_app, replay_onMessage.
Qed.

Lemma jobExit_no_stop n : ∀ i,
  (∀ j, stopJobIn menv (BatchWork j) = false) →
  jobExit menv n i false = ((i + n)%nat, false).
Proof.
  induction n as [|n IH]; intros i Hno; simpl.
  - by rewrite Nat.add_0_r.
  - rewrite Hno, IH by done. f_equal. lia.
Qed.

Lemma jobExit_stop_in n (j : nat) : ∀ i,
  (∀ l, (i <= l < j)%nat → stopJobIn menv (BatchWork l) = false) →
  stopJobIn menv (BatchWork j) = true →
  (i <= j < i + n)%nat →
  jobExit menv n i false = (S j, true).
Proof.
  induction n as [|n IH]; intros i Hbefore Hat Hj; [lia|].
  cbn [jobExit]. destruct (decide (i = j)) as [->|Hne].
  - rewrite Hat. by destruct n.
  - rewrite Hbefore by lia. apply IH; [|done|lia].
    intros l Hl. apply Hbefore. lia.
Qed.

(** The state of the window at the end of a session in which the window
    stays open and nothing is thrown but, possibly, by the login form. *)
Lemma desktopSession_run config password rawData st0 s :
  electronAPI env = true →
  username config ≠ EmptyString → password ≠ EmptyString →
  parseCSV rawData ≠ [] → 0 < batchSize config →
  windowOpen menv = true → quietStart menv →
  (∀ j, throwsIn menv (BatchWork j) = None) →
  let total := Z.of_nat (length (parseCSV rawData)) in
  let nb := Z.to_nat (ceilDiv total (batchSize config)) in
  let exit := jobExit menv nb 0 (stoppedAtEntry menv) in
  ∀ fuel, (nb < fuel)%nat →
    ∃ t,
      desktopSession env menv fuel config password rawData st0 s = Some t
      ∧ statusChanges t
        = [JobStatus.RUNNING; JobStatus.RUNNING;
           if exit.2 then JobStatus.PAUSED else JobStatus.COMPLETED]
      ∧ status (replay s t)
        = (if exit.2 then JobStatus.PAUSED else JobStatus.COMPLETED)
      ∧ stats (replay s t)
        = desktopStats total (batchSize config) (Z.of_nat nb) exit.1
      ∧ entriesAt LogLevel.ERROR (logs (replay s t)) = []
      ∧ step <$> entriesAt LogLevel.WARNING (logs (replay s t))
        = (match throwsIn menv LoginForm with
           | Some _ => ["AUTH"]
           | None => []
           end)
          ++ (if (exit.1 <? nb)%nat then ["STOP"] else []).
Proof.
  intros Hel Hu Hp Hd Hs Hwin Hstart Hquiet total nb exit fuel Hfuel.
  destruct (startJob_run menv fuel config password (parseCSV rawData) st0
              Hs Hwin Hstart Hquiet Hfuel)
    as (msgs & Hmsgs & Hst & Hstats & Herr & Hwarn).
  fold total nb exit in Hst, Hstats, Hwarn.
  destruct (desktopSession_handover fuel config password rawData st0 s
              Hel Hu Hp Hd) as [Hsession Hfinal].
  fold total in Hsession, Hfinal.
  rewrite Hmsgs in Hsession. eexists. split; [exact Hsession|].
  rewrite Hfinal. cbn [status logs stats].
  rewrite statusChanges_app, statusChanges_onMessage, Hst, Hstats.
  rewrite mathCeilDiv_ceilDiv by done.
  pose proof (ceilDiv_nonneg total (batchSize config) Hs ltac:(lia)) as Hnb.
  replace (ceilDiv total (batchSize config)) with (Z.of_nat nb)
    by (unfold nb; lia).
  rewrite foldl_statsAfter by lia.
  change (handoverEntry :: logsOf msgs) with ([handoverEntry] ++ logsOf msgs).
  rewrite !entriesAt_app, Herr, fmap_app, Hwarn.
  by split_and!.
Qed.

(** X25. A job under Electron that nothing disturbs. With the window open,
    no Playwright call rejected (a login form that is not found apart, which
    the handler survives) and no press of Stop, the session ends Completed:
    every record is processed and counted a success, none an error, every
    batch is completed, and no Error entry is logged. *)
Theorem X25_desktop_job_completes config password rawData st0 s :
  electronAPI env = true →
  username config ≠ EmptyString → password ≠ EmptyString →
  parseCSV rawData ≠ [] → 0 < batchSize config →
  windowOpen menv = true → quietStart menv →
  (∀ j, throwsIn menv (BatchWork j) = None) →
  (∀ ph, stopJobIn menv ph = false) →
  ∃ fuel0, ∀ fuel, (fuel0 <= fuel)%nat →
    ∃ t,
      desktopSession env menv fuel config password rawData st0 s = Some t
      ∧ let st := stats (replay s t) in
        let total := Z.of_nat (length (parseCSV rawData)) in
        status (replay s t) = JobStatus.COMPLETED
        ∧ statusChanges t
          = [JobStatus.RUNNING; JobStatus.RUNNING; JobStatus.COMPLETED]
        ∧ totalRecords st = total ∧ processedRecords st = total
        ∧ successCount st = total ∧ errorCount st = 0
        ∧ batchesCompleted st = batchesTotal st
        ∧ batchesTotal st = ceilDiv total (batchSize config)
        ∧ errorEntries (logs (replay s t)) = [].
Proof.
  intros Hel Hu Hp Hd Hs Hwin Hstart Hquiet Hnostop.
  set (total := Z.of_nat (length (parseCSV rawData))).
  set (nb := Z.to_nat (ceilDiv total (batchSize config))).
  exists (S nb). intros fuel Hfuel.
  destruct (desktopSession_run config password rawData st0 s Hel Hu Hp Hd Hs
              Hwin Hstart Hquiet fuel ltac:(fold total nb; lia))
    as (t & Hrun & Hch & Hst & Hstats & Herr & _).
  fold total nb in Hch, Hst, Hstats.
  assert (stoppedAtEntry menv = false) as Hentry.
  { unfold stoppedAtEntry. rewrite !Hnostop. by destruct (throwsIn menv _). }
  rewrite Hentry, jobExit_no_stop in Hch, Hst, Hstats by done.
  cbn [fst snd Nat.add] in Hch, Hst, Hstats.
  exists t. split; [done|]. cbn zeta. rewrite Hstats. fold total.
  pose proof (ceilDiv_nonneg total (batchSize config) Hs ltac:(lia)) as Hnb.
  assert (total <= Z.of_nat nb * batchSize config) as Hcover.
  { unfold nb. rewrite Z2Nat.id by done. unfold ceilDiv.
    pose proof (Z.div_mod (total + batchSize config - 1) (batchSize config)
                  ltac:(lia)).
    pose proof (Z.mod_pos_bound (total + batchSize config - 1)
                  (batchSize config) Hs). nia. }
  unfold desktopStats. cbn.
  split_and!; try done; try lia.
Qed.

(** X26. The statistics under Electron. Whatever the browser does and
    whenever Stop is pressed, in a session on a positive batch size that
    comes to an end the statistics of the window keep their discipline: the
    hand-over installs the totals with all counts zero, and from then on
    every snapshot satisfies the invariants and no count decreases. *)
Theorem X26_desktop_stats_discipline fuel config password rawData st0 s t :
  electronAPI env = true → 0 < batchSize config →
  desktopSession env menv fuel config password rawData st0 s = Some t →
  statsDiscipline s t.
Proof.
  intros Hel Hs Hrun.
  assert (username config = EmptyString ∨ password = EmptyString
          ∨ parseCSV rawData = [] → statsDiscipline s t) as Hrejected.
  { intros Hpre.
    destruct (runAutomation_rejects env fuel config password rawData s Hpre)
      as (msg & Hmsg & _).
    unfold desktopSession in Hrun. rewrite Hmsg in Hrun. simplify_eq/=.
    by apply statsDiscipline_quiet. }
  destruct (decide (username config = EmptyString)) as [|Hu]; [by auto|].
  destruct (decide (password = EmptyString)) as [|Hp]; [by auto|].
  destruct (decide (parseCSV rawData = [])) as [|Hd]; [by auto|].
  destruct (desktopSession_handover fuel config password rawData st0 s
              Hel Hu Hp Hd) as [Hsession _].
  rewrite Hsession in Hrun.
  destruct (jobMessages menv fuel config password (parseCSV rawData) st0)
    as [msgs|] eqn:Hmsgs; [|done].
  simplify_eq/=.
  destruct (startJob_stats menv fuel config password (parseCSV rawData) st0
              msgs Hs Hmsgs) as (k & Hk & _ & Hstats).
  set (total := Z.of_nat (length (parseCSV rawData))) in *.
  pose proof (ceilDiv_nonneg total (batchSize config) Hs ltac:(lia)) as Hnb.
  rewrite mathCeilDiv_ceilDiv by done.
  apply (statsDiscipline_intro s
           [SetLogs []; SetStatus JobStatus.RUNNING; AddLog handoverEntry]);
    [done|lia|done|].
  cbn [stepsOk]. split_and!.
  - unfold StatsInv. cbn. lia.
  - apply statsLe_refl.
  - apply (stepsOk_onMessage total (batchSize config)
             (ceilDiv total (batchSize config)) k msgs 0); try done; try lia.
    + cbn. unfold desktopStats, initialStats. f_equal; lia.
    + by rewrite Nat.sub_0_r.
Qed.

(** X27. Stop under Electron. When the [stop-job] message first arrives
    during the work on batch [j] (0-based), that batch is still completed
    and reported and the session ends Paused with [j + 1] batches completed.
    The Warning of the stop is logged exactly when batches were left; after
    a stop during the last batch everything has been processed and the
    session still ends Paused, not Completed. *)
Theorem X27_desktop_stop_during_batch config password rawData st0 s (j : nat) :
  electronAPI env = true →
  username config ≠ EmptyString → password ≠ EmptyString →
  parseCSV rawData ≠ [] → 0 < batchSize config →
  windowOpen menv = true → quietStart menv →
  (∀ l, throwsIn menv (BatchWork l) = None) →
  stoppedAtEntry menv = false →
  (∀ l, (l < j)%nat → stopJobIn menv (BatchWork l) = false) →
  stopJobIn menv (BatchWork j) = true →
  let total := Z.of_nat (length (parseCSV rawData)) in
  let nb := ceilDiv total (batchSize config) in
  Z.of_nat j < nb →
  ∃ fuel0, ∀ fuel, (fuel0 <= fuel)%nat →
    ∃ t,
      desktopSession env menv fuel config password rawData st0 s = Some t
      ∧ let st := stats (replay s t) in
        status (replay s t) = JobStatus.PAUSED
        ∧ batchesCompleted st = Z.of_nat j + 1
        ∧ processedRecords st
          = Z.min ((Z.of_nat j + 1) * batchSize config) total
        ∧ successCount st = processedRecords st ∧ errorCount st = 0
        ∧ ("STOP" ∈ step <$> entriesAt LogLevel.WARNING (logs (replay s t))
           ↔ Z.of_nat j + 1 < nb)
        ∧ (Z.of_nat j + 1 = nb → processedRecords st = total).
Proof.
  intros Hel Hu Hp Hd Hs Hwin Hstart Hquiet Hentry Hbefore Hat total nb Hj.
  set (nbn := Z.to_nat (ceilDiv total (batchSize config))).
  exists (S nbn). intros fuel Hfuel.
  destruct (desktopSession_run config password rawData st0 s Hel Hu Hp Hd Hs
              Hwin Hstart Hquiet fuel ltac:(fold total nbn; lia))
    as (t & Hrun & _ & Hst & Hstats & _ & Hwarn).
  fold total nbn in Hst, Hstats, Hwarn.
  assert (jobExit menv nbn 0 false = (S j, true)) as Hexit.
  { apply jobExit_stop_in; [intros; apply Hbefore; lia|done|].
    unfold nbn. fold nb. lia. }
  rewrite Hentry, Hexit in Hst, Hstats, Hwarn.
  cbn [fst snd] in Hst, Hstats, Hwarn.
  exists t. split; [done|]. cbn zeta. rewrite Hstats, Hwarn.
  unfold desktopStats. cbn [batchesCompleted processedRecords successCount
                            errorCount].
  replace (Z.of_nat (S j)) with (Z.of_nat j + 1) by lia.
  assert (total <= nb * batchSize config) as Hcover.
  { unfold nb, ceilDiv.
    pose proof (Z.div_mod (total + batchSize config - 1) (batchSize config)
                  ltac:(lia)).
    pose proof (Z.mod_pos_bound (total + batchSize config - 1)
                  (batchSize config) Hs). nia. }
  split_and!; try done.
  - destruct (S j <? nbn)%nat eqn:Hlast.
    + apply Nat.ltb_lt in Hlast. split; [unfold nbn in Hlast; fold nb in Hlast; lia|].
      intros _. rewrite elem_of_app. right. by apply list_elem_of_here.
    + apply Nat.ltb_ge in Hlast. rewrite app_nil_r. split.
      * destruct (throwsIn menv LoginForm); cbn;
          [intros [?|?%elem_of_nil]%elem_of_cons; done|by intros ?%elem_of_nil].
      * unfold nbn in Hlast. fold nb in Hlast. lia.
  - intros Hlast. rewrite Hlast. lia.
Qed.


(** X29. A window that is gone. When the window is destroyed, the job sends
    nothing: every message is guarded but the first, whose failure ends the
    job before the browser is launched. *)
Theorem X29_main_window_closed fuel config password data st0 :
  windowOpen menv = false →
  jobMessages menv fuel config password data st0 = Some [].
Proof.
  intros Hwin. unfold jobMessages, startJob.
  unfold sendUnguarded, sendLog, send, mbind, mcatch, setStopped, mthrow.
  by rewrite Hwin.
Qed.

(** With a batch size of zero the loop of the main process has no end
    of its own. *)
Lemma mainLoop_zero_size data fuel : ∀ i pc,
  (∀ j, throwsIn menv (BatchWork j) = None) →
  (∀ j, stopJobIn menv (BatchWork j) = false) →
  mainLoop menv fuel data 0 Infinity i pc false = None.
Proof.
  induction fuel as [|fuel IH]; intros i pc Hquiet Hnostop; [done|].
  cbn [mainLoop ltNumber].
  unfold mbind at 1. unfold getStopped at 1.
  unfold mbind at 1. unfold sendLog at 1, send at 1.
  unfold mbind at 1. unfold awaitPhase at 1. rewrite Hquiet, Hnostop.
  unfold mbind at 1. unfold send at 1.
  unfold mbind at 1. unfold sendLog at 1, send at 1.
  cbn [orb]. by rewrite IH.
Qed.

(** X30. A batch size that is not positive, under Electron. With a negative
    batch size the job processes nothing and reports the job Completed; with
    a batch size of zero and records to process the loop has no end of its
    own: unless Stop is pressed or a call is rejected, the handler never
    finishes. *)
Theorem X30_main_nonpositive_size fuel config password data st0 :
  windowOpen menv = true → quietStart menv →
  (∀ ph, stopJobIn menv ph = false) →
  (batchSize config < 0 → (0 < fuel)%nat →
   ∃ msgs,
     jobMessages menv fuel config password data st0 = Some msgs
     ∧ statusesOf msgs = [JobStatus.RUNNING; JobStatus.COMPLETED]
     ∧ statsOf msgs = [])
  ∧ (batchSize config = 0 → data ≠ [] →
     (∀ j, throwsIn menv (BatchWork j) = None) →
     jobMessages menv fuel config password data st0 = None).
Proof.
  intros Hwin (HL & HG & HM & HT) Hnostop. split.
  - intros Hneg Hfuel. destruct fuel as [|fuel]; [lia|].
    unfold jobMessages, startJob, mathCeilQuot.
    assert ((batchSize config =? 0) = false) as -> by lia.
    cbn [mainLoop ltNumber].
    assert ((Z.of_nat 0 <? mathCeilDiv (Z.of_nat (length data))
                                       (batchSize config)) = false) as ->.
    { apply Z.ltb_ge. unfold mathCeilDiv.
      assert (0 <= - Z.of_nat (length data) / batchSize config); [|lia].
      pose proof (Z.div_mod (- Z.of_nat (length data)) (batchSize config)
                    ltac:(lia)).
      pose proof (Z.mod_neg_bound (- Z.of_nat (length data))
                    (batchSize config) Hneg). nia. }
    unfold sendUnguarded, sendLog, send, awaitPhase, mbind, mcatch,
      setStopped, getStopped, mret, mthrow.
    rewrite Hwin, HL, HG, HT, !Hnostop.
    destruct (throwsIn menv LoginForm) as [msg|] eqn:HF.
    + rewrite HM by done. eexists. split; [reflexivity|]. by cbn.
    + eexists. split; [reflexivity|]. by cbn.
  - intros Hzero Hne Hquiet.
    unfold jobMessages, startJob, mathCeilQuot. rewrite Hzero. cbn [Z.eqb].
    assert ((Z.of_nat (length data) =? 0) = false) as ->
      by (apply Z.eqb_neq; destruct data; [done|cbn [length]; lia]).
    pose proof (mainLoop_zero_size data fuel 0 0 Hquiet
                  (λ j, Hnostop (BatchWork j))) as Hloop.
    set (loop := mainLoop menv fuel data 0 Infinity 0 0) in *.
    unfold sendUnguarded, sendLog, send, awaitPhase, mbind, mcatch,
      setStopped, getStopped, mret, mthrow.
    rewrite Hwin, HL, HG, HT, !Hnostop.
    destruct (throwsIn menv LoginForm) as [msg|] eqn:HF.
    + rewrite HM by done. cbn [orb]. by rewrite Hloop.
    + cbn [orb]. by rewrite Hloop.
Qed.

End Desktop.

(** ** Concrete instances of the further properties *)

(** A list is not empty when its length evaluates to a successor. *)
Ltac by_length :=
  let H := fresh in
  intros H; apply (f_equal length) in H; vm_compute in H; discriminate H.

Lemma X1_sheet_url_round_trip_witness :
  parseGoogleSheetUrl (constructCsvExportUrl "1oH41-b8_Y40" "0")
  = Some {| SheetDetails.id := "1oH41-b8_Y40"; SheetDetails.gid := "0" |}.
Proof. apply X1_sheet_url_round_trip; (reflexivity || discriminate). Defined.

Lemma X2_parseGoogleSheetUrl_sound_witness :
  parseGoogleSheetUrl "https://docs.google.com/spreadsheets/d/abc-1/edit#gid=42"
  = Some {| SheetDetails.id := "abc-1"; SheetDetails.gid := "42" |}
  ∧ JS.includes "https://docs.google.com/spreadsheets/d/abc-1/edit#gid=42"
                "/d/abc-1" = true
  ∧ JS.includes "https://docs.google.com/spreadsheets/d/abc-1/edit#gid=42"
                "gid=42" = true.
Proof.
  split; [reflexivity|].
  destruct (X2_parseGoogleSheetUrl_sound
              "https://docs.google.com/spreadsheets/d/abc-1/edit#gid=42"
              {| SheetDetails.id := "abc-1"; SheetDetails.gid := "42" |}
              eq_refl) as (_ & _ & Hid & _ & _ & [Hgid|Hgid]).
  - discriminate Hgid.
  - split; [exact Hid|exact Hgid].
Defined.

Lemma X4_parseGoogleSheetUrl_default_gid_witness :
  parseGoogleSheetUrl "https://docs.google.com/spreadsheets/d/abc-1/edit"
  = Some {| SheetDetails.id := "abc-1"; SheetDetails.gid := "0" |}
  ∧ JS.includes "https://docs.google.com/spreadsheets/d/abc-1/edit" "gid="
    = false
  ∧ SheetDetails.gid
      {| SheetDetails.id := "abc-1"; SheetDetails.gid := "0" |} = "0".
Proof.
  split; [reflexivity|]. split; [reflexivity|].
  apply (X4_parseGoogleSheetUrl_default_gid
           "https://docs.google.com/spreadsheets/d/abc-1/edit"); reflexivity.
Defined.

Lemma X5_chunkArray_batches_witness :
  0 < 2
  ∧ chunkArray 4 [10; 20; 30; 40; 50] 2 = Some [[10; 20]; [30; 40]; [50]]
  ∧ wellChunked 2 [[10; 20]; [30; 40]; [50]].
Proof.
  split; [lia|]. split; [reflexivity|].
  destruct (X5_chunkArray_batches 4 [10; 20; 30; 40; 50] 2
              [[10; 20]; [30; 40]; [50]] ltac:(lia) eq_refl) as [Hwell _].
  exact Hwell.
Defined.

Lemma X6_chunkArray_concat_witness :
  0 < 2 ∧ wellChunked 2 [[1; 2]; [3]]
  ∧ chunkArray 3 (concat [[1; 2]; [3]]) 2 = Some [[1; 2]; [3]].
Proof.
  assert (wellChunked 2 [[1; 2]; [3]]) as Hwell.
  { intros [|[|j]] batch Hj; simplify_eq/=; split_and!; lia. }
  split; [lia|]. split; [exact Hwell|].
  apply (X6_chunkArray_concat 2 [[1; 2]; [3]]); [lia|exact Hwell].
Defined.


Lemma X9_parseCSV_values_witness :
  (parseCSV sampleCsv !!! 1%nat) !! "name" = Some (VString "hat")
  ∧ VString "hat" ≠ VUndefined.
Proof.
  split; [vm_compute; reflexivity|].
  destruct (X9_parseCSV_values sampleCsv (parseCSV sampleCsv !!! 1%nat) "name"
              (VString "hat")) as [Hdef _].
  - apply list_elem_of_lookup. exists 1%nat. vm_compute. reflexivity.
  - vm_compute. reflexivity.
  - exact Hdef.
Defined.


Lemma X14_runAutomation_fresh_start_witness :
  runAutomation simEnv 5 (sampleConfig Scenario.SUCCESS) "secret1" sampleCsv
                idleState
  = runAutomation simEnv 5 (sampleConfig Scenario.SUCCESS) "secret1" sampleCsv
                  staleState
  ∧ ∃ t,
      runAutomation simEnv 5 (sampleConfig Scenario.SUCCESS) "secret1"
                    sampleCsv idleState = Some (tt, t)
      ∧ status (replay idleState t) = status (replay staleState t)
      ∧ logs (replay idleState t) = logs (replay staleState t).
Proof.
  destruct (X14_runAutomation_fresh_start simEnv 5 (sampleConfig Scenario.SUCCESS)
              "secret1" sampleCsv idleState staleState) as [Hsame Hend].
  split; [exact Hsame|].
  assert (∃ t, runAutomation simEnv 5 (sampleConfig Scenario.SUCCESS)
                 "secret1" sampleCsv idleState = Some (tt, t)) as [t Ht].
  { eexists. vm_compute. reflexivity. }
  exists t. split; [exact Ht|].
  destruct (Hend ltac:(discriminate) ltac:(discriminate) ltac:(by_length)
                 t Ht) as (Hst & Hlogs & _).
  split; [exact Hst|exact Hlogs].
Defined.

Lemma X15_runAutomation_log_append_only_witness :
  ∃ t,
    runAutomation simEnv 5 (sampleConfig Scenario.SUCCESS) "secret1" sampleCsv
                  staleState = Some (tt, t)
    ∧ logs (replay staleState (take 1 t))
      `prefix_of` logs (replay staleState (take 12 t)).
Proof.
  assert (∃ t, runAutomation simEnv 5 (sampleConfig Scenario.SUCCESS)
                 "secret1" sampleCsv staleState = Some (tt, t)) as [t Ht].
  { eexists. vm_compute. reflexivity. }
  exists t. split; [exact Ht|].
  apply (X15_runAutomation_log_append_only simEnv 5
           (sampleConfig Scenario.SUCCESS) "secret1" sampleCsv staleState);
    [exact Ht|lia|lia].
Defined.


Lemma X17_runAutomation_stop_during_login_witness :
  ∃ fuel0, ∀ fuel, (fuel0 <= fuel)%nat →
    runs (runAutomation stopInLoginEnv fuel (sampleConfig Scenario.SUCCESS)
                        "secret1" sampleCsv) idleState
         (λ _ t,
            status (replay idleState t) = JobStatus.RUNNING
            ∧ invocations t = [CapLogin]
            ∧ stopRef (replay idleState t) = true).
Proof.
  destruct (X17_runAutomation_stop_during_login stopInLoginEnv
              (sampleConfig Scenario.SUCCESS) "secret1" sampleCsv idleState)
    as (fuel0 & Hrun).
  - reflexivity.
  - discriminate.
  - discriminate.
  - by_length.
  - reflexivity.
  - reflexivity.
  - reflexivity.
  - exists fuel0. intros fuel Hfuel.
    eapply runs_mono; [exact (Hrun fuel Hfuel)|]. cbn beta.
    intros _ t (_ & Hst & Hinv & _ & _ & Hstop). by split_and!.
Defined.

Lemma X18_runAutomation_final_status_witness :
  ∃ fuel0, ∀ fuel, (fuel0 <= fuel)%nat →
    runs (runAutomation lateStopEnv fuel (sampleConfig Scenario.SUCCESS)
                        "secret1" sampleCsv) idleState
         (λ _ t, status (replay idleState t) = JobStatus.COMPLETED).
Proof.
  destruct (X18_runAutomation_final_status lateStopEnv
              (sampleConfig Scenario.SUCCESS) "secret1" sampleCsv idleState)
    as (fuel0 & batches & Hrun).
  - reflexivity.
  - discriminate.
  - discriminate.
  - by_length.
  - reflexivity.
  - assert (length batches = 2%nat) as Hlen.
    { destruct (Hrun (Nat.max fuel0 5) ltac:(lia)) as [Hchunk _].
      assert (chunkArray (Nat.max fuel0 5) (parseCSV sampleCsv) 2
              = Some [take 2 (parseCSV sampleCsv); drop 2 (parseCSV sampleCsv)])
        as Hc.
      { apply (chunkLoop_fuel_mono 5); [lia|]. vm_compute. reflexivity. }
      change (batchSize (sampleConfig Scenario.SUCCESS)) with 2 in Hchunk.
      rewrite Hc in Hchunk. by simplify_eq. }
    exists fuel0. intros fuel Hfuel. destruct (Hrun fuel Hfuel) as [_ Hr].
    eapply runs_mono; [exact Hr|]. cbn beta zeta. rewrite Hlen.
    intros _ t (Hst & _). rewrite Hst. vm_compute. reflexivity.
Defined.

Lemma X20_runAutomation_rejections_witness :
  runAutomation simEnv 0 (sampleConfig Scenario.SUCCESS) "secret1"
                headerOnlyCsv staleState
  = Some (tt, [Alert "No valid data found."]).
Proof.
  destruct (X20_runAutomation_rejections simEnv 0 (sampleConfig Scenario.SUCCESS)
              "secret1" headerOnlyCsv staleState) as (_ & _ & Hparse & _).
  apply Hparse; (discriminate || reflexivity).
Defined.

Lemma X21_handleFetchSheet_invalid_witness :
  parseGoogleSheetUrl "https://example.org/sheet" = None
  ∧ requests (handleFetchSheet noServer "https://example.org/sheet").1 = [].
Proof.
  split; [reflexivity|].
  pose proof (X21_handleFetchSheet_invalid noServer "https://example.org/sheet"
                eq_refl) as H.
  destruct (handleFetchSheet noServer "https://example.org/sheet")
    as [now later].
  destruct H as (Hreq & _). exact Hreq.
Defined.

Lemma X22_handleFetchSheet_request_witness :
  requests (handleFetchSheet noServer initialSheetUrl).1
  = ["https://docs.google.com/spreadsheets/d/1oH41KmxSeEUuLyRT9LrFdWkdgvPS7P6Dk3AWF-b8Y40/export?format=csv&gid=0"].
Proof.
  destruct (X22_handleFetchSheet_request noServer initialSheetUrl
              {| SheetDetails.id :=
                   "1oH41KmxSeEUuLyRT9LrFdWkdgvPS7P6Dk3AWF-b8Y40";
                 SheetDetails.gid := "0" |} eq_refl) as (Hreq & _).
  exact Hreq.
Defined.

Lemma X23_handleFetchSheet_outcome_witness :
  rawDataSet (handleFetchSheet (sheetServer sampleCsv) initialSheetUrl).1
  = [sampleCsv]
  ∧ rawDataSet (handleFetchSheet noServer initialSheetUrl).2
    = [DEMO_CSV_DATA].
Proof.
  pose proof (X23_handleFetchSheet_outcome (sheetServer sampleCsv) initialSheetUrl
                {| SheetDetails.id :=
                     "1oH41KmxSeEUuLyRT9LrFdWkdgvPS7P6Dk3AWF-b8Y40";
                   SheetDetails.gid := "0" |} eq_refl) as Hok.
  pose proof (X23_handleFetchSheet_outcome noServer initialSheetUrl
                {| SheetDetails.id :=
                     "1oH41KmxSeEUuLyRT9LrFdWkdgvPS7P6Dk3AWF-b8Y40";
                   SheetDetails.gid := "0" |} eq_refl) as Hno.
  cbn zeta in Hok, Hno.
  destruct (handleFetchSheet (sheetServer sampleCsv) initialSheetUrl)
    as [now later].
  destruct (handleFetchSheet noServer initialSheetUrl) as [now' later'].
  destruct Hok as (_ & _ & _ & _ & Hraw & _).
  destruct Hno as (_ & _ & _ & _ & _ & Hdemo & _).
  split; [exact Hraw|exact Hdemo].
Defined.

Lemma X24_main_batches_are_chunks_witness :
  0 < 2
  ∧ ∃ batches,
      chunkArray 4 (parseCSV sampleCsv) 2 = Some batches
      ∧ mathCeilQuot (Z.of_nat (length (parseCSV sampleCsv))) 2
        = Finite (Z.of_nat (length batches)).
Proof.
  split; [lia|].
  exists [take 2 (parseCSV sampleCsv); drop 2 (parseCSV sampleCsv)].
  split; [vm_compute; reflexivity|].
  destruct (X24_main_batches_are_chunks 4 (parseCSV sampleCsv) 2
              [take 2 (parseCSV sampleCsv); drop 2 (parseCSV sampleCsv)]
              ltac:(lia) ltac:(vm_compute; reflexivity)) as [Hnum _].
  exact Hnum.
Defined.

Lemma quietStart_calmMain : quietStart calmMain.
Proof. by split_and!. Qed.

Lemma X25_desktop_job_completes_witness :
  ∃ fuel0, ∀ fuel, (fuel0 <= fuel)%nat →
    ∃ t,
      desktopSession desktopEnv calmMain fuel (sampleConfig Scenario.SUCCESS)
                     "secret1" sampleCsv false idleState = Some t
      ∧ status (replay idleState t) = JobStatus.COMPLETED
      ∧ processedRecords (stats (replay idleState t)) = 3
      ∧ batchesCompleted (stats (replay idleState t)) = 2.
Proof.
  destruct (X25_desktop_job_completes desktopEnv calmMain
              (sampleConfig Scenario.SUCCESS) "secret1" sampleCsv false
              idleState) as (fuel0 & Hrun).
  - reflexivity.
  - discriminate.
  - discriminate.
  - by_length.
  - reflexivity.
  - reflexivity.
  - exact quietStart_calmMain.
  - reflexivity.
  - reflexivity.
  - exists fuel0. intros fuel Hfuel.
    destruct (Hrun fuel Hfuel)
      as (t & Ht & Hst & _ & _ & Hproc & _ & _ & Hdone & Htot & _).
    exists t. split_and!; [exact Ht|exact Hst| |].
    + rewrite Hproc. vm_compute. reflexivity.
    + rewrite Hdone, Htot. vm_compute. reflexivity.
Defined.

Lemma X26_desktop_stats_discipline_witness :
  ∃ t,
    desktopSession desktopEnv stopInFirstBatchMain 5
                   (sampleConfig Scenario.SUCCESS) "secret1" sampleCsv false
                   idleState = Some t
    ∧ statsDiscipline idleState t.
Proof.
  assert (∃ t, desktopSession desktopEnv stopInFirstBatchMain 5
                 (sampleConfig Scenario.SUCCESS) "secret1" sampleCsv false
                 idleState = Some t) as [t Ht].
  { eexists. vm_compute. reflexivity. }
  exists t. split; [exact Ht|].
  apply (X26_desktop_stats_discipline desktopEnv stopInFirstBatchMain 5
           (sampleConfig Scenario.SUCCESS) "secret1" sampleCsv false idleState);
    [reflexivity|reflexivity|exact Ht].
Defined.

Lemma X27_desktop_stop_during_batch_witness :
  ∃ fuel0, ∀ fuel, (fuel0 <= fuel)%nat →
    ∃ t,
      desktopSession desktopEnv stopInFirstBatchMain fuel
                     (sampleConfig Scenario.SUCCESS) "secret1" sampleCsv false
                     idleState = Some t
      ∧ status (replay idleState t) = JobStatus.PAUSED
      ∧ batchesCompleted (stats (replay idleState t)) = 1
      ∧ processedRecords (stats (replay idleState t)) = 2.
Proof.
  destruct (X27_desktop_stop_during_batch desktopEnv stopInFirstBatchMain
              (sampleConfig Scenario.SUCCESS) "secret1" sampleCsv false
              idleState 0) as (fuel0 & Hrun).
  - reflexivity.
  - discriminate.
  - discriminate.
  - by_length.
  - reflexivity.
  - reflexivity.
  - by split_and!.
  - reflexivity.
  - reflexivity.
  - intros l Hl. lia.
  - reflexivity.
  - vm_compute. reflexivity.
  - exists fuel0. intros fuel Hfuel.
    destruct (Hrun fuel Hfuel) as (t & Ht & Hst & Hdone & Hproc & _).
    exists t. split_and!; [exact Ht|exact Hst|exact Hdone|].
    rewrite Hproc. vm_compute. reflexivity.
Defined.


Lemma X29_main_window_closed_witness :
  jobMessages closedMain 5 (sampleConfig Scenario.SUCCESS) "secret1"
              (parseCSV sampleCsv) false = Some [].
Proof. apply X29_main_window_closed. reflexivity. Defined.

Lemma X30_main_nonpositive_size_witness :
  ∃ msgs,
    jobMessages calmMain 1 negativeConfig "secret1" (parseCSV sampleCsv) false
    = Some msgs
    ∧ statusesOf msgs = [JobStatus.RUNNING; JobStatus.COMPLETED]
    ∧ statsOf msgs = [].
Proof.
  destruct (X30_main_nonpositive_size calmMain 1 negativeConfig "secret1"
              (parseCSV sampleCsv) false eq_refl quietStart_calmMain
              (λ _, eq_refl)) as [Hneg _].
  apply Hneg; [reflexivity|lia].
Defined.
